(** * The data model and the operations

    aligator: the parallel-condensing Riccati solver and the solver front door.

    A shallow embedding of
    - [gar/parallel-solver.hpp] ([ParallelRiccatiSolver]: constructor,
      [checkIndices], [buildLeg], [backward], [assembleCondensedSystem],
      [forward]),
    - [core/solver-base.hpp] ([xs_default_init], [us_default_init],
      [checkTrajectoryAndAssign]),
    - the Python binding of [ProxScaler] ([set_weight], [setWeights]) and of
      the workspace ([getConstraintScaler]),
    - [core/traj-opt-problem.hpp] ([getInitState], [setInitState]),
    - [modelling/linear-function-composition.hpp] (the constructors of a
      linear composition, [createData], [evaluate], [computeJacobians]),
    the properties of them that the specification states, and more
    properties that the code shows.

    Conventions.
    - The C++ classes are templates over [_Scalar]; here they are generic over
      a type [Scalar] with the operations of the class [ScalarOps].  No law is
      assumed of these operations, so every statement also holds at IEEE
      doubles (instance [double_ops]).
    - A [uint] is a [Z] in [0, 2^32); every arithmetic operation the source
      performs on [uint]s is followed by the wrap-around [uint].
    - A call either returns ([Ok]) or stops with a [fault]: an access outside a
      [std::vector] ([OutOfRange]) or through a pointer that does not point to
      what its type says ([InvalidPointer]), where the C++ behaviour is
      undefined; a failed [assert] ([AssertionFailed]); a thrown runtime error;
      or [boost::python::throw_error_already_set] ([PythonError]).
      Assertions are checked; a run that returns passed them all, and is the
      run of a build without assertions.
    - The OpenMP loops over the legs are run leg after leg.  *)

From Stdlib Require Import ZArith List Bool String Floats Lia.
From stdpp Require Import prelude.

Local Open Scope Z_scope.

(** ** Scalars *)

Class ScalarOps (Scalar : Type) := {
  szero : Scalar;
  sone : Scalar;
  sopp : Scalar -> Scalar;
  smul : Scalar -> Scalar -> Scalar
}.

(** [context::Scalar] is [double]. *)
#[export] Instance double_ops : ScalarOps float := {|
  szero := 0%float;
  sone := 1%float;
  sopp := PrimFloat.opp;
  smul := PrimFloat.mul
|}.

(** Exact integers, for running the definitions on small examples. *)
#[export] Instance Z_ops : ScalarOps Z := {|
  szero := 0;
  sone := 1;
  sopp := Z.opp;
  smul := Z.mul
|}.

(** ** Outcomes of a call *)

Inductive fault : Type :=
| OutOfRange
| InvalidPointer
| AssertionFailed
| RuntimeError (msg : string)
| PythonError (exc msg : string).

Inductive result (A : Type) : Type :=
| Ok (a : A)
| Fault (e : fault).

Arguments Ok {A} a.
Arguments Fault {A} e.

Definition bind {A B : Type} (m : result A) (k : A -> result B) : result B :=
  match m with
  | Ok a => k a
  | Fault e => Fault e
  end.

Notation "'let*' x := m 'in' k" := (bind m (fun x => k))
  (at level 10, x name, m at level 100, k at level 200).

(** [assert(b)] of a build with assertions enabled. *)
Definition assert_ (b : bool) : result unit :=
  if b then Ok tt else Fault AssertionFailed.

(** ** [uint] arithmetic *)

Definition uint_modulus : Z := 2 ^ 32.

(** Conversion to [uint], and the wrap-around of [uint] arithmetic. *)
Definition uint (z : Z) : Z := z mod uint_modulus.

(** ** [std::vector] *)

(** [i] is a valid index of [v]. *)
Definition in_range {A : Type} (v : list A) (i : Z) : bool :=
  (0 <=? i) && (i <? Z.of_nat (length v)).

(** [v[i]], read. *)
Definition at_ {A : Type} (v : list A) (i : Z) : result A :=
  if in_range v i then
    match v !! Z.to_nat i with
    | Some x => Ok x
    | None => Fault OutOfRange
    end
  else Fault OutOfRange.

(** [v[i] = x]. *)
Definition set_at {A : Type} (v : list A) (i : Z) (x : A) : result (list A) :=
  if in_range v i then Ok (<[Z.to_nat i := x]> v) else Fault OutOfRange.

(** [v.resize(n)]: truncates, or pads with default-constructed elements. *)
Definition resize_vec {A : Type} (n : Z) (dflt : A) (v : list A) : list A :=
  take (Z.to_nat n) v ++ replicate (Z.to_nat n - length v)%nat dflt.

(** [make_span_from_indices(vec, i0, i1)]: the view of [vec] from [i0], of
    [i1 - i0] elements.  A view that leaves the vector is a fault. *)
Definition make_span_from_indices {A : Type} (vec : list A) (i0 i1 : Z)
  : result (list A) :=
  if (0 <=? i0) && (i0 <=? i1) && (i1 <=? Z.of_nat (length vec))
  then Ok (take (Z.to_nat (i1 - i0)) (drop (Z.to_nat i0) vec))
  else Fault OutOfRange.

(** What a callee wrote through the view [make_span_from_indices vec i0 _],
    seen from the vector. *)
Definition write_span {A : Type} (vec : list A) (i0 : Z) (view : list A)
  : list A :=
  take (Z.to_nat i0) vec ++ view ++ drop (Z.to_nat i0 + length view)%nat vec.

(** ** Loops *)

(** [n] iterations of [body], the counter starting at [i]. *)
Fixpoint for_range {St : Type} (body : Z -> St -> result St)
  (i : Z) (n : nat) (s : St) : result St :=
  match n with
  | O => Ok s
  | S n' => let* s' := body i s in for_range body (i + 1) n' s'
  end.

(** [for (i = lo; i < hi; i++) body]. *)
Definition for_loop {St : Type} (lo hi : Z) (body : Z -> St -> result St)
  (s : St) : result St :=
  for_range body lo (Z.to_nat (hi - lo)) s.

(** ** Dense matrices and vectors (Eigen) *)

Section Eigen.
Context {Scalar : Type} `{ScalarOps Scalar}.

Definition VectorXs : Type := list Scalar.

(** A matrix knows its dimensions; the coefficients are kept row by row. *)
Record MatrixXs : Type := mkMatrix {
  rows : nat;
  cols : nat;
  coeffs : list (list Scalar)
}.

Definition tabulate (r c : nat) (g : nat -> nat -> Scalar) : MatrixXs :=
  mkMatrix r c (map (fun i => map (g i) (seq 0 c)) (seq 0 r)).

Definition coeff (M : MatrixXs) (i j : nat) : Scalar :=
  match coeffs M !! i with
  | Some row => default szero (row !! j)
  | None => szero
  end.

(** Default-constructed [MatrixXs]. *)
Definition empty_matrix : MatrixXs := mkMatrix 0 0 [].

(** [MatrixXs::Zero(r, c)]. *)
Definition Zero (r c : nat) : MatrixXs := tabulate r c (fun _ _ => szero).

(** [VectorXs::Zero(n)]. *)
Definition vZero (n : nat) : VectorXs := replicate n szero.

(** [MatrixXs::Identity(r, c)]. *)
Definition Identity (r c : nat) : MatrixXs :=
  tabulate r c (fun i j => if (i =? j)%nat then sone else szero).

(** [M.transpose()]. *)
Definition transpose (M : MatrixXs) : MatrixXs :=
  tabulate (cols M) (rows M) (fun i j => coeff M j i).

(** [s * M]. *)
Definition scale (s : Scalar) (M : MatrixXs) : MatrixXs :=
  mkMatrix (rows M) (cols M) (map (map (smul s)) (coeffs M)).

(** [v *= s], coefficient by coefficient. *)
Definition vscale_right (s : Scalar) (v : VectorXs) : VectorXs :=
  map (fun x => smul x s) v.

End Eigen.

Arguments VectorXs : clear implicits.
Arguments MatrixXs : clear implicits.

(** ** The LQ knot ([LQRKnotTpl], gar/lqr-problem.hpp) *)

Module Knot.
Section knot.
Context {Scalar : Type} `{ScalarOps Scalar}.

(** Modelled from the spec: the struct is declared in gar/lqr-problem.hpp,
    which is not among the sources; the data model gives its members: the
    dimensions [(nx, nu, nc, nth)], the cost blocks [Q, R, S, q, r], the
    dynamics [A, B, E, f], the constraint blocks [C, D, d] and the
    parameterization [Gx, Gu, Gth (Gamma), gamma]. *)
Record LQRKnotTpl : Type := mk {
  nx : Z;
  nu : Z;
  nc : Z;
  nth : Z;
  Q : MatrixXs Scalar;
  R : MatrixXs Scalar;
  S : MatrixXs Scalar;
  q : VectorXs Scalar;
  r : VectorXs Scalar;
  A : MatrixXs Scalar;
  B : MatrixXs Scalar;
  E : MatrixXs Scalar;
  f : VectorXs Scalar;
  C : MatrixXs Scalar;
  D : MatrixXs Scalar;
  d : VectorXs Scalar;
  Gth : MatrixXs Scalar;
  Gx : MatrixXs Scalar;
  Gu : MatrixXs Scalar;
  gamma : VectorXs Scalar
}.

(** Modelled from the spec: the constructor [LQRKnotTpl(nx, nu, nc)] is
    missing with the struct; it sizes the blocks as the data model says
    ([Q] nx x nx, [R] nu x nu, [S] nu x nx, [C] nc x nx, [D] nc x nu, ...),
    with no parameter ([nth = 0]). *)
Definition make (nx nu nc : Z) : LQRKnotTpl :=
  let x := Z.to_nat nx in
  let u := Z.to_nat nu in
  let c := Z.to_nat nc in
  {| nx := nx; nu := nu; nc := nc; nth := 0;
     Q := Zero x x; R := Zero u u; S := Zero u x; q := vZero x; r := vZero u;
     A := Zero x x; B := Zero x u; E := Zero x x; f := vZero x;
     C := Zero c x; D := Zero c u; d := vZero c;
     Gth := Zero 0 0; Gx := Zero 0 x; Gu := Zero 0 u; gamma := vZero 0 |}.

(** Modelled from the spec: [addParameterization] is a member of the missing
    struct.  The spec: "Operation addParameterization(nth) allocates Gx, Gu
    and sizes nth"; the parameterization blocks are "of size nth x *"; and
    the operation "leaves (Q, R, q, r, A, B, E, f) unchanged". *)
Definition addParameterization (n : Z) (k : LQRKnotTpl) : LQRKnotTpl :=
  let p := Z.to_nat n in
  {| nx := nx k; nu := nu k; nc := nc k; nth := n;
     Q := Q k; R := R k; S := S k; q := q k; r := r k;
     A := A k; B := B k; E := E k; f := f k;
     C := C k; D := D k; d := d k;
     Gth := Zero p p;
     Gx := Zero p (Z.to_nat (nx k));
     Gu := Zero p (Z.to_nat (nu k));
     gamma := vZero p |}.

(** The three assignments [knot.Gx = ...; knot.Gu = ...; knot.gamma = ...]. *)
Definition set_parameter (gx gu : MatrixXs Scalar) (g : VectorXs Scalar)
  (k : LQRKnotTpl) : LQRKnotTpl :=
  {| nx := nx k; nu := nu k; nc := nc k; nth := nth k;
     Q := Q k; R := R k; S := S k; q := q k; r := r k;
     A := A k; B := B k; E := E k; f := f k;
     C := C k; D := D k; d := d k;
     Gth := Gth k; Gx := gx; Gu := gu; gamma := g |}.

End knot.
Arguments LQRKnotTpl : clear implicits.
End Knot.

(** ** The LQ problem ([LQRProblemTpl]) and the stage factor *)

Section Problem.
Context {Scalar : Type} `{ScalarOps Scalar}.

(** Modelled from the spec: [LQRProblemTpl] is declared in
    gar/lqr-problem.hpp, which is missing; the spec: "initial constraint
    (G0, g0) of row-count nc0, ordered vector of knots". *)
Record LQRProblemTpl : Type := mkProblem {
  stages : list (Knot.LQRKnotTpl Scalar);
  G0 : MatrixXs Scalar;
  g0 : VectorXs Scalar
}.

(** Modelled from the spec: [nc0()], the row count of the initial
    constraint, as a [uint]. *)
Definition nc0 (p : LQRProblemTpl) : Z := uint (Z.of_nat (length (g0 p))).

(** Modelled from the spec: [horizon()], an [int]; the horizon [[0, N]] has
    [N + 1] knots. *)
Definition horizon (p : LQRProblemTpl) : Z := Z.of_nat (length (stages p)) - 1.

(** Modelled from the spec: the problem's [addParameterization(nth)]
    parameterizes every knot (tests/gar/knot.cpp compares all stages after
    the call). *)
Definition problem_addParameterization (n : Z) (p : LQRProblemTpl)
  : LQRProblemTpl :=
  mkProblem (map (Knot.addParameterization n) (stages p)) (G0 p) (g0 p).

Definition set_stages (st : list (Knot.LQRKnotTpl Scalar)) (p : LQRProblemTpl)
  : LQRProblemTpl :=
  mkProblem st (G0 p) (g0 p).

(** [StageFactor::value_t]: the value function of a knot. *)
Record value_t : Type := mkValue {
  Pmat : MatrixXs Scalar;
  pvec : VectorXs Scalar;
  Vxt : MatrixXs Scalar;
  Vtt : MatrixXs Scalar;
  vt : VectorXs Scalar
}.

(** Modelled from the spec: [StageFactor] is declared in
    gar/riccati-impl.hpp, which is missing; the spec: "value-function blocks
    Pmat (nx x nx), pvec (nx), Vtt (nth x nth), Vxt (nx x nth), vt (nth),
    feedback gain K (nu x nx) and feedforward k (nu)". *)
Record StageFactor : Type := mkFactor {
  sf_nx : Z;
  sf_nu : Z;
  sf_nc : Z;
  sf_nth : Z;
  Kgain : MatrixXs Scalar;
  kff : VectorXs Scalar;
  vm : value_t
}.

(** Modelled from the spec: the constructor [StageFactor(nx, nu, nc, nth)],
    which sizes the blocks. *)
Definition StageFactor_make (nx nu nc nth : Z) : StageFactor :=
  let x := Z.to_nat nx in
  let u := Z.to_nat nu in
  let t := Z.to_nat nth in
  {| sf_nx := nx; sf_nu := nu; sf_nc := nc; sf_nth := nth;
     Kgain := Zero u x; kff := vZero u;
     vm := {| Pmat := Zero x x; pvec := vZero x;
              Vxt := Zero x t; Vtt := Zero t t; vt := vZero t |} |}.

End Problem.
Arguments LQRProblemTpl : clear implicits.
Arguments value_t : clear implicits.
Arguments StageFactor : clear implicits.

(** ** Block vectors ([BlkMatrix<VectorXs, -1, 1>]) *)

Section BlkVec.
Context {Scalar : Type} `{ScalarOps Scalar}.

(** Modelled from the spec: [BlkMatrix] is declared in gar/blk-matrix.hpp,
    which is missing.  A block vector is a vector cut into segments of the
    given dimensions; [v[i]] is a view of segment [i]. *)
Record BlkVec : Type := mkBlkVec {
  blk_dims : list Z;
  blocks : list (VectorXs Scalar)
}.

(** Default-constructed. *)
Definition BlkVec_empty : BlkVec := mkBlkVec [] [].

(** [BlkVec(dims)].  (Eigen leaves the coefficients uninitialised; they are
    zero here, and [assembleCondensedSystem] assigns every segment.) *)
Definition BlkVec_make (dims : list Z) : BlkVec :=
  mkBlkVec dims (map (fun n => vZero (Z.to_nat n)) dims).

(** [v[i]], read. *)
Definition blk_at (v : BlkVec) (i : Z) : result (VectorXs Scalar) :=
  at_ (blocks v) i.

(** [v[i] = x]: an assignment to a view, which cannot be resized (Eigen
    asserts that the sizes agree). *)
Definition blk_set (v : BlkVec) (i : Z) (x : VectorXs Scalar) : result BlkVec :=
  let* n := at_ (blk_dims v) i in
  let* _ := assert_ (Z.of_nat (length x) =? n) in
  let* b := set_at (blocks v) i x in
  Ok (mkBlkVec (blk_dims v) b).

(** [v.matrix() *= s]. *)
Definition blk_scale_right (s : Scalar) (v : BlkVec) : BlkVec :=
  mkBlkVec (blk_dims v) (map (vscale_right s) (blocks v)).

End BlkVec.
Arguments BlkVec : clear implicits.

(** ** [ParallelRiccatiSolver] (gar/parallel-solver.hpp) *)

Section ParallelRiccatiSolver.
Context {Scalar : Type} `{ScalarOps Scalar}.

#[local] Abbreviation KnotType := (Knot.LQRKnotTpl Scalar).
#[local] Abbreviation Mat := (MatrixXs Scalar).
#[local] Abbreviation Vec := (VectorXs Scalar).

Record condensed_system_t : Type := mkCondensed {
  subdiagonal : list Mat;
  diagonal : list Mat;
  superdiagonal : list Mat
}.

(** The member [problem] is a reference to the caller's problem, which the
    solver writes through ([const_cast]): the field below is that one object,
    not a copy. *)
Record ParallelRiccatiSolver : Type := mkSolver {
  datas : list (StageFactor Scalar);
  numLegs : Z;
  splitIdx : list Z;
  condensedKktSystem : condensed_system_t;
  condensedKktRhs : BlkVec Scalar;
  problem : LQRProblemTpl Scalar
}.

Definition set_datas (d : list (StageFactor Scalar)) (s : ParallelRiccatiSolver)
  : ParallelRiccatiSolver :=
  mkSolver d (numLegs s) (splitIdx s) (condensedKktSystem s)
    (condensedKktRhs s) (problem s).

Definition set_problem_stages (st : list KnotType) (s : ParallelRiccatiSolver)
  : ParallelRiccatiSolver :=
  mkSolver (datas s) (numLegs s) (splitIdx s) (condensedKktSystem s)
    (condensedKktRhs s) (set_stages st (problem s)).

Definition set_condensed (sys : condensed_system_t) (rhs : BlkVec Scalar)
  (s : ParallelRiccatiSolver) : ParallelRiccatiSolver :=
  mkSolver (datas s) (numLegs s) (splitIdx s) sys rhs (problem s).

(** *** [checkIndices] *)

(** The loop of [checkIndices], with its early [return false]. *)
Fixpoint checkIndices_from (idx : list Z) (i : Z) (n : nat) : result bool :=
  match n with
  | O => Ok true
  | S n' =>
      let* a := at_ idx i in
      let* b := at_ idx (i + 1) in
      if a >=? b then Ok false else checkIndices_from idx (i + 1) n'
  end.

Definition checkIndices (s : ParallelRiccatiSolver) : result bool :=
  let* first := at_ (splitIdx s) 0 in
  if negb (first =? 0) then Ok false
  else checkIndices_from (splitIdx s) 0 (Z.to_nat (numLegs s)).

(** *** [buildLeg] *)

(** One iteration of the loop of [buildLeg]. *)
Definition buildLeg_step (last_leg : bool) (t : Z) (s : ParallelRiccatiSolver)
  : result ParallelRiccatiSolver :=
  let* knot := at_ (stages (problem s)) t in
  let* knot :=
    if negb last_leg then
      let knot := Knot.addParameterization (Knot.nx knot) knot in
      let* _ := assert_ (Knot.nx knot =? Knot.nth knot) in
      Ok knot
    else Ok knot in
  let* st := set_at (stages (problem s)) t knot in
  let s := set_problem_stages st s in
  Ok (set_datas
        (datas s ++ [StageFactor_make (Knot.nx knot) (Knot.nu knot)
                       (Knot.nc knot) (Knot.nth knot)]) s).

Definition buildLeg (start end_ : Z) (last_leg : bool)
  (s : ParallelRiccatiSolver) : result ParallelRiccatiSolver :=
  let* s := for_loop start end_ (buildLeg_step last_leg) s in
  if negb last_leg then
    (* last knot needs parameter to be set *)
    let i := uint (end_ - 1) in
    let* knot := at_ (stages (problem s)) i in
    let knot :=
      Knot.set_parameter (transpose (Knot.A knot)) (transpose (Knot.B knot))
        (Knot.f knot) knot in
    let* st := set_at (stages (problem s)) i knot in
    Ok (set_problem_stages st s)
  else Ok s.

(** *** The constructor *)

(** The split indices: [splitIdx(num_legs + 1)], then
    [splitIdx[i] = i * (N + 1) / num_legs] and [splitIdx[num_legs] = N + 1],
    in [uint] arithmetic. *)
Definition make_splitIdx (N num_legs : Z) : result (list Z) :=
  let* idx :=
    for_loop 0 num_legs
      (fun i idx => set_at idx i (uint (i * uint (N + 1)) / num_legs))
      (replicate (Z.to_nat (uint (num_legs + 1))) 0) in
  set_at idx num_legs (uint (N + 1)).

Definition buildLegs (num_legs : Z) (s : ParallelRiccatiSolver)
  : result ParallelRiccatiSolver :=
  for_loop 0 num_legs
    (fun i s =>
       let* i0 := at_ (splitIdx s) i in
       let* i1 := at_ (splitIdx s) (uint (i + 1)) in
       buildLeg i0 i1 (i =? uint (num_legs - 1)) s)
    s.

(** [ParallelRiccatiSolver(problem, num_legs)], assertions enabled. *)
Definition ParallelRiccatiSolver_make (pb : LQRProblemTpl Scalar)
  (num_legs : Z) : result ParallelRiccatiSolver :=
  let N := uint (horizon pb) in
  let* idx := make_splitIdx N num_legs in
  let s := mkSolver [] num_legs idx (mkCondensed [] [] []) BlkVec_empty pb in
  let* s := buildLegs num_legs s in
  let* _ := assert_ (Z.of_nat (length (datas s)) =? uint (N + 1)) in
  let* ok := checkIndices s in
  let* _ := assert_ ok in
  Ok s.

(** *** [assembleCondensedSystem] *)

(** The state of the first loop ("fill in for all legs"). *)
Record assembly : Type := mkAssembly {
  asm_diagonal : list Mat;
  asm_superdiagonal : list Mat;
  asm_dims : list Z
}.

Definition assemble_leg (s : ParallelRiccatiSolver) (i : Z) (a : assembly)
  : result assembly :=
  let stages := stages (problem s) in
  let* i0 := at_ (splitIdx s) i in
  let* i1 := at_ (splitIdx s) (i + 1) in
  let ip1 := i + 1 in
  let* d0 := at_ (datas s) i0 in
  let* diag := set_at (asm_diagonal a) (2 * ip1) (Vtt (vm d0)) in
  let* k0 := at_ stages i0 in
  let* k1m := at_ stages (uint (i1 - 1)) in
  let dims := asm_dims a ++ [Knot.nx k0; Knot.nth k1m] in
  let* d1 := at_ (datas s) i1 in
  let* diag := set_at diag (2 * ip1 + 1) (Pmat (vm d1)) in
  let* k1 := at_ stages i1 in
  let* super := set_at (asm_superdiagonal a) (2 * ip1) (Knot.E k1) in
  let* super :=
    if ip1 + 1 <? numLegs s
    then set_at super (2 * ip1 + 1) (Vxt (vm d1))
    else Ok super in
  Ok (mkAssembly diag super dims).

(** "fix sub diagonal" *)
Definition fix_subdiagonal (super : list Mat) (i : Z) (sub : list Mat)
  : result (list Mat) :=
  let* m := at_ super i in
  set_at sub i (transpose m).

Definition assemble_rhs_leg (s : ParallelRiccatiSolver) (i : Z)
  (rhs : BlkVec Scalar) : result (BlkVec Scalar) :=
  let* i0 := at_ (splitIdx s) i in
  let* i1 := at_ (splitIdx s) (i + 1) in
  let ip1 := i + 1 in
  let* d0 := at_ (datas s) i0 in
  let* rhs := blk_set rhs (2 * ip1) (vt (vm d0)) in
  let* d1 := at_ (datas s) i1 in
  blk_set rhs (2 * ip1 + 1) (pvec (vm d1)).

Definition assembleCondensedSystem (mudyn : Scalar) (s : ParallelRiccatiSolver)
  : result ParallelRiccatiSolver :=
  let sys := condensedKktSystem s in
  let pb := problem s in
  let sub := resize_vec (uint (2 * numLegs s - 1)) empty_matrix (subdiagonal sys) in
  let diag := resize_vec (uint (2 * numLegs s)) empty_matrix (diagonal sys) in
  let super :=
    resize_vec (uint (2 * numLegs s - 1)) empty_matrix (superdiagonal sys) in
  let n0 := Z.to_nat (nc0 pb) in
  let* diag := set_at diag 0 (scale (sopp mudyn) (Identity n0 n0)) in
  let* super := set_at super 0 (G0 pb) in
  let* d0 := at_ (datas s) 0 in
  let* diag := set_at diag 1 (Pmat (vm d0)) in
  let* super := set_at super 1 (Vxt (vm d0)) in
  let* k0 := at_ (stages pb) 0 in
  let dims := [nc0 pb; Knot.nx k0] in
  let* a :=
    for_loop 0 (uint (numLegs s - 1)) (assemble_leg s)
      (mkAssembly diag super dims) in
  let* sub :=
    for_loop 0 (Z.of_nat (length sub)) (fix_subdiagonal (asm_superdiagonal a))
      sub in
  let* _ :=
    assert_ (Z.of_nat (length (asm_dims a))
             =? Z.of_nat (length (asm_diagonal a))) in
  let rhs := BlkVec_make (asm_dims a) in
  let* rhs := blk_set rhs 0 (g0 pb) in
  let* d0 := at_ (datas s) 0 in
  let* rhs := blk_set rhs 1 (pvec (vm d0)) in
  let* rhs := for_loop 0 (uint (numLegs s - 1)) (assemble_rhs_leg s) rhs in
  Ok (set_condensed (mkCondensed sub (asm_diagonal a) (asm_superdiagonal a))
        (blk_scale_right (sopp sone) rhs) s).

(** *** [backward] and [forward]

    [ProximalRiccatiImpl] (gar/riccati-impl.hpp) and
    [symmetric_block_tridiagonal_solve] (gar/block-tridiagonal-solver.hpp)
    are not among the sources: the solver is generic in them. *)

Section Impl.

(** [Impl::backwardImpl(stages, mudyn, mueq, datas)]: the flag it returns,
    and the stage factors it leaves in the view [datas]. *)
Variable backwardImpl :
  list KnotType -> Scalar -> Scalar -> list (StageFactor Scalar) ->
  bool * list (StageFactor Scalar).

(** [symmetric_block_tridiagonal_solve(sub, diag, super, rhs)]: the flag it
    returns, and what it leaves in the system and in [rhs] (the solution). *)
Variable symmetric_block_tridiagonal_solve :
  condensed_system_t -> BlkVec Scalar ->
  bool * (condensed_system_t * BlkVec Scalar).

(** The trajectories [forward] writes: [xs], [us], [vs], [lbdas]. *)
Record trajectories : Type := mkTraj {
  xs : list Vec;
  us : list Vec;
  vs : list Vec;
  lbdas : list Vec
}.

(** [Impl::forwardImpl(stages, datas, xs, us, vs, lbdas, theta)], [theta]
    optional: what it leaves in the four views. *)
Variable forwardImpl :
  list KnotType -> list (StageFactor Scalar) -> trajectories ->
  option Vec -> trajectories.

(** One leg of the parallel loop of [backward].  The loop is an OpenMP
    [parallel for] with the reduction [& : ret]; the legs are run here one
    after the other. *)
Definition backward_leg (mudyn mueq : Scalar) (i : Z)
  (st : bool * ParallelRiccatiSolver) : result (bool * ParallelRiccatiSolver) :=
  let ret := fst st in
  let s := snd st in
  let* i0 := at_ (splitIdx s) i in
  let* i1 := at_ (splitIdx s) (uint (i + 1)) in
  let* stview := make_span_from_indices (stages (problem s)) i0 i1 in
  let* dtview := make_span_from_indices (datas s) i0 i1 in
  let r := backwardImpl stview mudyn mueq dtview in
  Ok (ret && fst r, set_datas (write_span (datas s) i0 (snd r)) s).

Definition backward (mudyn mueq : Scalar) (s : ParallelRiccatiSolver)
  : result (bool * ParallelRiccatiSolver) :=
  let* st := for_loop 0 (numLegs s) (backward_leg mudyn mueq) (true, s) in
  let s := snd st in
  let* s := assembleCondensedSystem mudyn s in
  let solved :=
    symmetric_block_tridiagonal_solve (condensedKktSystem s)
      (condensedKktRhs s) in
  Ok (true, set_condensed (fst (snd solved)) (snd (snd solved)) s).

(** The first loop of [forward]. *)
Definition forward_distribute (s : ParallelRiccatiSolver) (i : Z)
  (tr : trajectories) : result trajectories :=
  let* i0 := at_ (splitIdx s) i in
  let* lam := blk_at (condensedKktRhs s) (2 * i) in
  let* ls := set_at (lbdas tr) i0 lam in
  let* x := blk_at (condensedKktRhs s) (2 * i + 1) in
  let* xs' := set_at (xs tr) i0 x in
  Ok (mkTraj xs' (us tr) (vs tr) ls).

(** The parameter of leg [i]: none for the last leg, else
    [lbdas[splitIdx[i + 1]]]. *)
Definition forward_theta (s : ParallelRiccatiSolver) (i : Z) (tr : trajectories)
  : result (option Vec) :=
  if i =? uint (numLegs s - 1) then Ok None
  else
    let* i1 := at_ (splitIdx s) (uint (i + 1)) in
    let* theta1 := at_ (lbdas tr) i1 in
    Ok (Some theta1).

(** One leg of the parallel loop of [forward] (an OpenMP [parallel for]; the
    legs are run here one after the other): the views of the leg, the call
    of [forwardImpl], and what the call wrote. *)
Definition forward_leg (s : ParallelRiccatiSolver) (i : Z) (tr : trajectories)
  : result trajectories :=
  let* i0 := at_ (splitIdx s) i in
  let* i1 := at_ (splitIdx s) (uint (i + 1)) in
  let* xsview := make_span_from_indices (xs tr) i0 i1 in
  let* usview := make_span_from_indices (us tr) i0 i1 in
  let* vsview := make_span_from_indices (vs tr) i0 i1 in
  let* lsview := make_span_from_indices (lbdas tr) i0 i1 in
  let* stview := make_span_from_indices (stages (problem s)) i0 i1 in
  let* dsview := make_span_from_indices (datas s) i0 i1 in
  let* theta := forward_theta s i tr in
  let out :=
    forwardImpl stview dsview (mkTraj xsview usview vsview lsview) theta in
  Ok (mkTraj (write_span (xs tr) i0 (xs out)) (write_span (us tr) i0 (us out))
        (write_span (vs tr) i0 (vs out))
        (write_span (lbdas tr) i0 (lbdas out))).

Definition forward (s : ParallelRiccatiSolver) (tr : trajectories)
  : result trajectories :=
  let* tr := for_loop 0 (numLegs s) (forward_distribute s) tr in
  for_loop 0 (numLegs s) (forward_leg s) tr.

End Impl.

End ParallelRiccatiSolver.
Arguments condensed_system_t : clear implicits.
Arguments ParallelRiccatiSolver : clear implicits.
Arguments trajectories : clear implicits.

(** ** The solver front door (core/solver-base.hpp) and the trajectory
    optimization problem (core/traj-opt-problem.hpp) *)

Section TrajOpt.
Context {Scalar : Type} `{ScalarOps Scalar}.

#[local] Abbreviation Vec := (VectorXs Scalar).

(** The modelling layer is outside the sources: costs and constraint stacks
    are kept abstract. *)
Context {CostAbstract ConstraintStack : Type}.

(** Modelled from the spec: a manifold "provides neutral()"; the class is
    declared outside the sources. *)
Record ManifoldAbstractTpl : Type := mkManifold {
  space_nx : Z;
  space_ndx : Z;
  neutral : Vec
}.

(** Modelled from the spec: of a stage model the front door uses the state
    space [xspace()], the control space [uspace()] and the next state space
    [xspace_next()]. *)
Record StageModelTpl : Type := mkStage {
  xspace : ManifoldAbstractTpl;
  uspace : ManifoldAbstractTpl;
  xspace_next : ManifoldAbstractTpl
}.

(** [StateErrorResidualTpl]: of it the problem uses the member [target_]. *)
Record StateErrorResidual : Type := mkStateError {
  target_ : Vec;
  residual_space : ManifoldAbstractTpl
}.

(** [xyz::polymorphic<UnaryFunction>]: a state error residual, or some other
    unary function. *)
Inductive UnaryFunction : Type :=
| IsStateError (r : StateErrorResidual)
| OtherUnaryFunction (nr : Z).

(** [StateErrorResidual *]: null, or the address of the object that
    [init_constraint_] holds. *)
Inductive StateErrorPtr : Type :=
| nullptr
| to_init_constraint.

Record TrajOptProblemTpl : Type := mkTrajOpt {
  init_constraint_ : UnaryFunction;
  stages_ : list StageModelTpl;
  term_cost_ : CostAbstract;
  term_cstrs_ : ConstraintStack;
  unone_ : Vec;
  init_state_error_ : StateErrorPtr
}.

(** Modelled from the spec: [numSteps()] is defined outside the sources; a
    problem with [N] steps has [N] stages. *)
Definition numSteps (p : TrajOptProblemTpl) : Z := Z.of_nat (length (stages_ p)).

(** [v.back()]. *)
Definition back {A : Type} (v : list A) : result A :=
  match last v with
  | Some x => Ok x
  | None => Fault OutOfRange
  end.

(** *** core/solver-base.hpp *)

Definition xs_default_init (p : TrajOptProblemTpl) (xs : list Vec)
  : result (list Vec) :=
  let nsteps := numSteps p in
  let xs := resize_vec (nsteps + 1) [] xs in
  let* xs :=
    for_loop 0 nsteps
      (fun i xs =>
         let* sm := at_ (stages_ p) i in
         set_at xs i (neutral (xspace sm)))
      xs in
  let* sm := back (stages_ p) in
  set_at xs nsteps (neutral (xspace_next sm)).

Definition us_default_init (p : TrajOptProblemTpl) (us : list Vec)
  : result (list Vec) :=
  let nsteps := numSteps p in
  let us := resize_vec nsteps [] us in
  for_loop 0 nsteps
    (fun i us =>
       let* sm := at_ (stages_ p) i in
       set_at us i (neutral (uspace sm)))
    us.



(** *** core/traj-opt-problem.hpp *)

Definition initCondIsStateError (p : TrajOptProblemTpl) : bool :=
  match init_state_error_ p with
  | nullptr => false
  | to_init_constraint => true
  end.

(** [ALIGATOR_RUNTIME_ERROR(msg)] throws a runtime error. *)
Definition ALIGATOR_RUNTIME_ERROR {A : Type} (msg : string) : result A :=
  Fault (RuntimeError msg).

(** [*init_state_error_]. *)
Definition deref_init_state_error (p : TrajOptProblemTpl)
  : result StateErrorResidual :=
  match init_state_error_ p, init_constraint_ p with
  | to_init_constraint, IsStateError r => Ok r
  | _, _ => Fault InvalidPointer
  end.

Definition getInitState (p : TrajOptProblemTpl) : result Vec :=
  let* _ :=
    if negb (initCondIsStateError p)
    then ALIGATOR_RUNTIME_ERROR "Initial condition is not a StateErrorResidual."
    else Ok tt in
  let* r := deref_init_state_error p in
  Ok (target_ r).

Definition setInitState (x0 : Vec) (p : TrajOptProblemTpl)
  : result TrajOptProblemTpl :=
  let* _ :=
    if negb (initCondIsStateError p)
    then ALIGATOR_RUNTIME_ERROR "Initial condition is not a StateErrorResidual."
    else Ok tt in
  let* r := deref_init_state_error p in
  Ok (mkTrajOpt (IsStateError (mkStateError x0 (residual_space r)))
        (stages_ p) (term_cost_ p) (term_cstrs_ p) (unone_ p)
        (init_state_error_ p)).

(** The pointer, when it is not null, points to a state error residual. *)
Definition init_state_error_valid (p : TrajOptProblemTpl) : Prop :=
  init_state_error_ p = to_init_constraint ->
  exists r, init_constraint_ p = IsStateError r.

End TrajOpt.
Arguments ManifoldAbstractTpl : clear implicits.
Arguments StageModelTpl : clear implicits.
Arguments StateErrorResidual : clear implicits.
Arguments UnaryFunction : clear implicits.
Arguments TrajOptProblemTpl : clear implicits.

(** ** The Python binding of [ProxScaler]
    (bindings/python/src/expose-solver-prox.cpp) *)

Section ProxScaler.
Context {Scalar : Type} `{ScalarOps Scalar}.

(** Modelled from the spec: [ConstraintProximalScalerTpl] is declared outside
    the sources; "constraints are grouped into k blocks with per-block scalar
    weight"; [size()] is the number of blocks. *)
Record ProxScaler : Type := mkScaler {
  weights_ : VectorXs Scalar
}.

Definition size (s : ProxScaler) : Z := Z.of_nat (length (weights_ s)).

(** What a call from Python leaves behind: the scaler, and the Python error
    indicator ([PyErr_SetString] sets it). *)
Record py_state : Type := mkPy {
  scaler : ProxScaler;
  pyerr : option (string * string)
}.

(** The members [ProxScaler::setWeight(v, j)] and [ProxScaler::setWeights(w)]
    are defined outside the sources: the bindings are generic in them. *)
Variable member_setWeight : Scalar -> Z -> ProxScaler -> result ProxScaler.
Variable member_setWeights : VectorXs Scalar -> ProxScaler -> result ProxScaler.

(** The lambda bound to ["set_weight"]. *)
Definition py_set_weight (v : Scalar) (j : Z) (st : py_state) : result py_state :=
  let* st :=
    if j >=? size (scaler st)
    then Fault (PythonError "IndexError" "Index out of bounds.")
    else Ok st in
  let* s := member_setWeight v j (scaler st) in
  Ok (mkPy s (pyerr st)).

(** The lambda bound to ["setWeights"]. *)
Definition py_setWeights (w : VectorXs Scalar) (st : py_state) : result py_state :=
  let st :=
    if negb (size (scaler st) =? Z.of_nat (length w))
    then mkPy (scaler st) (Some ("ValueError"%string, "Input has wrong dimension."%string))
    else st in
  let* s := member_setWeights w (scaler st) in
  Ok (mkPy s (pyerr st)).

End ProxScaler.
Arguments ProxScaler : clear implicits.
Arguments py_state : clear implicits.

(** Modelled from the spec: the scaler "exposes setWeight(j, v),
    setWeights(w)"; these members store the weights they are given. *)
Definition store_weight {Scalar : Type} (v : Scalar) (j : Z)
  (s : ProxScaler Scalar) : result (ProxScaler Scalar) :=
  let* w := set_at (weights_ s) j v in
  Ok (mkScaler w).

Definition store_weights {Scalar : Type} (w : VectorXs Scalar)
  (s : ProxScaler Scalar) : result (ProxScaler Scalar) :=
  Ok (mkScaler w).

(** * Specification-level definitions and examples *)

(** ** Split indices *)

(** [idx[0] < idx[1] < ... < idx[L]]. *)
Definition strictly_increasing (idx : list Z) (L : Z) : Prop :=
  forall i a b, 0 <= i < L ->
                idx !! Z.to_nat i = Some a ->
                idx !! Z.to_nat (i + 1) = Some b -> a < b.

(** ** What [buildLeg] leaves in a knot *)

Section LegKnot.
Context {Scalar : Type} `{ScalarOps Scalar}.

(** The knot that [buildLeg(start, end, last_leg)] leaves at index [j], from
    the knot [k] it found there. *)
Definition leg_knot (start end_ : Z) (last_leg : bool) (j : Z)
  (k : Knot.LQRKnotTpl Scalar) : Knot.LQRKnotTpl Scalar :=
  if last_leg then k
  else if (start <=? j) && (j <? end_) then
    let k1 := Knot.addParameterization (Knot.nx k) k in
    if j =? end_ - 1
    then Knot.set_parameter (transpose (Knot.A k1)) (transpose (Knot.B k1))
           (Knot.f k1) k1
    else k1
  else k.

(** "Parameterized on the costate": [Gx = A^T], [Gu = B^T], [gamma = f] and
    [nth = nx]. *)
Definition costate_parameterized (k : Knot.LQRKnotTpl Scalar) : Prop :=
  Knot.Gx k = transpose (Knot.A k) /\
  Knot.Gu k = transpose (Knot.B k) /\
  Knot.gamma k = Knot.f k /\
  Knot.nth k = Knot.nx k.

(** The dimensions [nx, nu, nc], the cost, the dynamics and the constraint
    of two knots are the same. *)
Definition same_lq_data (k k' : Knot.LQRKnotTpl Scalar) : Prop :=
  Knot.nx k' = Knot.nx k /\ Knot.nu k' = Knot.nu k /\ Knot.nc k' = Knot.nc k /\
  Knot.Q k' = Knot.Q k /\ Knot.R k' = Knot.R k /\ Knot.S k' = Knot.S k /\
  Knot.q k' = Knot.q k /\ Knot.r k' = Knot.r k /\
  Knot.A k' = Knot.A k /\ Knot.B k' = Knot.B k /\ Knot.E k' = Knot.E k /\
  Knot.f k' = Knot.f k /\
  Knot.C k' = Knot.C k /\ Knot.D k' = Knot.D k /\ Knot.d k' = Knot.d k.

(** The members of the solver that [buildLeg] does not write, and the
    initial constraint of the problem. *)
Definition same_frame (s s' : ParallelRiccatiSolver Scalar) : Prop :=
  numLegs s' = numLegs s /\ splitIdx s' = splitIdx s /\
  condensedKktSystem s' = condensedKktSystem s /\
  condensedKktRhs s' = condensedKktRhs s /\
  G0 (problem s') = G0 (problem s) /\ g0 (problem s') = g0 (problem s).

(** The problem of [t] has the knots of the problem of [s], up to their
    parameterization. *)
Definition stages_lq_preserved (s t : ParallelRiccatiSolver Scalar) : Prop :=
  length (stages (problem t)) = length (stages (problem s)) /\
  forall i k, stages (problem s) !! i = Some k ->
              exists k', stages (problem t) !! i = Some k' /\ same_lq_data k k'.

End LegKnot.

(** ** The precondition of [assembleCondensedSystem] and of [forward] *)

Section Ready.
Context {Scalar : Type} `{ScalarOps Scalar}.

(** The solver is as its constructor leaves it: there is a leg,
    [checkIndices()] holds, the last split index is the number of knots,
    there is a stage factor for each knot, and the sizes are [uint]s. *)
Record solver_ready (s : ParallelRiccatiSolver Scalar) : Prop := {
  ready_legs : 1 <= numLegs s;
  ready_nowrap : 2 * numLegs s < uint_modulus;
  ready_splitIdx : length (splitIdx s) = Z.to_nat (numLegs s + 1);
  ready_checkIndices : checkIndices s = Ok true;
  ready_last :
    splitIdx s !! Z.to_nat (numLegs s)
    = Some (Z.of_nat (length (stages (problem s))));
  ready_datas : length (datas s) = length (stages (problem s));
  ready_size : Z.of_nat (length (stages (problem s))) <= uint_modulus;
  ready_nc0 : Z.of_nat (length (g0 (problem s))) < uint_modulus
}.

(** The vectors that go to the right-hand side have the sizes that
    [assembleCondensedSystem] gives to its segments: [nx] of the first knot
    for [pvec] of the first factor and, for each leg but the last, [nx] of
    its first knot for [vt] of its first factor, and [nth] of its last knot
    for [pvec] of the first factor of the next leg. *)
Definition rhs_dims_agree (s : ParallelRiccatiSolver Scalar) : Prop :=
  (forall d0 k0,
      datas s !! 0%nat = Some d0 -> stages (problem s) !! 0%nat = Some k0 ->
      Z.of_nat (length (pvec (vm d0))) = Knot.nx k0) /\
  (forall i i0 i1 d0 d1 k0 k1m,
      0 <= i < numLegs s - 1 ->
      splitIdx s !! Z.to_nat i = Some i0 ->
      splitIdx s !! Z.to_nat (i + 1) = Some i1 ->
      datas s !! Z.to_nat i0 = Some d0 ->
      datas s !! Z.to_nat i1 = Some d1 ->
      stages (problem s) !! Z.to_nat i0 = Some k0 ->
      stages (problem s) !! Z.to_nat (i1 - 1) = Some k1m ->
      Z.of_nat (length (vt (vm d0))) = Knot.nx k0 /\
      Z.of_nat (length (pvec (vm d1))) = Knot.nth k1m).

(** Reading the members of a solver that is ready ([0], or an empty object,
    outside the vector). *)
Definition split_at (s : ParallelRiccatiSolver Scalar) (i : Z) : Z :=
  default 0 (splitIdx s !! Z.to_nat i).

Definition factor_at (s : ParallelRiccatiSolver Scalar) (j : Z)
  : StageFactor Scalar :=
  default (StageFactor_make 0 0 0 0) (datas s !! Z.to_nat j).

Definition knot_at (s : ParallelRiccatiSolver Scalar) (j : Z)
  : Knot.LQRKnotTpl Scalar :=
  default (Knot.make 0 0 0) (stages (problem s) !! Z.to_nat j).

(** What the first loop of [assembleCondensedSystem] writes for leg [i]. *)
Definition leg_assembled (s : ParallelRiccatiSolver Scalar)
  (diag super : list (MatrixXs Scalar)) (dims : list Z) (i : Z) : Prop :=
  diag !! Z.to_nat (2 * (i + 1))
  = Some (Vtt (vm (factor_at s (split_at s i)))) /\
  diag !! Z.to_nat (2 * (i + 1) + 1)
  = Some (Pmat (vm (factor_at s (split_at s (i + 1))))) /\
  super !! Z.to_nat (2 * (i + 1))
  = Some (Knot.E (knot_at s (split_at s (i + 1)))) /\
  (i + 2 < numLegs s ->
   super !! Z.to_nat (2 * (i + 1) + 1)
   = Some (Vxt (vm (factor_at s (split_at s (i + 1)))))) /\
  dims !! Z.to_nat (2 * (i + 1)) = Some (Knot.nx (knot_at s (split_at s i))) /\
  dims !! Z.to_nat (2 * (i + 1) + 1)
  = Some (Knot.nth (knot_at s (split_at s (i + 1) - 1))).

(** The right-hand side before its sign is changed, as the spec words it:
    "interleaves g0, p0, vt(i), p(i+1)": the vector [g0], [pvec] of the
    first factor and, for each leg [i] but the last, [vt] of the first factor
    of leg [i] and [pvec] of the first factor of leg [i + 1]. *)
Definition interleaved_rhs (s : ParallelRiccatiSolver Scalar)
  : list (VectorXs Scalar) :=
  g0 (problem s) :: pvec (vm (factor_at s 0))
  :: flat_map
       (fun i : nat =>
          [vt (vm (factor_at s (split_at s (Z.of_nat i))));
           pvec (vm (factor_at s (split_at s (Z.of_nat i + 1))))])
       (seq 0 (Z.to_nat (numLegs s - 1))).

End Ready.

(** ** A small problem, to run the definitions on *)

(** A knot with [nx = 2], [nu = 1] and no constraint, over exact integers:
    [A = [[1, 2], [3, 4]]], [B = [[5], [6]]], [f = [7, 8]]. *)
Definition example_knot : Knot.LQRKnotTpl Z :=
  {| Knot.nx := 2; Knot.nu := 1; Knot.nc := 0; Knot.nth := 0;
     Knot.Q := Identity 2 2; Knot.R := Identity 1 1; Knot.S := Zero 1 2;
     Knot.q := [1; 1]; Knot.r := [1];
     Knot.A := mkMatrix 2 2 [[1; 2]; [3; 4]];
     Knot.B := mkMatrix 2 1 [[5]; [6]];
     Knot.E := scale (-1) (Identity 2 2);
     Knot.f := [7; 8];
     Knot.C := Zero 0 2; Knot.D := Zero 0 1; Knot.d := [];
     Knot.Gth := Zero 0 0; Knot.Gx := Zero 0 2; Knot.Gu := Zero 0 1;
     Knot.gamma := [] |}.

(** The problem of [n] such knots (horizon [n - 1]), with the initial
    condition [G0 x0 + g0 = 0], [G0 = I], [g0 = [-1, -1]]. *)
Definition example_problem (n : nat) : LQRProblemTpl Z :=
  mkProblem (replicate n example_knot) (Identity 2 2) [-1; -1].

(** A solver on eight knots and two legs, before any leg is built. *)
Definition example_solver : ParallelRiccatiSolver Z :=
  mkSolver [] 2 [0; 4; 8] (mkCondensed [] [] []) BlkVec_empty
    (example_problem 8).

(** A problem of one knot. *)
Definition one_knot_problem : LQRProblemTpl Z := example_problem 1.

(** A stage factor of a knot with [nx = 2], [nu = 1], [nth = 2], its value
    function made of multiples of [c]. *)
Definition example_factor (c : Z) : StageFactor Z :=
  {| sf_nx := 2; sf_nu := 1; sf_nc := 0; sf_nth := 2;
     Kgain := Zero 1 2; kff := [0];
     vm := {| Pmat := scale c (Identity 2 2);
              pvec := [c; c + 1];
              Vxt := mkMatrix 2 2 [[c; 2 * c]; [3 * c; 4 * c]];
              Vtt := scale (- c) (Identity 2 2);
              vt := [10 * c; 10 * c + 1] |} |}.

(** The solver that the constructor makes of four knots and two legs, with
    stage factors as the backward passes of the legs could leave them. *)
Definition ready_solver : ParallelRiccatiSolver Z :=
  match ParallelRiccatiSolver_make (example_problem 4) 2 with
  | Ok s => set_datas (map example_factor [1; 2; 3; 4]) s
  | Fault _ => example_solver
  end.

(** ** [forward], as the spec words it *)

Section ForwardSpec.
Context {Scalar : Type} `{ScalarOps Scalar}.
Variable forwardImpl :
  list (Knot.LQRKnotTpl Scalar) -> list (StageFactor Scalar) ->
  trajectories Scalar -> option (VectorXs Scalar) ->
  trajectories Scalar.

(** "theta set to the next leg's lambda (last leg has no theta)": the
    parameter of leg [i] is segment [2 (i + 1)] of the condensed solution,
    which was distributed to [lbdas[splitIdx[i + 1]]]. *)
Definition condensed_theta (s : ParallelRiccatiSolver Scalar) (i : Z)
  : option (VectorXs Scalar) :=
  if i =? numLegs s - 1 then None
  else blocks (condensedKktRhs s) !! Z.to_nat (2 * (i + 1)).


(** [forwardImpl] writes through views: it cannot change their sizes. *)
Definition writes_in_place : Prop :=
  forall stview dsview tr theta,
    length (xs (forwardImpl stview dsview tr theta)) = length (xs tr) /\
    length (us (forwardImpl stview dsview tr theta)) = length (us tr) /\
    length (vs (forwardImpl stview dsview tr theta)) = length (vs tr) /\
    length (lbdas (forwardImpl stview dsview tr theta)) = length (lbdas tr).

(** [t] is [s] with other stage factors, as many. *)
Definition same_shape (s t : ParallelRiccatiSolver Scalar) : Prop :=
  numLegs t = numLegs s /\ splitIdx t = splitIdx s /\ problem t = problem s /\
  condensedKktSystem t = condensedKktSystem s /\
  condensedKktRhs t = condensedKktRhs s /\
  length (datas t) = length (datas s).

(** The four trajectories have an entry for each knot. *)
Definition trajectories_sized (s : ParallelRiccatiSolver Scalar)
  (tr : trajectories Scalar) : Prop :=
  length (xs tr) = length (stages (problem s)) /\
  length (us tr) = length (stages (problem s)) /\
  length (vs tr) = length (stages (problem s)) /\
  length (lbdas tr) = length (stages (problem s)).

End ForwardSpec.

(** ** Stand-ins for the Riccati kernel, to run [backward] and [forward] *)

(** A backward pass that fails on every leg and writes nothing. *)
Definition failing_backwardImpl (stview : list (Knot.LQRKnotTpl Z))
  (mudyn mueq : Z) (dtview : list (StageFactor Z))
  : bool * list (StageFactor Z) :=
  (false, dtview).

(** A block-tridiagonal solve that reports failure and writes nothing. *)
Definition failing_solve (sys : condensed_system_t Z) (rhs : BlkVec Z)
  : bool * (condensed_system_t Z * BlkVec Z) :=
  (false, (sys, rhs)).

(** A forward pass that records its parameter in every control of the leg
    ([theta], or the empty vector when there is none), and writes nothing
    else. *)
Definition recording_forwardImpl (stview : list (Knot.LQRKnotTpl Z))
  (dsview : list (StageFactor Z)) (tr : trajectories Z)
  (theta : option (VectorXs Z)) : trajectories Z :=
  mkTraj (xs tr) (map (fun _ => default [] theta) (us tr)) (vs tr) (lbdas tr).

(** [ready_solver] with a condensed solution
    [(lambda_0, x_0, lambda_2, x_2) = ([1, 2], [3, 4], [5, 6], [7, 8])]. *)
Definition solved_solver : ParallelRiccatiSolver Z :=
  set_condensed (condensedKktSystem ready_solver)
    (mkBlkVec [2; 2; 2; 2] [[1; 2]; [3; 4]; [5; 6]; [7; 8]]) ready_solver.

(** Four knots of zero trajectories. *)
Definition zero_trajectories : trajectories Z :=
  mkTraj (replicate 4 [0; 0]) (replicate 4 [0]) (replicate 4 [])
    (replicate 4 [0; 0]).

(** ** The warm start, as the spec words it *)

Section WarmStartSpec.
Context {Scalar : Type} `{ScalarOps Scalar}.
Context {CostAbstract ConstraintStack : Type}.

#[local] Abbreviation Problem :=
  (@TrajOptProblemTpl Scalar CostAbstract ConstraintStack).

(** "Neutral-initialize": the neutral element of the state space of each
    stage, then the one of the next state space of the last stage. *)
Definition neutral_states (p : Problem) : list (VectorXs Scalar) :=
  map (fun sm => neutral (xspace sm)) (stages_ p)
  ++ match last (stages_ p) with
     | Some sm => [neutral (xspace_next sm)]
     | None => []
     end.

(** The neutral element of the control space of each stage. *)
Definition neutral_controls (p : Problem) : list (VectorXs Scalar) :=
  map (fun sm => neutral (uspace sm)) (stages_ p).

End WarmStartSpec.

(** A problem of two stages on the plane, with one control; the initial
    condition is a state error residual of target [[1, -1]]. *)
Definition plane : ManifoldAbstractTpl Z := mkManifold 2 2 [0; 0].
Definition line : ManifoldAbstractTpl Z := mkManifold 1 1 [0].

Definition example_stage : StageModelTpl Z := mkStage plane line plane.

Definition example_trajopt : @TrajOptProblemTpl Z nat (list nat) :=
  mkTrajOpt (IsStateError (mkStateError [1; -1] plane))
    [example_stage; example_stage] 0%nat [] [0] to_init_constraint.

(** The same problem with an initial condition that is not a state error. *)
Definition example_trajopt_other : @TrajOptProblemTpl Z nat (list nat) :=
  mkTrajOpt (OtherUnaryFunction 2) [example_stage; example_stage] 0%nat [] [0]
    nullptr.


(** A scaler of two constraint blocks, and the interpreter before a call. *)
Definition example_scaler : py_state Z := mkPy (mkScaler [1; 1]) None.
(** * Further definitions *)

(** ** The condensed system in closed form *)

Section Assembled.
Context {Scalar : Type} `{ScalarOps Scalar}.

(** The blocks that [assembleCondensedSystem] computes, listed: they are
    read off the stage factors, the knots and the initial constraint, and
    off nothing that the condensed system held before. *)
Definition assembled_diagonal (mudyn : Scalar) (s : ParallelRiccatiSolver Scalar)
  : list (MatrixXs Scalar) :=
  scale (sopp mudyn)
    (Identity (Z.to_nat (nc0 (problem s))) (Z.to_nat (nc0 (problem s))))
  :: Pmat (vm (factor_at s 0))
  :: flat_map
       (fun i : nat =>
          [Vtt (vm (factor_at s (split_at s (Z.of_nat i))));
           Pmat (vm (factor_at s (split_at s (Z.of_nat i + 1))))])
       (seq 0 (Z.to_nat (numLegs s - 1))).

Definition assembled_superdiagonal (s : ParallelRiccatiSolver Scalar)
  : list (MatrixXs Scalar) :=
  G0 (problem s)
  :: flat_map
       (fun i : nat =>
          [Vxt (vm (factor_at s (split_at s (Z.of_nat i))));
           Knot.E (knot_at s (split_at s (Z.of_nat i + 1)))])
       (seq 0 (Z.to_nat (numLegs s - 1))).

Definition assembled_dims (s : ParallelRiccatiSolver Scalar) : list Z :=
  nc0 (problem s)
  :: Knot.nx (knot_at s 0)
  :: flat_map
       (fun i : nat =>
          [Knot.nx (knot_at s (split_at s (Z.of_nat i)));
           Knot.nth (knot_at s (split_at s (Z.of_nat i + 1) - 1))])
       (seq 0 (Z.to_nat (numLegs s - 1))).

Definition assembled (mudyn : Scalar) (s : ParallelRiccatiSolver Scalar)
  : ParallelRiccatiSolver Scalar :=
  set_condensed
    (mkCondensed (map transpose (assembled_superdiagonal s))
       (assembled_diagonal mudyn s) (assembled_superdiagonal s))
    (mkBlkVec (assembled_dims s)
       (map (vscale_right (sopp sone)) (interleaved_rhs s)))
    s.

End Assembled.

(** ** The views of a leg *)

Section LegView.
Context {Scalar : Type} `{ScalarOps Scalar}.

(** The entries of [v] that the view
    [make_span_from_indices(v, splitIdx[i], splitIdx[i + 1])] of leg [i]
    shows. *)
Definition leg_view {A : Type} (s : ParallelRiccatiSolver Scalar) (v : list A)
  (i : Z) : list A :=
  take (Z.to_nat (split_at s (i + 1) - split_at s i))
    (drop (Z.to_nat (split_at s i)) v).

(** The forward pass of leg [i] on its views of the trajectories [tr], with
    the parameter that the condensed solution gives to the leg. *)
Definition leg_forward
  (forwardImpl :
     list (Knot.LQRKnotTpl Scalar) -> list (StageFactor Scalar) ->
     trajectories Scalar -> option (VectorXs Scalar) -> trajectories Scalar)
  (s : ParallelRiccatiSolver Scalar) (i : Z) (tr : trajectories Scalar)
  : trajectories Scalar :=
  forwardImpl (leg_view s (stages (problem s)) i) (leg_view s (datas s) i)
    (mkTraj (leg_view s (xs tr) i) (leg_view s (us tr) i)
       (leg_view s (vs tr) i) (leg_view s (lbdas tr) i))
    (condensed_theta s i).

End LegView.

(** ** The Python binding of the workspace
    (bindings/python/src/expose-solver-prox.cpp) *)

Section WorkspaceBinding.
Context {Scalar : Type} `{ScalarOps Scalar}.

(** Of the workspace the binding indexes the member [cstr_scalers]; the
    other members are exposed read-only, as they are. *)
Record Workspace : Type := mkWorkspace {
  cstr_scalers : list (ProxScaler Scalar)
}.

(** The lambda bound to ["getConstraintScaler"]; [j] is a [std::size_t]. *)
Definition py_getConstraintScaler (ws : Workspace) (j : Z)
  : result (ProxScaler Scalar) :=
  let* _ :=
    if j >=? Z.of_nat (length (cstr_scalers ws))
    then Fault (PythonError "IndexError" "Index out of bounds.")
    else Ok tt in
  at_ (cstr_scalers ws) j.

End WorkspaceBinding.
Arguments Workspace : clear implicits.

(** ** Linear composition of a function
    (modelling/linear-function-composition.hpp) *)

(** The sum of two scalars. *)
Class ScalarAdd (Scalar : Type) := sadd : Scalar -> Scalar -> Scalar.

#[export] Instance double_add : ScalarAdd float := PrimFloat.add.
#[export] Instance Z_add : ScalarAdd Z := Z.add.

Module LinearComposition.
Section composition.
Context {Scalar : Type} `{ScalarOps Scalar} `{ScalarAdd Scalar}.

#[local] Abbreviation Mat := (MatrixXs Scalar).
#[local] Abbreviation Vec := (VectorXs Scalar).

(** Eigen's products [A * v] and [A * J] are outside the sources, and so is
    the order in which they sum: the composition is generic in them. *)
Variable mat_vec : Mat -> Vec -> Vec.
Variable mat_mat : Mat -> Mat -> Mat.

(** [StageFunctionDataTpl(ndx1, nu, ndx2, nr)], declared outside the sources:
    the value and the Jacobian buffer that the constructor allocates. *)
Variable StageFunctionData_make : Z -> Z -> Z -> Z -> Vec * Mat.

(** [BaseData] is [StageFunctionDataTpl]: of it the composition uses the
    members [value_] and [jac_buffer_]; [Data] derives from it and adds
    [sub_data], the data of the function that is composed. *)
Inductive BaseData : Type :=
| StageFunctionData (value : Vec) (jac_buffer : Mat)
| Data (value : Vec) (jac_buffer : Mat) (sub_data : BaseData).

Definition value_ (d : BaseData) : Vec :=
  match d with
  | StageFunctionData v _ => v
  | Data v _ _ => v
  end.

Definition jac_buffer_ (d : BaseData) : Mat :=
  match d with
  | StageFunctionData _ j => j
  | Data _ j _ => j
  end.

(** [FunType], here [UnaryFunctionTpl]: the dimensions, and the virtual
    members [evaluate(x, data)] and [computeJacobians(x, data)], which write
    into [data], and [createData()]. *)
Record FunType : Type := mkFunType {
  ndx1 : Z;
  nu : Z;
  ndx2 : Z;
  nr : Z;
  evaluate : Vec -> BaseData -> result BaseData;
  computeJacobians : Vec -> BaseData -> result BaseData;
  createData : BaseData
}.

(** [linear_func_composition_impl<FunType>]: the dimensions of its base
    class, and the members [func], [A] and [b]. *)
Record linear_func_composition_impl : Type := mkComposition {
  base_ndx1 : Z;
  base_nu : Z;
  base_ndx2 : Z;
  base_nr : Z;
  func : FunType;
  A : Mat;
  b : Vec
}.

(** The conversion [(int)] of an [Eigen::Index]. *)
Definition to_int (z : Z) : Z := (z + 2 ^ 31) mod 2 ^ 32 - 2 ^ 31.

(** [linear_func_composition_impl(func, A, b)]. *)
Definition linear_compose (f : FunType) (a : Mat) (v : Vec)
  : result linear_func_composition_impl :=
  let c :=
    mkComposition (ndx1 f) (nu f) (ndx2 f) (to_int (Z.of_nat (rows a))) f a v in
  let* _ :=
    if negb (Z.of_nat (rows a) =? Z.of_nat (length v))
    then ALIGATOR_RUNTIME_ERROR "Incompatible dimensions: A.rows() != b.rows()"
    else Ok tt in
  let* _ :=
    if negb (Z.of_nat (cols a) =? nr f)
    then ALIGATOR_RUNTIME_ERROR "Incompatible dimensions: A.cols() != func.nr"
    else Ok tt in
  Ok c.

(** [linear_func_composition_impl(func, A)], which delegates with
    [b = VectorXs::Zero(A.rows())]. *)
Definition linear_compose_A (f : FunType) (a : Mat)
  : result linear_func_composition_impl :=
  linear_compose f a (vZero (rows a)).

(** [createData()]: a [Data] made of the composition itself. *)
Definition composition_createData (c : linear_func_composition_impl) : BaseData :=
  let base :=
    StageFunctionData_make (base_ndx1 c) (base_nu c) (base_ndx2 c) (base_nr c) in
  Data (fst base) (snd base) (createData (func c)).

(** [LinearUnaryFunctionCompositionTpl::evaluate(x, data)].  The
    [static_cast<Data &>] of a [data] that is not a [Data] is a fault; Eigen
    asserts that the sizes of a product and of a sum agree. *)
Definition composition_evaluate (c : linear_func_composition_impl) (x : Vec)
  (data : BaseData) : result BaseData :=
  match data with
  | Data _ jac sub =>
      let* sub := evaluate (func c) x sub in
      let value := b c in
      let* _ :=
        assert_ (Z.of_nat (cols (A c)) =? Z.of_nat (length (value_ sub))) in
      let prod := mat_vec (A c) (value_ sub) in
      let* _ := assert_ (Z.of_nat (length value) =? Z.of_nat (length prod)) in
      Ok (Data (zip_with sadd value prod) jac sub)
  | StageFunctionData _ _ => Fault InvalidPointer
  end.

(** [LinearUnaryFunctionCompositionTpl::computeJacobians(x, data)]. *)
Definition composition_computeJacobians (c : linear_func_composition_impl)
  (x : Vec) (data : BaseData) : result BaseData :=
  match data with
  | Data value _ sub =>
      let* sub := computeJacobians (func c) x sub in
      let* _ :=
        assert_ (Z.of_nat (cols (A c)) =? Z.of_nat (rows (jac_buffer_ sub))) in
      Ok (Data value (mat_mat (A c) (jac_buffer_ sub)) sub)
  | StageFunctionData _ _ => Fault InvalidPointer
  end.

(** A composition is a [FunType]: it can be composed again. *)
Definition as_FunType (c : linear_func_composition_impl) : FunType :=
  mkFunType (base_ndx1 c) (base_nu c) (base_ndx2 c) (base_nr c)
    (composition_evaluate c) (composition_computeJacobians c)
    (composition_createData c).

End composition.
End LinearComposition.

(** ** More examples *)

(** A backward pass that succeeds on the legs of two knots, and writes the
    number of knots of the leg and [mudyn] in the feedforward of every stage
    factor of the leg. *)
Definition counting_backwardImpl (stview : list (Knot.LQRKnotTpl Z))
  (mudyn mueq : Z) (dtview : list (StageFactor Z))
  : bool * list (StageFactor Z) :=
  (Z.of_nat (length stview) =? 2,
   map (fun d =>
          mkFactor (sf_nx d) (sf_nu d) (sf_nc d) (sf_nth d) (Kgain d)
            [Z.of_nat (length stview); mudyn] (vm d))
     dtview).

(** A workspace of two constraint scalers. *)
Definition example_workspace : Workspace Z :=
  mkWorkspace [mkScaler [1; 1]; mkScaler [2; 2; 2]].

(** The product of a matrix and a vector over exact integers. *)
Definition mat_vec_Z (M : MatrixXs Z) (v : VectorXs Z) : VectorXs Z :=
  map (fun i =>
         fold_right Z.add 0
           (map (fun k => coeff M i k * default 0 (v !! k)) (seq 0 (cols M))))
    (seq 0 (rows M)).

(** The product of two matrices over exact integers. *)
Definition mat_mat_Z (M J : MatrixXs Z) : MatrixXs Z :=
  tabulate (rows M) (cols J)
    (fun i j =>
       fold_right Z.add 0
         (map (fun k => coeff M i k * coeff J k j) (seq 0 (cols M)))).

(** The first two coordinates of the state, as a function of the state: the
    value is [(x0, x1)] and the Jacobian the identity. *)
Definition plane_projection : LinearComposition.FunType :=
  LinearComposition.mkFunType 2 0 2 2
    (fun x d =>
       Ok (LinearComposition.StageFunctionData
             [default 0 (x !! 0%nat); default 0 (x !! 1%nat)]
             (LinearComposition.jac_buffer_ d)))
    (fun x d =>
       Ok (LinearComposition.StageFunctionData (LinearComposition.value_ d)
             (Identity 2 2)))
    (LinearComposition.StageFunctionData [0; 0] (Zero 2 2)).

(** Buffers of zeros, for the data of a composition. *)
Definition zero_data (ndx1 nu ndx2 nr : Z) : VectorXs Z * MatrixXs Z :=
  (vZero (Z.to_nat nr), Zero (Z.to_nat nr) (Z.to_nat (ndx1 + nu + ndx2))).

(** A matrix of three rows and two columns, and the composition
    [x |-> example_A (x0, x1) + (10, 20, 30)]. *)
Definition example_A : MatrixXs Z := mkMatrix 3 2 [[1; 2]; [3; 4]; [5; 6]].

Definition example_composition : LinearComposition.linear_func_composition_impl :=
  LinearComposition.mkComposition 2 0 2 3 plane_projection example_A [10; 20; 30].

(** * Properties *)

(** ** Outcomes, vectors and loops *)

Lemma uint_small z : 0 <= z < uint_modulus -> uint z = z.
Proof. intros Hz. unfold uint. apply Z.mod_small. exact Hz. Qed.

Lemma in_range_true {A} (v : list A) i :
  in_range v i = true <-> 0 <= i < Z.of_nat (length v).
Proof. unfold in_range. rewrite andb_true_iff, Z.leb_le, Z.ltb_lt. tauto. Qed.

Lemma at_Ok {A} (v : list A) i x :
  at_ v i = Ok x <-> 0 <= i /\ v !! Z.to_nat i = Some x.
Proof.
  unfold at_. destruct (in_range v i) eqn:Hr.
  - apply in_range_true in Hr. destruct (v !! Z.to_nat i) eqn:Hl.
    + split; [intros [= ->]; split; [lia | reflexivity] | intros [_ [= ->]]; reflexivity].
    + split; [discriminate | intros [_ ?]; discriminate].
  - split; [discriminate |]. intros [Hi Hl].
    apply lookup_lt_Some in Hl.
    assert (in_range v i = true) by (apply in_range_true; lia). congruence.
Qed.

Lemma set_at_Ok {A} (v : list A) i x :
  0 <= i < Z.of_nat (length v) -> set_at v i x = Ok (<[Z.to_nat i := x]> v).
Proof. intros Hi. unfold set_at. apply in_range_true in Hi. rewrite Hi. reflexivity. Qed.

Lemma for_range_inv {St} (body : Z -> St -> result St) (Inv : Z -> St -> Prop) :
  forall n i s,
    Inv i s ->
    (forall j t, i <= j < i + Z.of_nat n -> Inv j t ->
                 exists t', body j t = Ok t' /\ Inv (j + 1) t') ->
    exists s', for_range body i n s = Ok s' /\ Inv (i + Z.of_nat n) s'.
Proof.
  induction n as [|n IH]; intros i s Hs Hstep.
  - exists s. rewrite Z.add_0_r. split; [reflexivity | exact Hs].
  - destruct (Hstep i s) as (t & Ht & Hinv); [lia | exact Hs |].
    destruct (IH (i + 1) t Hinv) as (s' & Hs' & Hinv').
    { intros j u Hj Hu. apply Hstep; [lia | exact Hu]. }
    exists s'. simpl. rewrite Ht. simpl. split; [exact Hs' |].
    replace (i + Z.of_nat (S n)) with (i + 1 + Z.of_nat n) by lia. exact Hinv'.
Qed.

Lemma for_loop_inv {St} (body : Z -> St -> result St) (Inv : Z -> St -> Prop) lo hi s :
  lo <= hi -> Inv lo s ->
  (forall j t, lo <= j < hi -> Inv j t -> exists t', body j t = Ok t' /\ Inv (j + 1) t') ->
  exists s', for_loop lo hi body s = Ok s' /\ Inv hi s'.
Proof.
  intros Hle Hs Hstep. unfold for_loop.
  destruct (for_range_inv body Inv (Z.to_nat (hi - lo)) lo s Hs) as (s' & Hs' & Hinv).
  { intros j t Hj. apply Hstep. lia. }
  exists s'. split; [exact Hs' |]. replace hi with (lo + Z.of_nat (Z.to_nat (hi - lo))) at 1 by lia.
  exact Hinv.
Qed.

Lemma bind_Ok {A B} (m : result A) (k : A -> result B) (b : B) :
  bind m k = Ok b -> exists a, m = Ok a /\ k a = Ok b.
Proof. destruct m as [a | e]; [intros Hk; exists a; auto | discriminate]. Qed.

Lemma set_at_inv {A} (v v' : list A) i x :
  set_at v i x = Ok v' ->
  0 <= i < Z.of_nat (length v) /\ v' = <[Z.to_nat i := x]> v.
Proof.
  unfold set_at. destruct (in_range v i) eqn:Hr; [| discriminate].
  intros [= <-]. apply in_range_true in Hr. auto.
Qed.

Lemma for_range_preserves {St} (body : Z -> St -> result St) (P : St -> Prop) :
  (forall j t t', body j t = Ok t' -> P t -> P t') ->
  forall n i s s', for_range body i n s = Ok s' -> P s -> P s'.
Proof.
  intros Hbody. induction n as [|n IH]; intros i s s' Hrun Hs.
  - injection Hrun as <-. exact Hs.
  - cbn in Hrun. apply bind_Ok in Hrun as (t & Ht & Hrun).
    apply (IH _ _ _ Hrun). apply (Hbody _ _ _ Ht Hs).
Qed.

(** Closed arithmetic side conditions, by evaluation. *)
Ltac by_eval :=
  vm_compute;
  repeat match goal with |- _ /\ _ => split end;
  first [reflexivity | discriminate | intro; discriminate].

Lemma at_default {A} (v : list A) i (d : A) :
  0 <= i < Z.of_nat (length v) -> at_ v i = Ok (default d (v !! Z.to_nat i)).
Proof.
  intros Hi. destruct (lookup_lt_is_Some_2 v (Z.to_nat i)) as [x Hx]; [lia |].
  rewrite Hx. apply at_Ok. split; [lia | exact Hx].
Qed.

Lemma default_lookup {A} (v : list A) (n : nat) (d : A) :
  (n < length v)%nat -> v !! n = Some (default d (v !! n)).
Proof.
  intros Hn. destruct (lookup_lt_is_Some_2 v n Hn) as [x Hx]. rewrite Hx. reflexivity.
Qed.

Lemma length_resize_vec {A} (n : Z) (d : A) (v : list A) :
  length (resize_vec n d v) = Z.to_nat n.
Proof.
  unfold resize_vec. rewrite length_app, length_take, length_replicate. lia.
Qed.

Lemma lookup_flat_map_pair {A B} (f g : A -> B) (l : list A) :
  forall k : nat,
    flat_map (fun x => [f x; g x]) l !! (2 * k)%nat = f <$> l !! k /\
    flat_map (fun x => [f x; g x]) l !! (2 * k + 1)%nat = g <$> l !! k.
Proof.
  induction l as [|x l IH]; intros k.
  - split; reflexivity.
  - destruct k as [|k].
    + split; reflexivity.
    + replace (2 * S k)%nat with (S (S (2 * k))) by lia.
      replace (S (S (2 * k)) + 1)%nat with (S (S (2 * k + 1))) by lia.
      cbn [flat_map app]. rewrite !lookup_cons. exact (IH k).
Qed.

Lemma length_flat_map_pair {A B} (f g : A -> B) (l : list A) :
  length (flat_map (fun x => [f x; g x]) l) = (2 * length l)%nat.
Proof. induction l as [|x l IH]; [reflexivity |]. cbn. rewrite IH. lia. Qed.

Lemma make_span_Ok {A} (v : list A) i0 i1 :
  0 <= i0 <= i1 -> i1 <= Z.of_nat (length v) ->
  make_span_from_indices v i0 i1
  = Ok (take (Z.to_nat (i1 - i0)) (drop (Z.to_nat i0) v)).
Proof.
  intros Hi Hl. unfold make_span_from_indices.
  replace (0 <=? i0) with true by (symmetry; apply Z.leb_le; lia).
  replace (i0 <=? i1) with true by (symmetry; apply Z.leb_le; lia).
  replace (i1 <=? Z.of_nat (length v)) with true by (symmetry; apply Z.leb_le; lia).
  reflexivity.
Qed.

Lemma length_span {A} (v : list A) i0 i1 :
  0 <= i0 <= i1 -> i1 <= Z.of_nat (length v) ->
  length (take (Z.to_nat (i1 - i0)) (drop (Z.to_nat i0) v)) = Z.to_nat (i1 - i0).
Proof. intros Hi Hl. rewrite length_take, length_drop. lia. Qed.

Lemma length_write_span {A} (v view : list A) i0 :
  (Z.to_nat i0 + length view <= length v)%nat ->
  length (write_span v i0 view) = length v.
Proof.
  intros Hl. unfold write_span.
  rewrite !length_app, length_take, length_drop. lia.
Qed.

Lemma lookup_write_span_ge {A} (v view : list A) i0 (j : nat) :
  (Z.to_nat i0 + length view <= length v)%nat ->
  (Z.to_nat i0 + length view <= j)%nat ->
  write_span v i0 view !! j = v !! j.
Proof.
  intros Hl Hj. unfold write_span.
  rewrite lookup_app_r by (rewrite length_take; lia).
  rewrite lookup_app_r by (rewrite length_take; lia).
  rewrite lookup_drop, length_take. f_equal. lia.
Qed.


(** Every access outside a vector, and every view outside it, is the fault
    [OutOfRange]. *)
Lemma at_out_of_range {A} (v : list A) i :
  ~ (0 <= i < Z.of_nat (length v)) -> at_ v i = Fault OutOfRange.
Proof.
  intros Hi. unfold at_. destruct (in_range v i) eqn:Hr; [| reflexivity].
  apply in_range_true in Hr. contradiction.
Qed.

Lemma at_fault {A} (v : list A) i e : at_ v i = Fault e -> e = OutOfRange.
Proof.
  unfold at_. destruct (in_range v i); [| congruence].
  destruct (v !! Z.to_nat i); congruence.
Qed.

Lemma set_at_out_of_range {A} (v : list A) i x :
  ~ (0 <= i < Z.of_nat (length v)) -> set_at v i x = Fault OutOfRange.
Proof.
  intros Hi. unfold set_at. destruct (in_range v i) eqn:Hr; [| reflexivity].
  apply in_range_true in Hr. contradiction.
Qed.

Lemma make_span_fault {A} (v : list A) i0 i1 e :
  make_span_from_indices v i0 i1 = Fault e -> e = OutOfRange.
Proof.
  unfold make_span_from_indices.
  destruct ((0 <=? i0) && (i0 <=? i1) && (i1 <=? Z.of_nat (length v))); congruence.
Qed.

(** ** The split indices *)

Lemma make_splitIdx_Ok N L :
  0 <= L -> L + 1 < uint_modulus ->
  exists idx,
    make_splitIdx N L = Ok idx /\
    length idx = Z.to_nat (L + 1) /\
    (forall i, 0 <= i < L ->
               idx !! Z.to_nat i = Some (uint (i * uint (N + 1)) / L)) /\
    idx !! Z.to_nat L = Some (uint (N + 1)).
Proof.
  intros HL Hw. unfold make_splitIdx.
  rewrite (uint_small (L + 1)) by lia.
  destruct (for_loop_inv
              (fun i idx => set_at idx i (uint (i * uint (N + 1)) / L))
              (fun j idx =>
                 length idx = Z.to_nat (L + 1) /\
                 forall i, 0 <= i < j ->
                           idx !! Z.to_nat i = Some (uint (i * uint (N + 1)) / L))
              0 L (replicate (Z.to_nat (L + 1)) 0))
    as (idx & Hidx & Hlen & Hval).
  - lia.
  - split; [apply length_replicate | intros; lia].
  - intros j t Hj [Hlen Hval].
    exists (<[Z.to_nat j := uint (j * uint (N + 1)) / L]> t). split.
    + apply set_at_Ok. lia.
    + split; [rewrite length_insert; exact Hlen |].
      intros i Hi. destruct (Z.eq_dec i j) as [-> | Hne].
      * apply list_lookup_insert_eq. lia.
      * rewrite list_lookup_insert_ne by lia. apply Hval. lia.
  - rewrite Hidx. cbn [bind]. rewrite set_at_Ok by lia.
    eexists. split; [reflexivity |]. split; [| split].
    + rewrite length_insert. exact Hlen.
    + intros i Hi. rewrite list_lookup_insert_ne by lia. apply Hval. exact Hi.
    + apply list_lookup_insert_eq. lia.
Qed.

(** With at least as many knots as legs, every leg has a knot. *)
Lemma split_quotient_step M L i :
  0 < L <= M -> 0 <= i -> i * M / L < (i + 1) * M / L.
Proof.
  intros HL Hi.
  apply Z.lt_le_trans with ((i * M + 1 * L) / L).
  - rewrite Z.div_add by lia. lia.
  - apply Z.div_le_mono; [lia | nia].
Qed.


(** ** [checkIndices] and [buildLeg] *)

Lemma checkIndices_from_Ok (idx : list Z) :
  forall n i,
    0 <= i -> (Z.to_nat i + n < length idx)%nat ->
    exists b,
      checkIndices_from idx i n = Ok b /\
      (b = true <->
       forall j a c, i <= j < i + Z.of_nat n ->
                     idx !! Z.to_nat j = Some a ->
                     idx !! Z.to_nat (j + 1) = Some c -> a < c).
Proof.
  induction n as [|n IH]; intros i Hi Hlen.
  - exists true. split; [reflexivity |]. split; [intros _ j a c Hj; lia | reflexivity].
  - destruct (lookup_lt_is_Some_2 idx (Z.to_nat i)) as [a Ha]; [lia |].
    destruct (lookup_lt_is_Some_2 idx (Z.to_nat (i + 1))) as [c Hc]; [lia |].
    cbn [checkIndices_from].
    rewrite (proj2 (at_Ok idx i a)) by (split; [lia | exact Ha]).
    rewrite (proj2 (at_Ok idx (i + 1) c)) by (split; [lia | exact Hc]).
    cbn [bind]. destruct (a >=? c) eqn:Hac.
    + exists false. split; [reflexivity |]. split; [discriminate |].
      intros Hall. apply Z.geb_le in Hac.
      assert (a < c) by (apply (Hall i); [lia | exact Ha | exact Hc]). lia.
    + destruct (IH (i + 1)) as (b & Hb & Hspec); [lia | lia |].
      exists b. split; [exact Hb |]. rewrite Hspec. split.
      * intros Hall j a' c' Hj Ha' Hc'.
        destruct (Z.eq_dec j i) as [-> | Hne].
        -- rewrite Ha in Ha'. rewrite Hc in Hc'.
           injection Ha' as <-. injection Hc' as <-.
           rewrite Z.geb_leb in Hac. apply Z.leb_gt in Hac. exact Hac.
        -- apply (Hall j); [lia | exact Ha' | exact Hc'].
      * intros Hall j a' c' Hj. apply Hall. lia.
Qed.

Lemma checkIndices_from_false (idx : list Z) :
  forall n i,
    0 <= i -> (Z.to_nat i + n < length idx)%nat ->
    (checkIndices_from idx i n = Ok false <->
     exists j a c, i <= j < i + Z.of_nat n /\
                   idx !! Z.to_nat j = Some a /\
                   idx !! Z.to_nat (j + 1) = Some c /\ a >= c).
Proof.
  induction n as [|n IH]; intros i Hi Hlen.
  - cbn. split; [discriminate | intros (j & _ & _ & Hj & _); lia].
  - destruct (lookup_lt_is_Some_2 idx (Z.to_nat i)) as [a Ha]; [lia |].
    destruct (lookup_lt_is_Some_2 idx (Z.to_nat (i + 1))) as [c Hc]; [lia |].
    cbn [checkIndices_from].
    rewrite (proj2 (at_Ok idx i a)) by (split; [lia | exact Ha]).
    rewrite (proj2 (at_Ok idx (i + 1) c)) by (split; [lia | exact Hc]).
    cbn [bind]. destruct (a >=? c) eqn:Hac.
    + split; [intros _ | reflexivity].
      exists i, a, c. apply Z.geb_le in Hac. repeat split; [lia | lia | assumption | assumption | lia].
    + rewrite Z.geb_leb in Hac. apply Z.leb_gt in Hac.
      rewrite IH by lia. split.
      * intros (j & a' & c' & Hj & Ha' & Hc' & Hge).
        exists j, a', c'. repeat split; [lia | lia | assumption | assumption | assumption].
      * intros (j & a' & c' & Hj & Ha' & Hc' & Hge).
        destruct (Z.eq_dec j i) as [-> | Hne].
        -- rewrite Ha in Ha'. rewrite Hc in Hc'.
           injection Ha' as <-. injection Hc' as <-. lia.
        -- exists j, a', c'. repeat split; [lia | lia | assumption | assumption | assumption].
Qed.

Lemma strictly_increasing_le (idx : list Z) (L : Z) :
  strictly_increasing idx L ->
  (Z.to_nat L < length idx)%nat ->
  forall n i a b,
    0 <= i -> i + Z.of_nat n <= L ->
    idx !! Z.to_nat i = Some a ->
    idx !! Z.to_nat (i + Z.of_nat n) = Some b ->
    a + Z.of_nat n <= b.
Proof.
  intros Hinc Hlen. induction n as [|n IH]; intros i a b Hi Hn Ha Hb.
  - rewrite Z.add_0_r in Hb. rewrite Ha in Hb. injection Hb as <-. lia.
  - destruct (lookup_lt_is_Some_2 idx (Z.to_nat (i + 1))) as [c Hc]; [lia |].
    assert (a < c) by (apply (Hinc i); [lia | exact Ha | exact Hc]).
    assert (c + Z.of_nat n <= b).
    { apply (IH (i + 1)); [lia | lia | exact Hc |].
      replace (i + 1 + Z.of_nat n) with (i + Z.of_nat (S n)) by lia. exact Hb. }
    lia.
Qed.

Section BuildLeg.
Context {Scalar : Type} `{ScalarOps Scalar}.

#[local] Abbreviation Solver := (ParallelRiccatiSolver Scalar).

Lemma same_frame_refl (s : Solver) : same_frame s s.
Proof. repeat split. Qed.

Lemma same_frame_trans (s1 s2 s3 : Solver) :
  same_frame s1 s2 -> same_frame s2 s3 -> same_frame s1 s3.
Proof.
  unfold same_frame. intros (a1 & a2 & a3 & a4 & a5 & a6) (b1 & b2 & b3 & b4 & b5 & b6).
  repeat split; congruence.
Qed.

Lemma buildLeg_loop_Ok (last_leg : bool) (s : Solver) start end_ :
  0 <= start <= end_ -> end_ <= Z.of_nat (length (stages (problem s))) ->
  exists s',
    for_loop start end_ (buildLeg_step last_leg) s = Ok s' /\
    same_frame s s' /\
    length (stages (problem s')) = length (stages (problem s)) /\
    length (datas s') = (length (datas s) + Z.to_nat (end_ - start))%nat /\
    forall j k, stages (problem s) !! j = Some k ->
                stages (problem s') !! j
                = Some (if negb last_leg && (start <=? Z.of_nat j)
                           && (Z.of_nat j <? end_)
                        then Knot.addParameterization (Knot.nx k) k else k).
Proof.
  intros Hse Hend.
  destruct (for_loop_inv (buildLeg_step last_leg)
              (fun t s' =>
                 same_frame s s' /\
                 length (stages (problem s')) = length (stages (problem s)) /\
                 length (datas s') = (length (datas s) + Z.to_nat (t - start))%nat /\
                 forall j k, stages (problem s) !! j = Some k ->
                   stages (problem s') !! j
                   = Some (if negb last_leg && (start <=? Z.of_nat j)
                              && (Z.of_nat j <? t)
                           then Knot.addParameterization (Knot.nx k) k else k))
              start end_ s) as (s' & Hs' & Hinv).
  - lia.
  - split; [apply same_frame_refl |]. split; [reflexivity |]. split.
    + rewrite Z.sub_diag. simpl. lia.
    + intros j k Hk. rewrite Hk. f_equal.
      destruct (negb last_leg); [| reflexivity]. cbn [andb].
      destruct (start <=? Z.of_nat j) eqn:E1; [| reflexivity].
      destruct (Z.of_nat j <? start) eqn:E2; [| reflexivity].
      apply Z.leb_le in E1. apply Z.ltb_lt in E2. lia.
  - intros t u Ht (Hfr & Hlen & Hdat & Hst).
    destruct (lookup_lt_is_Some_2 (stages (problem s)) (Z.to_nat t)) as [k Hk]; [lia |].
    pose proof (Hst _ _ Hk) as Hu.
    replace (Z.of_nat (Z.to_nat t) <? t) with false in Hu
      by (symmetry; apply Z.ltb_ge; lia).
    rewrite andb_false_r in Hu.
    unfold buildLeg_step.
    rewrite (proj2 (at_Ok _ t k)) by (split; [lia | exact Hu]). cbn [bind].
    set (k' := if last_leg then k else Knot.addParameterization (Knot.nx k) k).
    match goal with
    | |- context [bind (if negb last_leg then ?a else ?b) _] =>
        assert (Hk' : (if negb last_leg then a else b) = Ok k')
    end.
    { subst k'. destruct last_leg; [reflexivity |]. cbn. rewrite Z.eqb_refl. reflexivity. }
    rewrite Hk'. cbn [bind].
    rewrite set_at_Ok by lia. cbn [bind].
    eexists. split; [reflexivity |].
    split; [apply (same_frame_trans _ _ _ Hfr); repeat split |].
    cbn. split; [rewrite length_insert; exact Hlen |]. split.
    + rewrite length_app. cbn. rewrite Hdat. lia.
    + intros j k0 Hk0. destruct (Nat.eq_dec j (Z.to_nat t)) as [-> | Hne].
      * rewrite list_lookup_insert_eq by lia. rewrite Hk in Hk0. injection Hk0 as <-.
        f_equal. subst k'. destruct last_leg; [reflexivity |]. cbn [negb andb].
        replace (start <=? Z.of_nat (Z.to_nat t)) with true
          by (symmetry; apply Z.leb_le; lia).
        replace (Z.of_nat (Z.to_nat t) <? t + 1) with true
          by (symmetry; apply Z.ltb_lt; lia).
        reflexivity.
      * rewrite list_lookup_insert_ne by lia. rewrite (Hst _ _ Hk0). f_equal.
        replace (Z.of_nat j <? t + 1) with (Z.of_nat j <? t); [reflexivity |].
        destruct (Z.of_nat j <? t) eqn:E1; symmetry.
        -- apply Z.ltb_lt. apply Z.ltb_lt in E1. lia.
        -- apply Z.ltb_ge. apply Z.ltb_ge in E1. lia.
  - exists s'. split; [exact Hs' | exact Hinv].
Qed.

Lemma buildLeg_Ok (last_leg : bool) (s : Solver) start end_ :
  0 <= start <= end_ -> end_ <= Z.of_nat (length (stages (problem s))) ->
  (last_leg = false -> start < end_) -> end_ <= uint_modulus ->
  exists s',
    buildLeg start end_ last_leg s = Ok s' /\
    same_frame s s' /\
    length (stages (problem s')) = length (stages (problem s)) /\
    length (datas s') = (length (datas s) + Z.to_nat (end_ - start))%nat /\
    forall j k, stages (problem s) !! j = Some k ->
                stages (problem s') !! j
                = Some (leg_knot start end_ last_leg (Z.of_nat j) k).
Proof.
  intros Hse Hend Hne Hw.
  destruct (buildLeg_loop_Ok last_leg s start end_ Hse Hend)
    as (s1 & Hs1 & Hfr & Hlen & Hdat & Hst).
  unfold buildLeg. rewrite Hs1. cbn [bind]. destruct last_leg; cbn [negb].
  - exists s1. split; [reflexivity |]. repeat (split; [assumption |]).
    intros j k Hk. rewrite (Hst _ _ Hk). reflexivity.
  - specialize (Hne eq_refl).
    rewrite (uint_small (end_ - 1)) by lia.
    destruct (lookup_lt_is_Some_2 (stages (problem s)) (Z.to_nat (end_ - 1)))
      as [k Hk]; [lia |].
    pose proof (Hst _ _ Hk) as Hk1. cbn [negb andb] in Hk1.
    replace (start <=? Z.of_nat (Z.to_nat (end_ - 1))) with true in Hk1
      by (symmetry; apply Z.leb_le; lia).
    replace (Z.of_nat (Z.to_nat (end_ - 1)) <? end_) with true in Hk1
      by (symmetry; apply Z.ltb_lt; lia).
    cbn [andb] in Hk1.
    rewrite (proj2 (at_Ok _ (end_ - 1) _)) by (split; [lia | exact Hk1]).
    cbn [bind]. rewrite set_at_Ok by lia. cbn [bind].
    eexists. split; [reflexivity |].
    split; [apply (same_frame_trans _ _ _ Hfr); repeat split |].
    cbn. split; [rewrite length_insert; exact Hlen |]. split; [exact Hdat |].
    intros j k0 Hk0. unfold leg_knot.
    destruct (Nat.eq_dec j (Z.to_nat (end_ - 1))) as [-> | Hj].
    + rewrite list_lookup_insert_eq by lia.
      rewrite Hk in Hk0. injection Hk0 as <-.
      replace (start <=? Z.of_nat (Z.to_nat (end_ - 1))) with true
        by (symmetry; apply Z.leb_le; lia).
      replace (Z.of_nat (Z.to_nat (end_ - 1)) <? end_) with true
        by (symmetry; apply Z.ltb_lt; lia).
      replace (Z.of_nat (Z.to_nat (end_ - 1)) =? end_ - 1) with true
        by (symmetry; apply Z.eqb_eq; lia).
      reflexivity.
    + rewrite list_lookup_insert_ne by lia. rewrite (Hst _ _ Hk0).
      cbn [negb andb].
      replace (Z.of_nat j =? end_ - 1) with false
        by (symmetry; apply Z.eqb_neq; lia).
      destruct ((start <=? Z.of_nat j) && (Z.of_nat j <? end_)); reflexivity.
Qed.

(** A knot outside the leg is left as it was. *)
Lemma leg_knot_outside start end_ last_leg j (k : Knot.LQRKnotTpl Scalar) :
  j < start \/ end_ <= j -> leg_knot start end_ last_leg j k = k.
Proof.
  intros Hj. unfold leg_knot. destruct last_leg; [reflexivity |].
  destruct (start <=? j) eqn:E1; [| reflexivity].
  destruct (j <? end_) eqn:E2; [| reflexivity].
  apply Z.leb_le in E1. apply Z.ltb_lt in E2. lia.
Qed.

(** The last knot of a leg that is not the final one. *)
Lemma leg_knot_tail start end_ (k : Knot.LQRKnotTpl Scalar) :
  start < end_ -> costate_parameterized (leg_knot start end_ false (end_ - 1) k).
Proof.
  intros Hlt. unfold leg_knot.
  replace (start <=? end_ - 1) with true by (symmetry; apply Z.leb_le; lia).
  replace (end_ - 1 <? end_) with true by (symmetry; apply Z.ltb_lt; lia).
  rewrite Z.eqb_refl. repeat split.
Qed.

(** [buildLeg] writes the parameterization only. *)
Lemma leg_knot_frame start end_ last_leg j (k : Knot.LQRKnotTpl Scalar) :
  same_lq_data k (leg_knot start end_ last_leg j k).
Proof.
  unfold leg_knot.
  destruct last_leg; [repeat split |].
  destruct ((start <=? j) && (j <? end_)); [| repeat split].
  destruct (j =? end_ - 1); repeat split.
Qed.

Lemma same_lq_data_trans (k1 k2 k3 : Knot.LQRKnotTpl Scalar) :
  same_lq_data k1 k2 -> same_lq_data k2 k3 -> same_lq_data k1 k3.
Proof.
  unfold same_lq_data. intros Ha Hb.
  repeat match goal with H : _ /\ _ |- _ => destruct H end.
  repeat split; congruence.
Qed.

Lemma same_lq_data_refl (k : Knot.LQRKnotTpl Scalar) : same_lq_data k k.
Proof. repeat split. Qed.

(** The loop of the constructor over the legs, on well-formed split
    indices. *)
Lemma buildLegs_Ok (s : Solver) (L M : Z) :
  1 <= L -> L + 1 < uint_modulus -> M <= uint_modulus ->
  length (splitIdx s) = Z.to_nat (L + 1) ->
  splitIdx s !! 0%nat = Some 0 ->
  splitIdx s !! Z.to_nat L = Some M ->
  strictly_increasing (splitIdx s) L ->
  M = Z.of_nat (length (stages (problem s))) ->
  datas s = [] ->
  exists s',
    buildLegs L s = Ok s' /\
    same_frame s s' /\
    length (stages (problem s')) = length (stages (problem s)) /\
    Z.of_nat (length (datas s')) = M /\
    forall j k, stages (problem s) !! j = Some k ->
      exists k',
        stages (problem s') !! j = Some k' /\ same_lq_data k k' /\
        forall i, 0 <= i < L - 1 ->
                  splitIdx s !! Z.to_nat (i + 1) = Some (Z.of_nat j + 1) ->
                  costate_parameterized k'.
Proof.
  intros HL HLw HM Hlen H0 HLast Hinc HMlen Hdat.
  set (idx := splitIdx s) in *.
  destruct (for_loop_inv
    (fun i s =>
       let* i0 := at_ (splitIdx s) i in
       let* i1 := at_ (splitIdx s) (uint (i + 1)) in
       buildLeg i0 i1 (i =? uint (L - 1)) s)
    (fun i s' =>
       same_frame s s' /\
       length (stages (problem s')) = length (stages (problem s)) /\
       exists a, idx !! Z.to_nat i = Some a /\
         Z.of_nat (length (datas s')) = a /\
         forall j k, stages (problem s) !! j = Some k ->
           exists k',
             stages (problem s') !! j = Some k' /\ same_lq_data k k' /\
             (a <= Z.of_nat j -> k' = k) /\
             forall i', 0 <= i' < i -> i' < L - 1 ->
                        idx !! Z.to_nat (i' + 1) = Some (Z.of_nat j + 1) ->
                        costate_parameterized k')
    0 L s) as (s' & Hs' & Hfr & Hst & a & Ha & Hda & Hk).
  - lia.
  - split; [apply same_frame_refl |]. split; [reflexivity |].
    exists 0. split; [exact H0 |]. split; [rewrite Hdat; reflexivity |].
    intros j k Hjk. exists k. split; [exact Hjk |].
    split; [apply same_lq_data_refl |]. split; [reflexivity |]. intros; lia.
  - intros i t Hi (Hfr & Hst & a & Ha & Hda & Hk).
    pose proof Hfr as (Hf1 & Hf2 & _).
    destruct (lookup_lt_is_Some_2 idx (Z.to_nat (i + 1))) as [b Hb]; [lia |].
    assert (Hab : a < b) by (apply (Hinc i); [lia | exact Ha | exact Hb]).
    assert (HbM : b <= M).
    { pose proof (strictly_increasing_le idx L Hinc ltac:(lia)
                    (Z.to_nat (L - (i + 1))) (i + 1) b M) as Hle.
      rewrite Z2Nat.id in Hle by lia.
      replace (i + 1 + (L - (i + 1))) with L in Hle by lia.
      specialize (Hle ltac:(lia) ltac:(lia) Hb HLast). lia. }
    assert (Ha0 : 0 <= a).
    { pose proof (strictly_increasing_le idx L Hinc ltac:(lia)
                    (Z.to_nat i) 0 0 a) as Hle.
      rewrite Z2Nat.id in Hle by lia. rewrite Z.add_0_l in Hle.
      specialize (Hle ltac:(lia) ltac:(lia) H0 Ha). lia. }
    rewrite Hf2. fold idx.
    rewrite (proj2 (at_Ok idx i a)) by (split; [lia | exact Ha]).
    rewrite (uint_small (i + 1)) by lia.
    rewrite (proj2 (at_Ok idx (i + 1) b)) by (split; [lia | exact Hb]).
    cbn [bind]. rewrite (uint_small (L - 1)) by lia.
    destruct (buildLeg_Ok (i =? L - 1) t a b) as (t' & Ht' & Hfr' & Hst' & Hda' & Hk');
      [lia | lia | intros _; lia | lia |].
    exists t'. split; [exact Ht' |].
    split; [apply (same_frame_trans _ t); [exact Hfr | exact Hfr'] |].
    split; [congruence |].
    exists b. split; [exact Hb |]. split; [lia |].
    intros j k Hjk. destruct (Hk j k Hjk) as (k1 & Hk1 & Hsame & Hout & Htail).
    exists (leg_knot a b (i =? L - 1) (Z.of_nat j) k1).
    split; [apply Hk'; exact Hk1 |].
    split; [apply (same_lq_data_trans _ k1); [exact Hsame | apply leg_knot_frame] |].
    split.
    + intros Hbj. rewrite leg_knot_outside by lia. apply Hout. lia.
    + intros i' Hi' HiL Hidx.
      destruct (Z.eq_dec i' i) as [-> | Hne].
      * rewrite Hb in Hidx. injection Hidx as Hbj.
        replace (i =? L - 1) with false by (symmetry; apply Z.eqb_neq; lia).
        replace (Z.of_nat j) with (b - 1) by lia.
        apply leg_knot_tail. exact Hab.
      * assert (Z.of_nat j + 1 <= a).
        { pose proof (strictly_increasing_le idx L Hinc ltac:(lia)
                        (Z.to_nat (i - (i' + 1))) (i' + 1) (Z.of_nat j + 1) a) as Hle.
          rewrite Z2Nat.id in Hle by lia.
          replace (i' + 1 + (i - (i' + 1))) with i in Hle by lia.
          specialize (Hle ltac:(lia) ltac:(lia) Hidx Ha). lia. }
        rewrite leg_knot_outside by lia. apply (Htail i'); [lia | lia | exact Hidx].
  - exists s'. split; [exact Hs' |]. split; [exact Hfr |]. split; [exact Hst |].
    rewrite HLast in Ha. injection Ha as <-. split; [exact Hda |].
    intros j k Hjk. destruct (Hk j k Hjk) as (k' & Hk' & Hsame & _ & Htail).
    exists k'. split; [exact Hk' |]. split; [exact Hsame |].
    intros i Hi Hidx. apply (Htail i); [lia | lia | exact Hidx].
Qed.

(** Whenever [buildLeg] returns, it has written parameterizations only. *)
Lemma stages_lq_preserved_insert (s t : Solver) (i : nat)
  (k0 k1 : Knot.LQRKnotTpl Scalar) :
  stages_lq_preserved s t ->
  stages (problem t) !! i = Some k0 -> same_lq_data k0 k1 ->
  stages_lq_preserved s (set_problem_stages (<[i := k1]> (stages (problem t))) t).
Proof.
  intros [Hlen Hst] Hk0 Hsame. split; cbn.
  - rewrite length_insert. exact Hlen.
  - intros j k Hk. destruct (Hst j k Hk) as (k' & Hk' & Hs').
    destruct (Nat.eq_dec j i) as [-> | Hne].
    + exists k1. split.
      * apply list_lookup_insert_eq. apply lookup_lt_Some in Hk0. exact Hk0.
      * rewrite Hk0 in Hk'. injection Hk' as <-.
        apply (same_lq_data_trans _ k0); assumption.
    + exists k'. split; [| exact Hs']. rewrite list_lookup_insert_ne by congruence.
      exact Hk'.
Qed.

Lemma buildLeg_step_frame (s : Solver) (last_leg : bool) (j : Z) (t t' : Solver) :
  buildLeg_step last_leg j t = Ok t' ->
  stages_lq_preserved s t -> stages_lq_preserved s t'.
Proof.
  unfold buildLeg_step. intros Hrun Hpre.
  apply bind_Ok in Hrun as (k0 & Hk0 & Hrun).
  apply bind_Ok in Hrun as (k1 & Hk1 & Hrun).
  apply bind_Ok in Hrun as (st & Hst & Hrun).
  injection Hrun as <-.
  apply at_Ok in Hk0 as [_ Hk0]. apply set_at_inv in Hst as [_ ->].
  assert (Hsame : same_lq_data k0 k1).
  { destruct last_leg; cbn in Hk1.
    - injection Hk1 as <-. apply same_lq_data_refl.
    - apply bind_Ok in Hk1 as (_ & _ & Hk1). injection Hk1 as <-. repeat split. }
  destruct (stages_lq_preserved_insert s t _ k0 k1 Hpre Hk0 Hsame) as [Hlen Hall].
  split; [exact Hlen | exact Hall].
Qed.

Lemma buildLeg_frame (s s' : Solver) start end_ last_leg :
  buildLeg start end_ last_leg s = Ok s' -> stages_lq_preserved s s'.
Proof.
  unfold buildLeg. intros Hrun.
  apply bind_Ok in Hrun as (t & Ht & Hrun).
  assert (Hpre : stages_lq_preserved s t).
  { unfold for_loop in Ht.
    apply (for_range_preserves (buildLeg_step last_leg) (stages_lq_preserved s)
             (buildLeg_step_frame s last_leg) _ _ _ _ Ht).
    split; [reflexivity |]. intros i k Hk. exists k.
    split; [exact Hk | apply same_lq_data_refl]. }
  destruct last_leg; cbn [negb] in Hrun.
  - injection Hrun as <-. exact Hpre.
  - apply bind_Ok in Hrun as (k0 & Hk0 & Hrun).
    apply bind_Ok in Hrun as (st & Hst & Hrun).
    injection Hrun as <-.
    apply at_Ok in Hk0 as [_ Hk0]. apply set_at_inv in Hst as [_ ->].
    apply (stages_lq_preserved_insert s t _ k0); [exact Hpre | exact Hk0 |].
    repeat split.
Qed.

(** Whenever [buildLeg] returns, the members it does not write are as they
    were. *)
Lemma buildLeg_same_frame (s s' : Solver) start end_ last_leg :
  buildLeg start end_ last_leg s = Ok s' -> same_frame s s'.
Proof.
  unfold buildLeg. intros Hrun.
  apply bind_Ok in Hrun as (t & Ht & Hrun).
  assert (Hpre : same_frame s t).
  { unfold for_loop in Ht.
    apply (for_range_preserves (buildLeg_step last_leg) (same_frame s)) in Ht;
      [exact Ht | | apply same_frame_refl].
    intros j u u' Hstep Hu. unfold buildLeg_step in Hstep.
    apply bind_Ok in Hstep as (k0 & _ & Hstep).
    apply bind_Ok in Hstep as (k1 & _ & Hstep).
    apply bind_Ok in Hstep as (st & _ & Hstep).
    injection Hstep as <-.
    apply (same_frame_trans _ _ _ Hu). repeat split. }
  destruct last_leg; cbn [negb] in Hrun.
  - injection Hrun as <-. exact Hpre.
  - apply bind_Ok in Hrun as (k0 & _ & Hrun).
    apply bind_Ok in Hrun as (st & _ & Hrun).
    injection Hrun as <-.
    apply (same_frame_trans _ _ _ Hpre). repeat split.
Qed.

Lemma buildLegs_same_frame (s s' : Solver) (L : Z) :
  buildLegs L s = Ok s' -> same_frame s s' /\ stages_lq_preserved s s'.
Proof.
  unfold buildLegs, for_loop. intros Hrun.
  apply (for_range_preserves _
           (fun t => same_frame s t /\ stages_lq_preserved s t)) in Hrun.
  - exact Hrun.
  - intros j t t' Hstep [Hfr Hlq].
    apply bind_Ok in Hstep as (i0 & _ & Hstep).
    apply bind_Ok in Hstep as (i1 & _ & Hstep).
    split.
    + apply (same_frame_trans _ _ _ Hfr).
      apply (buildLeg_same_frame _ _ _ _ _ Hstep).
    + apply buildLeg_frame in Hstep. destruct Hlq as [Hl1 Hk1].
      destruct Hstep as [Hl2 Hk2]. split; [congruence |].
      intros i k Hk. destruct (Hk1 i k Hk) as (k1 & Hk1' & Hs1).
      destruct (Hk2 i k1 Hk1') as (k2 & Hk2' & Hs2).
      exists k2. split; [exact Hk2' | apply (same_lq_data_trans _ k1); assumption].
  - split; [apply same_frame_refl |]. split; [reflexivity |].
    intros i k Hk. exists k. split; [exact Hk | apply same_lq_data_refl].
Qed.

(** What [checkIndices() == true] says. *)
Lemma checkIndices_true (s : Solver) :
  0 <= numLegs s -> length (splitIdx s) = Z.to_nat (numLegs s + 1) ->
  checkIndices s = Ok true ->
  splitIdx s !! 0%nat = Some 0 /\ strictly_increasing (splitIdx s) (numLegs s).
Proof.
  intros HL Hlen Hchk.
  destruct (lookup_lt_is_Some_2 (splitIdx s) 0) as [first Hfirst]; [lia |].
  unfold checkIndices in Hchk.
  rewrite (proj2 (at_Ok (splitIdx s) 0 first)) in Hchk
    by (split; [lia | exact Hfirst]).
  cbn [bind] in Hchk. destruct (first =? 0) eqn:E0; cbn [negb] in Hchk;
    [| discriminate].
  apply Z.eqb_eq in E0. subst first. split; [exact Hfirst |].
  destruct (checkIndices_from_Ok (splitIdx s) (Z.to_nat (numLegs s)) 0)
    as (b & Hb & Hspec); [lia | lia |].
  rewrite Hb in Hchk. injection Hchk as ->.
  intros i a c Hi. apply (proj1 Hspec eq_refl). lia.
Qed.

End BuildLeg.

(** ** The constructor *)

Section Constructor.
Context {Scalar : Type} `{ScalarOps Scalar}.

(** The constructor on a problem of [M] knots cut into [L] legs, with at
    least one knot per leg and no wrap-around in [N + 1] and in the products
    [i * (N + 1)], [i < L]. *)
Lemma ParallelRiccatiSolver_make_Ok (pb : LQRProblemTpl Scalar) (L : Z) :
  let M := Z.of_nat (length (stages pb)) in
  1 <= L <= M -> M < uint_modulus -> (L - 1) * M < uint_modulus ->
  exists s,
    ParallelRiccatiSolver_make pb L = Ok s /\
    numLegs s = L /\
    length (splitIdx s) = Z.to_nat (L + 1) /\
    (forall i, 0 <= i <= L -> splitIdx s !! Z.to_nat i = Some (i * M / L)) /\
    strictly_increasing (splitIdx s) L /\
    checkIndices s = Ok true /\
    length (stages (problem s)) = length (stages pb) /\
    Z.of_nat (length (datas s)) = M /\
    G0 (problem s) = G0 pb /\ g0 (problem s) = g0 pb /\
    forall j k, stages pb !! j = Some k ->
      exists k',
        stages (problem s) !! j = Some k' /\ same_lq_data k k' /\
        forall i, 0 <= i < L - 1 -> (i + 1) * M / L = Z.of_nat j + 1 ->
                  costate_parameterized k'.
Proof.
  intros M HL HMw Hw.
  assert (HM : 0 < M < uint_modulus) by lia.
  assert (HLw : L + 1 < uint_modulus).
  { destruct (Z.eq_dec L 1) as [-> | ?]; [reflexivity |].
    destruct (Z.eq_dec L 2) as [-> | ?]; [reflexivity | nia]. }
  unfold ParallelRiccatiSolver_make. cbv zeta.
  assert (HN : uint (horizon pb) = M - 1).
  { unfold horizon. fold M. apply uint_small. lia. }
  rewrite HN.
  destruct (make_splitIdx_Ok (M - 1) L) as (idx & Hidx & Hlen & Hval & Hlast);
    [lia | exact HLw |].
  replace (M - 1 + 1) with M in * by lia.
  rewrite (uint_small M) in * by lia.
  assert (Hall : forall i, 0 <= i <= L -> idx !! Z.to_nat i = Some (i * M / L)).
  { intros i Hi. destruct (Z.eq_dec i L) as [-> | Hne].
    - rewrite Hlast. f_equal. apply Z.div_unique_exact; lia.
    - rewrite Hval by lia. f_equal.
      rewrite uint_small; [reflexivity |]. split; [nia |].
      apply Z.le_lt_trans with ((L - 1) * M); [nia | exact Hw]. }
  assert (Hinc : strictly_increasing idx L).
  { intros i a b Hi Ha Hb. rewrite Hall in Ha by lia. rewrite Hall in Hb by lia.
    injection Ha as <-. injection Hb as <-.
    apply split_quotient_step; lia. }
  rewrite Hidx. cbn [bind].
  set (s0 := mkSolver [] L idx (mkCondensed [] [] []) BlkVec_empty pb).
  assert (H0 : splitIdx s0 !! 0%nat = Some 0) by exact (Hall 0 ltac:(lia)).
  assert (HLast : splitIdx s0 !! Z.to_nat L = Some M).
  { cbn. rewrite (Hall L) by lia. f_equal. symmetry.
    apply Z.div_unique_exact; lia. }
  destruct (buildLegs_Ok s0 L M ltac:(lia) HLw ltac:(lia) Hlen H0 HLast Hinc
              eq_refl eq_refl) as (s & Hs & Hfr & Hst & Hda & Hk).
  rewrite Hs. cbn [bind].
  destruct Hfr as (Hf1 & Hf2 & Hf3 & Hf4 & Hf5 & Hf6). cbn in Hf1, Hf2, Hf5, Hf6, Hst.
  rewrite Hda. replace (M =? M) with true by (symmetry; apply Z.eqb_refl).
  cbn [assert_ bind].
  assert (Hchk : checkIndices s = Ok true).
  { unfold checkIndices. rewrite Hf1, Hf2.
    rewrite (proj2 (at_Ok idx 0 0)) by (split; [lia | rewrite (Hall 0) by lia; reflexivity]).
    cbn [bind Z.eqb negb].
    destruct (checkIndices_from_Ok idx (Z.to_nat L) 0) as (b & Hb & Hspec); [lia | lia |].
    rewrite Hb. f_equal. apply Hspec. intros j a c Hj. apply Hinc. lia. }
  rewrite Hchk. cbn [assert_ bind].
  exists s. split; [reflexivity |]. split; [exact Hf1 |].
  rewrite Hf2. split; [exact Hlen |]. split; [exact Hall |]. split; [exact Hinc |].
  split; [exact Hchk |]. split; [exact Hst |]. split; [exact Hda |].
  split; [exact Hf5 |]. split; [exact Hf6 |].
  intros j k Hjk. destruct (Hk j k Hjk) as (k' & Hk' & Hsame & Htail).
  exists k'. split; [exact Hk' |]. split; [exact Hsame |].
  intros i Hi Hq. apply (Htail i Hi). cbn. rewrite Hall by lia. f_equal. exact Hq.
Qed.

(** Whenever the constructor returns (its assertions hold), the split
    indices are well formed, and every leg was built on its knots. *)
Lemma ParallelRiccatiSolver_make_inv (pb : LQRProblemTpl Scalar) (L : Z)
  (s : ParallelRiccatiSolver Scalar) :
  let M := Z.of_nat (length (stages pb)) in
  1 <= L -> L + 1 < uint_modulus -> M < uint_modulus ->
  ParallelRiccatiSolver_make pb L = Ok s ->
  numLegs s = L /\
  length (splitIdx s) = Z.to_nat (L + 1) /\
  splitIdx s !! 0%nat = Some 0 /\
  splitIdx s !! Z.to_nat L = Some M /\
  strictly_increasing (splitIdx s) L /\
  checkIndices s = Ok true /\
  Z.of_nat (length (datas s)) = M /\
  g0 (problem s) = g0 pb /\
  length (stages (problem s)) = length (stages pb) /\
  forall j k, stages pb !! j = Some k ->
    exists k',
      stages (problem s) !! j = Some k' /\ same_lq_data k k' /\
      forall i, 0 <= i < L - 1 ->
                splitIdx s !! Z.to_nat (i + 1) = Some (Z.of_nat j + 1) ->
                costate_parameterized k'.
Proof.
  intros M HL HLw HM Hrun.
  unfold ParallelRiccatiSolver_make in Hrun. cbv zeta in Hrun.
  apply bind_Ok in Hrun as (idx & Hidx & Hrun).
  apply bind_Ok in Hrun as (s1 & Hlegs & Hrun).
  apply bind_Ok in Hrun as (u1 & Hsize & Hrun).
  apply bind_Ok in Hrun as (ok & Hchk & Hrun).
  apply bind_Ok in Hrun as (u2 & Hok & Hrun).
  injection Hrun as <-.
  destruct ok; [| discriminate].
  destruct (make_splitIdx_Ok (uint (horizon pb)) L ltac:(lia) HLw)
    as (idx' & Hidx' & Hlen & _ & Hlast).
  rewrite Hidx in Hidx'. injection Hidx' as <-.
  assert (HlastM : uint (uint (horizon pb) + 1) = M).
  { unfold horizon. fold M. destruct (Z.eq_dec M 0) as [E | E].
    - rewrite E. reflexivity.
    - rewrite (uint_small (M - 1)) by lia.
      replace (M - 1 + 1) with M by lia. apply uint_small. lia. }
  rewrite HlastM in Hlast.
  set (s0 := mkSolver [] L idx (mkCondensed [] [] []) BlkVec_empty pb) in *.
  destruct (buildLegs_same_frame s0 s1 L Hlegs)
    as [(Hf1 & Hf2 & _ & _ & _ & Hf6) [Hstl _]].
  cbn in Hf1, Hf2, Hf6, Hstl.
  assert (Hdat : Z.of_nat (length (datas s1)) = M).
  { unfold assert_ in Hsize.
    destruct (Z.of_nat (length (datas s1)) =? uint (uint (horizon pb) + 1)) eqn:E;
      [| discriminate].
    apply Z.eqb_eq in E. rewrite E. exact HlastM. }
  destruct (checkIndices_true s1) as [H0 Hinc];
    [rewrite Hf1; lia | rewrite Hf1, Hf2; exact Hlen | exact Hchk |].
  rewrite Hf1, Hf2 in *.
  destruct (buildLegs_Ok s0 L M HL HLw ltac:(lia) Hlen H0 Hlast Hinc
              eq_refl eq_refl) as (s1' & Hs1' & _ & _ & _ & Hk).
  rewrite Hlegs in Hs1'. injection Hs1' as <-.
  split; [reflexivity |]. repeat (split; [assumption |]). exact Hk.
Qed.

(** The solver that the constructor returns is ready. *)
Lemma constructor_ready (pb : LQRProblemTpl Scalar) (L : Z)
  (s : ParallelRiccatiSolver Scalar) :
  1 <= L -> 2 * L < uint_modulus ->
  Z.of_nat (length (stages pb)) < uint_modulus ->
  Z.of_nat (length (g0 pb)) < uint_modulus ->
  ParallelRiccatiSolver_make pb L = Ok s ->
  solver_ready s.
Proof.
  intros HL Hw HM Hg Hrun.
  destruct (ParallelRiccatiSolver_make_inv pb L s HL ltac:(lia) HM Hrun)
    as (HnL & Hlen & _ & Hlast & _ & Hchk & Hdat & Hg0 & Hst & _).
  constructor; rewrite ?HnL, ?Hst, ?Hg0; try assumption; lia.
Qed.

End Constructor.

(** ** Claims on the constructor, [checkIndices], [buildLeg] and
    [addParameterization] *)

Section ConstructorClaims.
Context {Scalar : Type} `{ScalarOps Scalar}.

(** C5 (amended).  For every LQ problem with horizon [N] and every
    [num_legs] with [1 <= num_legs <= N + 1] (a knot for each leg),
    [N + 1 < 2^32] and [(num_legs - 1) * (N + 1) < 2^32] (no wrap-around in
    [i * (N + 1)]), the constructor returns, and
    the split indices satisfy [splitIdx[0] = 0], [splitIdx[num_legs] = N + 1]
    and are strictly increasing: [checkIndices()] returns true.  And on every
    solver, [checkIndices()] returns false exactly when [splitIdx[0] != 0] or
    some [splitIdx[i] >= splitIdx[i + 1]], [i < numLegs]. *)
Theorem split_indices_after_construction :
  (forall (pb : LQRProblemTpl Scalar) (num_legs : Z),
      1 <= num_legs <= horizon pb + 1 ->
      horizon pb + 1 < uint_modulus ->
      (num_legs - 1) * (horizon pb + 1) < uint_modulus ->
      exists s,
        ParallelRiccatiSolver_make pb num_legs = Ok s /\
        numLegs s = num_legs /\
        length (splitIdx s) = Z.to_nat (num_legs + 1) /\
        splitIdx s !! 0%nat = Some 0 /\
        splitIdx s !! Z.to_nat num_legs = Some (horizon pb + 1) /\
        strictly_increasing (splitIdx s) num_legs /\
        checkIndices s = Ok true) /\
  (forall s : ParallelRiccatiSolver Scalar,
      0 <= numLegs s ->
      length (splitIdx s) = Z.to_nat (numLegs s + 1) ->
      exists b,
        checkIndices s = Ok b /\
        (b = false <->
         splitIdx s !! 0%nat <> Some 0 \/
         exists i a c, 0 <= i < numLegs s /\
                       splitIdx s !! Z.to_nat i = Some a /\
                       splitIdx s !! Z.to_nat (i + 1) = Some c /\ a >= c)).
Proof.
  split.
  - intros pb L HL HM Hw. unfold horizon in *.
    replace (Z.of_nat (length (stages pb)) - 1 + 1)
      with (Z.of_nat (length (stages pb))) in * by lia.
    destruct (ParallelRiccatiSolver_make_Ok pb L HL HM Hw)
      as (s & Hs & HnL & Hlen & Hall & Hinc & Hchk & _).
    exists s. split; [exact Hs |]. split; [exact HnL |]. split; [exact Hlen |].
    split; [exact (Hall 0 ltac:(lia)) |]. split.
    + rewrite (Hall L) by lia. f_equal. symmetry. apply Z.div_unique_exact; lia.
    + split; [exact Hinc | exact Hchk].
  - intros s HL Hlen.
    destruct (lookup_lt_is_Some_2 (splitIdx s) 0) as [first Hfirst]; [lia |].
    unfold checkIndices.
    rewrite (proj2 (at_Ok (splitIdx s) 0 first)) by (split; [lia | exact Hfirst]).
    cbn [bind]. destruct (first =? 0) eqn:E0; cbn [negb].
    + apply Z.eqb_eq in E0. subst first.
      destruct (checkIndices_from_Ok (splitIdx s) (Z.to_nat (numLegs s)) 0)
        as (b & Hb & _); [lia | lia |].
      exists b. split; [exact Hb |].
      pose proof (checkIndices_from_false (splitIdx s) (Z.to_nat (numLegs s)) 0
                    ltac:(lia) ltac:(lia)) as Hf.
      rewrite Hb in Hf. split.
      * intros ->. right. destruct (proj1 Hf eq_refl) as (j & a & c & Hj & Hrest).
        exists j, a, c. split; [lia | exact Hrest].
      * intros [Hne | (j & a & c & Hj & Hrest)]; [congruence |].
        assert (Hob : Ok b = Ok false).
        { apply Hf. exists j, a, c. split; [lia | exact Hrest]. }
        congruence.
    + exists false. split; [reflexivity |]. split; [intros _ | reflexivity].
      left. rewrite Hfirst. intros [= ->]. discriminate.
Qed.

(** C4.  For a leg [[start, end)] that is not the final one, [buildLeg]
    returns and leaves the last knot of the leg parameterized on the costate:
    [Gx = A^T], [Gu = B^T], [gamma = f] and [nth = nx], the dimensions, cost
    and dynamics of the knot being what they were.  So is the last knot of
    every non-final leg once the constructor has returned; and the
    constructor returns when there is a knot for each leg (and no
    wrap-around). *)
Theorem last_knot_of_leg_parameterized :
  (forall (s : ParallelRiccatiSolver Scalar) (start end_ : Z),
      0 <= start < end_ ->
      end_ <= Z.of_nat (length (stages (problem s))) ->
      end_ <= uint_modulus ->
      exists s' k k',
        buildLeg start end_ false s = Ok s' /\
        stages (problem s) !! Z.to_nat (end_ - 1) = Some k /\
        stages (problem s') !! Z.to_nat (end_ - 1) = Some k' /\
        Knot.Gx k' = transpose (Knot.A k') /\
        Knot.Gu k' = transpose (Knot.B k') /\
        Knot.gamma k' = Knot.f k' /\
        Knot.nth k' = Knot.nx k' /\
        same_lq_data k k') /\
  (forall (pb : LQRProblemTpl Scalar) (num_legs : Z)
          (s : ParallelRiccatiSolver Scalar),
      1 <= num_legs -> num_legs + 1 < uint_modulus ->
      Z.of_nat (length (stages pb)) < uint_modulus ->
      ParallelRiccatiSolver_make pb num_legs = Ok s ->
      forall i, 0 <= i < num_legs - 1 ->
        exists end_ k',
          splitIdx s !! Z.to_nat (i + 1) = Some end_ /\
          stages (problem s) !! Z.to_nat (end_ - 1) = Some k' /\
          Knot.Gx k' = transpose (Knot.A k') /\
          Knot.Gu k' = transpose (Knot.B k') /\
          Knot.gamma k' = Knot.f k' /\
          Knot.nth k' = Knot.nx k') /\
  (forall (pb : LQRProblemTpl Scalar) (num_legs : Z),
      1 <= num_legs <= horizon pb + 1 ->
      horizon pb + 1 < uint_modulus ->
      (num_legs - 1) * (horizon pb + 1) < uint_modulus ->
      exists s, ParallelRiccatiSolver_make pb num_legs = Ok s).
Proof.
  split; [| split].
  - intros s start end_ Hse Hend Hw.
    destruct (buildLeg_Ok false s start end_) as (s' & Hs' & _ & _ & _ & Hk);
      [lia | exact Hend | intros _; lia | exact Hw |].
    destruct (lookup_lt_is_Some_2 (stages (problem s)) (Z.to_nat (end_ - 1)))
      as [k Hk0]; [lia |].
    exists s', k, (leg_knot start end_ false (end_ - 1) k).
    split; [exact Hs' |]. split; [exact Hk0 |]. split.
    + rewrite (Hk _ _ Hk0). rewrite Z2Nat.id by lia. reflexivity.
    + pose proof (leg_knot_tail start end_ k ltac:(lia)) as (H1 & H2 & H3 & H4).
      repeat (split; [assumption |]). apply leg_knot_frame.
  - intros pb L s HL HLw HM Hrun i Hi.
    destruct (ParallelRiccatiSolver_make_inv pb L s HL HLw HM Hrun)
      as (_ & Hlen & H0 & Hlast & Hinc & _ & _ & _ & _ & Hk).
    destruct (lookup_lt_is_Some_2 (splitIdx s) (Z.to_nat (i + 1))) as [e He];
      [lia |].
    assert (Hlo : 0 + Z.of_nat (Z.to_nat (i + 1)) <= e).
    { apply (strictly_increasing_le (splitIdx s) L Hinc ltac:(lia)
               (Z.to_nat (i + 1)) 0 0 e); [lia | lia | exact H0 |].
      rewrite Z2Nat.id by lia. exact He. }
    assert (Hhi : e + Z.of_nat (Z.to_nat (L - (i + 1)))
                  <= Z.of_nat (length (stages pb))).
    { apply (strictly_increasing_le (splitIdx s) L Hinc ltac:(lia)
               (Z.to_nat (L - (i + 1))) (i + 1)); [lia | lia | exact He |].
      rewrite Z2Nat.id by lia. replace (i + 1 + (L - (i + 1))) with L by lia.
      exact Hlast. }
    destruct (lookup_lt_is_Some_2 (stages pb) (Z.to_nat (e - 1))) as [k Hk0];
      [lia |].
    destruct (Hk _ _ Hk0) as (k' & Hk' & _ & Htail).
    destruct (Htail i Hi) as (H1 & H2 & H3 & H4).
    { rewrite He. f_equal. lia. }
    exists e, k'. split; [exact He |]. split; [exact Hk' |].
    repeat split; assumption.
  - intros pb L HL HM Hw. unfold horizon in *.
    replace (Z.of_nat (length (stages pb)) - 1 + 1)
      with (Z.of_nat (length (stages pb))) in * by lia.
    destruct (ParallelRiccatiSolver_make_Ok pb L HL HM Hw) as (s & Hs & _).
    exists s. exact Hs.
Qed.

(** C9.  [addParameterization(n)] sets [nth] and allocates [Gx], [Gu], and
    leaves [Q, R, q, r, A, B, E, f] as they were; on a whole problem it
    leaves every stage's [Q] (and the number of stages) as it was; and so
    does [buildLeg], which calls it knot by knot. *)
Theorem addParameterization_frame :
  (forall (n : Z) (k : Knot.LQRKnotTpl Scalar),
      let k' := Knot.addParameterization n k in
      Knot.nth k' = n /\
      Knot.Gx k' = Zero (Z.to_nat n) (Z.to_nat (Knot.nx k)) /\
      Knot.Gu k' = Zero (Z.to_nat n) (Z.to_nat (Knot.nu k)) /\
      Knot.Q k' = Knot.Q k /\ Knot.R k' = Knot.R k /\
      Knot.q k' = Knot.q k /\ Knot.r k' = Knot.r k /\
      Knot.A k' = Knot.A k /\ Knot.B k' = Knot.B k /\
      Knot.E k' = Knot.E k /\ Knot.f k' = Knot.f k) /\
  (forall (n : Z) (pb : LQRProblemTpl Scalar),
      length (stages (problem_addParameterization n pb)) = length (stages pb) /\
      forall i, Knot.Q <$> (stages (problem_addParameterization n pb) !! i)
                = Knot.Q <$> (stages pb !! i)) /\
  (forall (s s' : ParallelRiccatiSolver Scalar) (start end_ : Z) (last_leg : bool),
      buildLeg start end_ last_leg s = Ok s' ->
      length (stages (problem s')) = length (stages (problem s)) /\
      forall i k, stages (problem s) !! i = Some k ->
                  exists k', stages (problem s') !! i = Some k' /\
                             same_lq_data k k').
Proof.
  split; [| split].
  - intros n k. cbn. repeat split.
  - intros n pb. unfold problem_addParameterization. cbn. split.
    + apply length_map.
    + intros i. rewrite list_lookup_fmap.
      destruct (stages pb !! i); reflexivity.
  - intros s s' start end_ last_leg Hs'.
    apply buildLeg_frame in Hs'. exact Hs'.
Qed.

End ConstructorClaims.

(** C5 on eight knots and three legs: the split indices are [0, 2, 5, 8]. *)
Lemma split_indices_after_construction_witness :
  exists s,
    ParallelRiccatiSolver_make (example_problem 8) 3 = Ok s /\
    numLegs s = 3 /\
    length (splitIdx s) = Z.to_nat (3 + 1) /\
    splitIdx s !! 0%nat = Some 0 /\
    splitIdx s !! Z.to_nat 3 = Some (horizon (example_problem 8) + 1) /\
    strictly_increasing (splitIdx s) 3 /\
    checkIndices s = Ok true.
Proof.
  apply (proj1 split_indices_after_construction (example_problem 8) 3); by_eval.
Defined.

(** C5 as it is stated fails when there are more legs than knots: on a
    problem of one knot (horizon 0) and two legs the split indices are
    [0, 0, 1], on which [checkIndices] returns false; the first leg is empty,
    and [buildLeg] reads [problem.stages[end - 1]] at [end = 0]. *)
Lemma split_indices_more_legs_than_knots :
  horizon one_knot_problem = 0 /\
  make_splitIdx 0 2 = Ok [0; 0; 1] /\
  checkIndices (mkSolver [] 2 [0; 0; 1] (mkCondensed [] [] []) BlkVec_empty
                  one_knot_problem) = Ok false /\
  ParallelRiccatiSolver_make one_knot_problem 2 = Fault OutOfRange /\
  ~ (exists s,
        ParallelRiccatiSolver_make one_knot_problem 2 = Ok s /\
        strictly_increasing (splitIdx s) 2 /\ checkIndices s = Ok true).
Proof.
  assert (Hmake : ParallelRiccatiSolver_make one_knot_problem 2 = Fault OutOfRange)
    by (vm_compute; reflexivity).
  repeat split; try (vm_compute; reflexivity).
  intros (s & Hs & _). rewrite Hmake in Hs. discriminate.
Qed.

(** C4 on the first of two legs of four knots each, and in the constructor
    on eight knots and three legs. *)
Lemma last_knot_of_leg_parameterized_witness :
  (exists s' k k',
      buildLeg 0 4 false example_solver = Ok s' /\
      stages (problem example_solver) !! Z.to_nat (4 - 1) = Some k /\
      stages (problem s') !! Z.to_nat (4 - 1) = Some k' /\
      Knot.Gx k' = transpose (Knot.A k') /\
      Knot.Gu k' = transpose (Knot.B k') /\
      Knot.gamma k' = Knot.f k' /\
      Knot.nth k' = Knot.nx k' /\
      same_lq_data k k') /\
  (exists s,
      ParallelRiccatiSolver_make (example_problem 8) 3 = Ok s /\
      forall i, 0 <= i < 3 - 1 ->
        exists end_ k',
          splitIdx s !! Z.to_nat (i + 1) = Some end_ /\
          stages (problem s) !! Z.to_nat (end_ - 1) = Some k' /\
          Knot.Gx k' = transpose (Knot.A k') /\
          Knot.Gu k' = transpose (Knot.B k') /\
          Knot.gamma k' = Knot.f k' /\
          Knot.nth k' = Knot.nx k').
Proof.
  split.
  - apply (proj1 last_knot_of_leg_parameterized example_solver 0 4); by_eval.
  - destruct (proj2 (proj2 last_knot_of_leg_parameterized) (example_problem 8) 3)
      as [s Hs]; [by_eval | by_eval | by_eval |].
    exists s. split; [exact Hs |].
    apply (proj1 (proj2 last_knot_of_leg_parameterized) (example_problem 8) 3 s);
      [by_eval | by_eval | by_eval | exact Hs].
Defined.

(** The knot that [buildLeg(0, 4, false)] leaves at index 3:
    [Gx = A^T = [[1, 3], [2, 4]]], [Gu = B^T = [[5, 6]]], [gamma = [7, 8]],
    [nth = 2]. *)
Example buildLeg_example :
  (let* s := buildLeg 0 4 false example_solver in
   let* k := at_ (stages (problem s)) 3 in
   Ok (coeffs (Knot.Gx k), coeffs (Knot.Gu k), Knot.gamma k, Knot.nth k))
  = Ok ([[1; 3]; [2; 4]], [[5; 6]], [7; 8], 2).
Proof. vm_compute. reflexivity. Qed.

(** C9 on the first leg of [example_solver]. *)
Lemma addParameterization_frame_witness :
  exists s',
    buildLeg 0 4 false example_solver = Ok s' /\
    length (stages (problem s')) = length (stages (problem example_solver)) /\
    forall i k, stages (problem example_solver) !! i = Some k ->
                exists k', stages (problem s') !! i = Some k' /\
                           same_lq_data k k'.
Proof.
  destruct (buildLeg 0 4 false example_solver) as [s' | e] eqn:Hrun.
  - exists s'. split; [reflexivity |].
    exact (proj2 (proj2 addParameterization_frame) example_solver s' 0 4 false Hrun).
  - vm_compute in Hrun. discriminate.
Defined.

(** The test [problem] of tests/gar/knot.cpp: ten knots with [nx = 4] and
    [nu = 2]; after [addParameterization(1)] on a copy, the [Q] of every
    stage of the copy is the one of the original. *)
Example knot_test_problem :
  map Knot.Q
    (stages (problem_addParameterization 1
               (mkProblem (replicate 10 (Knot.make 4 2 0)) (Zero 4 4)
                  (vZero 4) : LQRProblemTpl Z)))
  = map Knot.Q (replicate 10 (Knot.make 4 2 0)).
Proof. reflexivity. Qed.

(** ** [assembleCondensedSystem] *)

Section ReadySolver.
Context {Scalar : Type} `{ScalarOps Scalar}.
Variable s : ParallelRiccatiSolver Scalar.
Hypothesis Hready : solver_ready s.

Lemma ready_first_split : splitIdx s !! 0%nat = Some 0.
Proof.
  destruct Hready as [HL _ Hlen Hchk _ _ _ _].
  apply (checkIndices_true s ltac:(lia) Hlen Hchk).
Qed.

Lemma ready_increasing : strictly_increasing (splitIdx s) (numLegs s).
Proof.
  destruct Hready as [HL _ Hlen Hchk _ _ _ _].
  apply (checkIndices_true s ltac:(lia) Hlen Hchk).
Qed.

Lemma split_at_lookup i :
  0 <= i <= numLegs s -> splitIdx s !! Z.to_nat i = Some (split_at s i).
Proof.
  intros Hi. unfold split_at. apply default_lookup.
  destruct Hready as [HL _ Hlen _ _ _ _ _]. lia.
Qed.

Lemma split_at_first : split_at s 0 = 0.
Proof.
  unfold split_at. change (Z.to_nat 0) with 0%nat.
  rewrite ready_first_split. reflexivity.
Qed.

Lemma split_at_last :
  split_at s (numLegs s) = Z.of_nat (length (stages (problem s))).
Proof. unfold split_at. rewrite (ready_last s Hready). reflexivity. Qed.

Lemma split_at_mono i j :
  0 <= i <= j -> j <= numLegs s -> split_at s i + (j - i) <= split_at s j.
Proof.
  intros Hi Hj.
  pose proof (strictly_increasing_le (splitIdx s) (numLegs s) ready_increasing) as Hle.
  specialize (Hle ltac:(rewrite (ready_splitIdx s Hready);
                        pose proof (ready_legs s Hready); lia)
                (Z.to_nat (j - i)) i (split_at s i) (split_at s j)).
  rewrite Z2Nat.id in Hle by lia. replace (i + (j - i)) with j in Hle by lia.
  apply Hle; [lia | lia | apply split_at_lookup; lia | apply split_at_lookup; lia].
Qed.

(** Every leg [i] is a range of knots: [0 <= splitIdx[i] < splitIdx[i + 1]
    <= N + 1]. *)
Lemma split_at_range i :
  0 <= i < numLegs s ->
  0 <= split_at s i < split_at s (i + 1) /\
  split_at s (i + 1) <= Z.of_nat (length (stages (problem s))).
Proof.
  intros Hi.
  pose proof (split_at_mono 0 i ltac:(lia) ltac:(lia)) as H0.
  pose proof (split_at_mono i (i + 1) ltac:(lia) ltac:(lia)) as H1.
  pose proof (split_at_mono (i + 1) (numLegs s) ltac:(lia) ltac:(lia)) as H2.
  rewrite split_at_first in H0. rewrite split_at_last in H2. lia.
Qed.

Lemma at_split i :
  0 <= i <= numLegs s -> at_ (splitIdx s) i = Ok (split_at s i).
Proof.
  intros Hi. apply at_default. rewrite (ready_splitIdx s Hready).
  pose proof (ready_legs s Hready). lia.
Qed.

Lemma at_factor j :
  0 <= j < Z.of_nat (length (stages (problem s))) ->
  at_ (datas s) j = Ok (factor_at s j).
Proof. intros Hj. apply at_default. rewrite (ready_datas s Hready). exact Hj. Qed.

Lemma at_knot j :
  0 <= j < Z.of_nat (length (stages (problem s))) ->
  at_ (stages (problem s)) j = Ok (knot_at s j).
Proof. intros Hj. apply at_default. exact Hj. Qed.

(** On a ready solver the first knot and the first factor of every leg are
    inside their vectors, and so is the last knot of the leg. *)
Lemma ready_reads i :
  0 <= i < numLegs s ->
  splitIdx s !! Z.to_nat i = Some (split_at s i) /\
  splitIdx s !! Z.to_nat (i + 1) = Some (split_at s (i + 1)) /\
  datas s !! Z.to_nat (split_at s i) = Some (factor_at s (split_at s i)) /\
  stages (problem s) !! Z.to_nat (split_at s i)
  = Some (knot_at s (split_at s i)) /\
  stages (problem s) !! Z.to_nat (split_at s (i + 1) - 1)
  = Some (knot_at s (split_at s (i + 1) - 1)).
Proof.
  intros Hi. destruct (split_at_range i Hi) as [Hr0 Hr1].
  split; [apply split_at_lookup; lia |].
  split; [apply split_at_lookup; lia |].
  split; [apply default_lookup; rewrite (ready_datas s Hready); lia |].
  split; apply default_lookup; lia.
Qed.

End ReadySolver.

Section AssembleLoops.
Context {Scalar : Type} `{ScalarOps Scalar}.
Variable s : ParallelRiccatiSolver Scalar.
Hypothesis Hready : solver_ready s.

#[local] Abbreviation L := (numLegs s).
#[local] Abbreviation M := (Z.of_nat (length (stages (problem s)))).

(** The loop "fill in for all legs". *)
Lemma assemble_legs_Ok (diag0 super0 : list (MatrixXs Scalar)) (dims0 : list Z) :
  length diag0 = Z.to_nat (2 * L) ->
  length super0 = Z.to_nat (2 * L - 1) ->
  length dims0 = 2%nat ->
  exists a,
    for_loop 0 (L - 1) (assemble_leg s) (mkAssembly diag0 super0 dims0) = Ok a /\
    length (asm_diagonal a) = Z.to_nat (2 * L) /\
    length (asm_superdiagonal a) = Z.to_nat (2 * L - 1) /\
    length (asm_dims a) = Z.to_nat (2 * L) /\
    (forall j, (j < 2)%nat ->
               asm_diagonal a !! j = diag0 !! j /\
               asm_superdiagonal a !! j = super0 !! j /\
               asm_dims a !! j = dims0 !! j) /\
    forall i, 0 <= i < L - 1 ->
              leg_assembled s (asm_diagonal a) (asm_superdiagonal a) (asm_dims a) i.
Proof.
  intros Hd0 Hs0 Hm0.
  pose proof (ready_legs s Hready) as HL.
  pose proof (ready_size s Hready) as HM.
  destruct (for_loop_inv (assemble_leg s)
    (fun i a =>
       length (asm_diagonal a) = Z.to_nat (2 * L) /\
       length (asm_superdiagonal a) = Z.to_nat (2 * L - 1) /\
       length (asm_dims a) = Z.to_nat (2 + 2 * i) /\
       (forall j, (j < 2)%nat ->
                  asm_diagonal a !! j = diag0 !! j /\
                  asm_superdiagonal a !! j = super0 !! j /\
                  asm_dims a !! j = dims0 !! j) /\
       forall i', 0 <= i' < i ->
         leg_assembled s (asm_diagonal a) (asm_superdiagonal a) (asm_dims a) i')
    0 (L - 1) (mkAssembly diag0 super0 dims0)) as (a & Ha & Hinv).
  - lia.
  - cbn. repeat split; try assumption; lia.
  - intros i a Hi (Hd & Hs & Hm & Hlow & Hlegs).
    pose proof (split_at_range s Hready i ltac:(lia)) as [Hr0 Hr1].
    pose proof (split_at_range s Hready (i + 1) ltac:(lia)) as [Hr2 Hr3].
    unfold assemble_leg. cbv zeta.
    rewrite (at_split s Hready i) by lia.
    rewrite (at_split s Hready (i + 1)) by lia. cbn [bind].
    rewrite (at_factor s Hready (split_at s i)) by lia. cbn [bind].
    rewrite set_at_Ok by lia. cbn [bind].
    rewrite (at_knot s (split_at s i)) by lia. cbn [bind].
    rewrite (uint_small (split_at s (i + 1) - 1)) by lia.
    rewrite (at_knot s (split_at s (i + 1) - 1)) by lia. cbn [bind].
    rewrite (at_factor s Hready (split_at s (i + 1))) by lia. cbn [bind].
    rewrite set_at_Ok by (rewrite length_insert; lia). cbn [bind].
    rewrite (at_knot s (split_at s (i + 1))) by lia. cbn [bind].
    rewrite set_at_Ok by lia. cbn [bind].
    set (vtt := Vtt (vm (factor_at s (split_at s i)))).
    set (pm := Pmat (vm (factor_at s (split_at s (i + 1))))).
    set (vxt := Vxt (vm (factor_at s (split_at s (i + 1))))).
    set (e := Knot.E (knot_at s (split_at s (i + 1)))).
    set (n0 := Knot.nx (knot_at s (split_at s i))).
    set (n1 := Knot.nth (knot_at s (split_at s (i + 1) - 1))).
    set (diag' := <[Z.to_nat (2 * (i + 1) + 1) := pm]>
                    (<[Z.to_nat (2 * (i + 1)) := vtt]> (asm_diagonal a))).
    set (super1 := <[Z.to_nat (2 * (i + 1)) := e]> (asm_superdiagonal a)).
    assert (Hsuper : exists super',
               (if i + 1 + 1 <? L
                then set_at super1 (2 * (i + 1) + 1) vxt else Ok super1)
               = Ok super' /\
               length super' = Z.to_nat (2 * L - 1) /\
               (forall j, j <> Z.to_nat (2 * (i + 1) + 1) ->
                          super' !! j = super1 !! j) /\
               (i + 2 < L -> super' !! Z.to_nat (2 * (i + 1) + 1) = Some vxt)).
    { destruct (i + 1 + 1 <? L) eqn:E.
      - apply Z.ltb_lt in E. exists (<[Z.to_nat (2 * (i + 1) + 1) := vxt]> super1).
        split; [apply set_at_Ok; subst super1; rewrite length_insert; lia |].
        split; [subst super1; rewrite !length_insert; exact Hs |].
        split; [intros j Hj; apply list_lookup_insert_ne; congruence |].
        intros _. apply list_lookup_insert_eq. subst super1.
        rewrite length_insert. lia.
      - apply Z.ltb_ge in E. exists super1. split; [reflexivity |].
        split; [subst super1; rewrite length_insert; exact Hs |].
        split; [reflexivity | intros; lia]. }
    destruct Hsuper as (super' & Hsup & Hslen & Hsne & Hseq).
    rewrite Hsup. cbn [bind].
    eexists. split; [reflexivity |]. cbn [asm_diagonal asm_superdiagonal asm_dims].
    split; [subst diag'; rewrite !length_insert; exact Hd |].
    split; [exact Hslen |].
    split; [rewrite length_app, Hm; cbn [length]; lia |].
    split.
    + intros j Hj. destruct (Hlow j Hj) as (Hl1 & Hl2 & Hl3).
      split; [| split].
      * subst diag'. rewrite !list_lookup_insert_ne by lia. exact Hl1.
      * rewrite Hsne by lia. subst super1. rewrite list_lookup_insert_ne by lia.
        exact Hl2.
      * rewrite lookup_app_l by lia. exact Hl3.
    + intros i' Hi'. destruct (Z.eq_dec i' i) as [-> | Hne].
      * unfold leg_assembled. repeat split.
        -- subst diag'. rewrite list_lookup_insert_ne by lia.
           apply list_lookup_insert_eq. lia.
        -- subst diag'. apply list_lookup_insert_eq. rewrite length_insert. lia.
        -- rewrite Hsne by lia. subst super1. apply list_lookup_insert_eq. lia.
        -- exact Hseq.
        -- rewrite lookup_app_r by lia.
           replace (Z.to_nat (2 * (i + 1)) - length (asm_dims a))%nat with 0%nat
             by lia. reflexivity.
        -- rewrite lookup_app_r by lia.
           replace (Z.to_nat (2 * (i + 1) + 1) - length (asm_dims a))%nat
             with 1%nat by lia. reflexivity.
      * destruct (Hlegs i' ltac:(lia)) as (H1 & H2 & H3 & H4 & H5 & H6).
        unfold leg_assembled. repeat split.
        -- subst diag'. rewrite !list_lookup_insert_ne by lia. exact H1.
        -- subst diag'. rewrite !list_lookup_insert_ne by lia. exact H2.
        -- rewrite Hsne by lia. subst super1.
           rewrite list_lookup_insert_ne by lia. exact H3.
        -- intros Hi2. rewrite Hsne by lia. subst super1.
           rewrite list_lookup_insert_ne by lia. exact (H4 Hi2).
        -- rewrite lookup_app_l by lia. exact H5.
        -- rewrite lookup_app_l by lia. exact H6.
  - destruct Hinv as (Hd & Hs & Hm & Hlow & Hlegs).
    exists a. split; [exact Ha |]. split; [exact Hd |]. split; [exact Hs |].
    split; [rewrite Hm; lia |]. split; [exact Hlow | exact Hlegs].
Qed.

(** The loop "fix sub diagonal". *)
Lemma fix_subdiagonal_Ok (super sub : list (MatrixXs Scalar)) :
  length sub = length super ->
  exists sub',
    for_loop 0 (Z.of_nat (length sub)) (fix_subdiagonal super) sub = Ok sub' /\
    length sub' = length sub /\
    forall i m, super !! i = Some m -> sub' !! i = Some (transpose m).
Proof.
  intros Hlen.
  destruct (for_loop_inv (fix_subdiagonal super)
    (fun j sub' =>
       length sub' = length sub /\
       forall i m, Z.of_nat i < j -> super !! i = Some m ->
                   sub' !! i = Some (transpose m))
    0 (Z.of_nat (length sub)) sub) as (sub' & Hsub' & Hl & Hall).
  - lia.
  - split; [reflexivity | intros; lia].
  - intros j t Hj [Hl Hall].
    destruct (lookup_lt_is_Some_2 super (Z.to_nat j)) as [m Hm]; [lia |].
    unfold fix_subdiagonal.
    rewrite (proj2 (at_Ok super j m)) by (split; [lia | exact Hm]). cbn [bind].
    rewrite set_at_Ok by lia.
    eexists. split; [reflexivity |]. split; [rewrite length_insert; exact Hl |].
    intros i m' Hi Hm'. destruct (Nat.eq_dec i (Z.to_nat j)) as [-> | Hne].
    + rewrite Hm in Hm'. injection Hm' as <-. apply list_lookup_insert_eq. lia.
    + rewrite list_lookup_insert_ne by congruence. apply Hall; [lia | exact Hm'].
  - exists sub'. split; [exact Hsub' |]. split; [exact Hl |].
    intros i m Hm. apply Hall; [| exact Hm]. apply lookup_lt_Some in Hm. lia.
Qed.

Lemma blk_set_Ok (v : BlkVec Scalar) (i n : Z) (x : VectorXs Scalar) :
  0 <= i -> blk_dims v !! Z.to_nat i = Some n ->
  Z.of_nat (length x) = n -> length (blocks v) = length (blk_dims v) ->
  blk_set v i x = Ok (mkBlkVec (blk_dims v) (<[Z.to_nat i := x]> (blocks v))).
Proof.
  intros Hi Hn Hx Hlen. unfold blk_set.
  rewrite (proj2 (at_Ok (blk_dims v) i n)) by (split; [exact Hi | exact Hn]).
  cbn [bind]. rewrite Hx, Z.eqb_refl. cbn [assert_ bind].
  apply lookup_lt_Some in Hn. rewrite set_at_Ok by lia. reflexivity.
Qed.

Hypothesis Hdims : rhs_dims_agree s.

Lemma first_dims_agree :
  Z.of_nat (length (pvec (vm (factor_at s 0)))) = Knot.nx (knot_at s 0).
Proof.
  destruct Hdims as [H0 _].
  pose proof (split_at_range s Hready 0 ltac:(pose proof (ready_legs s Hready); lia))
    as [Hr0 Hr1].
  apply H0; apply default_lookup; [rewrite (ready_datas s Hready) |]; lia.
Qed.

Lemma leg_dims_agree i :
  0 <= i < L - 1 ->
  Z.of_nat (length (vt (vm (factor_at s (split_at s i)))))
  = Knot.nx (knot_at s (split_at s i)) /\
  Z.of_nat (length (pvec (vm (factor_at s (split_at s (i + 1))))))
  = Knot.nth (knot_at s (split_at s (i + 1) - 1)).
Proof.
  intros Hi. destruct Hdims as [_ Hlegs].
  pose proof (split_at_range s Hready i ltac:(lia)) as [Hr0 Hr1].
  pose proof (split_at_range s Hready (i + 1) ltac:(lia)) as [Hr2 Hr3].
  apply (Hlegs i (split_at s i) (split_at s (i + 1))); try exact Hi;
    try (apply split_at_lookup; [exact Hready | lia]);
    apply default_lookup; try rewrite (ready_datas s Hready); lia.
Qed.

(** The loop that fills the right-hand side. *)
Lemma assemble_rhs_Ok (rhs0 : BlkVec Scalar) :
  length (blk_dims rhs0) = Z.to_nat (2 * L) ->
  length (blocks rhs0) = Z.to_nat (2 * L) ->
  (forall i, 0 <= i < L - 1 ->
     blk_dims rhs0 !! Z.to_nat (2 * (i + 1))
     = Some (Knot.nx (knot_at s (split_at s i))) /\
     blk_dims rhs0 !! Z.to_nat (2 * (i + 1) + 1)
     = Some (Knot.nth (knot_at s (split_at s (i + 1) - 1)))) ->
  exists rhs,
    for_loop 0 (L - 1) (assemble_rhs_leg s) rhs0 = Ok rhs /\
    blk_dims rhs = blk_dims rhs0 /\
    length (blocks rhs) = Z.to_nat (2 * L) /\
    (forall j, (j < 2)%nat -> blocks rhs !! j = blocks rhs0 !! j) /\
    forall i, 0 <= i < L - 1 ->
      blocks rhs !! Z.to_nat (2 * (i + 1))
      = Some (vt (vm (factor_at s (split_at s i)))) /\
      blocks rhs !! Z.to_nat (2 * (i + 1) + 1)
      = Some (pvec (vm (factor_at s (split_at s (i + 1))))).
Proof.
  intros Hdl Hbl Hdim.
  pose proof (ready_legs s Hready) as HL.
  destruct (for_loop_inv (assemble_rhs_leg s)
    (fun i rhs =>
       blk_dims rhs = blk_dims rhs0 /\
       length (blocks rhs) = Z.to_nat (2 * L) /\
       (forall j, (j < 2)%nat -> blocks rhs !! j = blocks rhs0 !! j) /\
       forall i', 0 <= i' < i ->
         blocks rhs !! Z.to_nat (2 * (i' + 1))
         = Some (vt (vm (factor_at s (split_at s i')))) /\
         blocks rhs !! Z.to_nat (2 * (i' + 1) + 1)
         = Some (pvec (vm (factor_at s (split_at s (i' + 1))))))
    0 (L - 1) rhs0) as (rhs & Hrhs & Hinv).
  - lia.
  - repeat split; try assumption; lia.
  - intros i rhs Hi (Hd & Hb & Hlow & Hlegs).
    pose proof (split_at_range s Hready i ltac:(lia)) as [Hr0 Hr1].
    pose proof (split_at_range s Hready (i + 1) ltac:(lia)) as [Hr2 Hr3].
    destruct (leg_dims_agree i Hi) as [Hvt Hpv].
    destruct (Hdim i Hi) as [Hd0 Hd1].
    unfold assemble_rhs_leg. cbv zeta.
    rewrite (at_split s Hready i) by lia.
    rewrite (at_split s Hready (i + 1)) by lia. cbn [bind].
    rewrite (at_factor s Hready (split_at s i)) by lia. cbn [bind].
    rewrite (blk_set_Ok rhs (2 * (i + 1)) (Knot.nx (knot_at s (split_at s i))));
      [| lia | rewrite Hd; exact Hd0 | exact Hvt | rewrite Hd; lia].
    cbn [bind].
    rewrite (at_factor s Hready (split_at s (i + 1))) by lia. cbn [bind].
    rewrite (blk_set_Ok _ (2 * (i + 1) + 1)
               (Knot.nth (knot_at s (split_at s (i + 1) - 1))));
      [| lia | cbn [blk_dims]; rewrite Hd; exact Hd1 | exact Hpv
       | cbn [blk_dims blocks]; rewrite length_insert, Hd; lia].
    eexists. split; [reflexivity |]. cbn [blk_dims blocks].
    split; [exact Hd |]. split; [rewrite !length_insert; exact Hb |]. split.
    + intros j Hj. rewrite !list_lookup_insert_ne by lia. apply Hlow. exact Hj.
    + intros i' Hi'. destruct (Z.eq_dec i' i) as [-> | Hne].
      * split.
        -- rewrite list_lookup_insert_ne by lia. apply list_lookup_insert_eq. lia.
        -- apply list_lookup_insert_eq. rewrite length_insert. lia.
      * destruct (Hlegs i' ltac:(lia)) as [H1 H2].
        rewrite !list_lookup_insert_ne by lia. split; assumption.
  - exists rhs. split; [exact Hrhs | exact Hinv].
Qed.

End AssembleLoops.

Section AssembleClaim.
Context {Scalar : Type} `{ScalarOps Scalar}.

(** [assembleCondensedSystem] returns on a ready solver of at least two
    legs, and what it leaves, block by block; [rhs] is the right-hand side
    before its sign is changed. *)
Lemma assembleCondensedSystem_Ok (mudyn : Scalar)
  (s : ParallelRiccatiSolver Scalar) :
  solver_ready s -> 2 <= numLegs s -> rhs_dims_agree s ->
  exists s',
    assembleCondensedSystem mudyn s = Ok s' /\
    length (diagonal (condensedKktSystem s')) = Z.to_nat (2 * numLegs s) /\
    length (superdiagonal (condensedKktSystem s')) = Z.to_nat (2 * numLegs s - 1) /\
    length (subdiagonal (condensedKktSystem s')) = Z.to_nat (2 * numLegs s - 1) /\
    datas s !! 0%nat = Some (factor_at s 0) /\
    (forall i, 0 <= i < numLegs s ->
       splitIdx s !! Z.to_nat i = Some (split_at s i) /\
       splitIdx s !! Z.to_nat (i + 1) = Some (split_at s (i + 1)) /\
       datas s !! Z.to_nat (split_at s i) = Some (factor_at s (split_at s i)) /\
       stages (problem s) !! Z.to_nat (split_at s i)
       = Some (knot_at s (split_at s i)) /\
       stages (problem s) !! Z.to_nat (split_at s (i + 1) - 1)
       = Some (knot_at s (split_at s (i + 1) - 1))) /\
    diagonal (condensedKktSystem s') !! 0%nat
    = Some (scale (sopp mudyn)
              (Identity (Z.to_nat (nc0 (problem s))) (Z.to_nat (nc0 (problem s))))) /\
    superdiagonal (condensedKktSystem s') !! 0%nat = Some (G0 (problem s)) /\
    diagonal (condensedKktSystem s') !! 1%nat = Some (Pmat (vm (factor_at s 0))) /\
    superdiagonal (condensedKktSystem s') !! 1%nat
    = Some (Vxt (vm (factor_at s 0))) /\
    (forall i, 0 <= i < numLegs s - 1 ->
               leg_assembled s (diagonal (condensedKktSystem s'))
                 (superdiagonal (condensedKktSystem s'))
                 (blk_dims (condensedKktRhs s')) i) /\
    (forall i m, superdiagonal (condensedKktSystem s') !! i = Some m ->
                 subdiagonal (condensedKktSystem s') !! i = Some (transpose m)) /\
    (exists rhs,
        condensedKktRhs s' = blk_scale_right (sopp sone) rhs /\
        length (blocks rhs) = Z.to_nat (2 * numLegs s) /\
        blocks rhs !! 0%nat = Some (g0 (problem s)) /\
        blocks rhs !! 1%nat = Some (pvec (vm (factor_at s 0))) /\
        forall i, 0 <= i < numLegs s - 1 ->
          blocks rhs !! Z.to_nat (2 * (i + 1))
          = Some (vt (vm (factor_at s (split_at s i)))) /\
          blocks rhs !! Z.to_nat (2 * (i + 1) + 1)
          = Some (pvec (vm (factor_at s (split_at s (i + 1)))))) /\
    datas s' = datas s /\ problem s' = problem s /\
    splitIdx s' = splitIdx s /\ numLegs s' = numLegs s.
Proof.
  intros Hready HL Hdims.
  pose proof (ready_nowrap s Hready) as Hw.
  pose proof (ready_nc0 s Hready) as Hg0.
  pose proof (split_at_range s Hready 0 ltac:(lia)) as [Hr0 Hr1].
  rewrite (split_at_first s Hready) in Hr0.
  unfold assembleCondensedSystem. cbv zeta.
  rewrite (uint_small (2 * numLegs s - 1)), (uint_small (2 * numLegs s)),
    (uint_small (numLegs s - 1)) by lia.
  set (sub0 := resize_vec (2 * numLegs s - 1) empty_matrix
                 (subdiagonal (condensedKktSystem s))).
  set (diag0 := resize_vec (2 * numLegs s) empty_matrix
                  (diagonal (condensedKktSystem s))).
  set (super0 := resize_vec (2 * numLegs s - 1) empty_matrix
                   (superdiagonal (condensedKktSystem s))).
  assert (Hsub0 : length sub0 = Z.to_nat (2 * numLegs s - 1))
    by apply length_resize_vec.
  assert (Hdiag0 : length diag0 = Z.to_nat (2 * numLegs s))
    by apply length_resize_vec.
  assert (Hsuper0 : length super0 = Z.to_nat (2 * numLegs s - 1))
    by apply length_resize_vec.
  set (D0 := scale (sopp mudyn)
               (Identity (Z.to_nat (nc0 (problem s))) (Z.to_nat (nc0 (problem s))))).
  rewrite set_at_Ok by lia. cbn [bind].
  rewrite set_at_Ok by lia. cbn [bind].
  rewrite (at_factor s Hready 0) by lia. cbn [bind].
  rewrite set_at_Ok by (rewrite length_insert; lia). cbn [bind].
  rewrite set_at_Ok by (rewrite length_insert; lia). cbn [bind].
  rewrite (at_knot s 0) by lia. cbn [bind].
  change (Z.to_nat 0) with 0%nat. change (Z.to_nat 1) with 1%nat.
  set (diag1 := <[1%nat := Pmat (vm (factor_at s 0))]> (<[0%nat := D0]> diag0)).
  set (super1 := <[1%nat := Vxt (vm (factor_at s 0))]>
                   (<[0%nat := G0 (problem s)]> super0)).
  set (dims1 := [nc0 (problem s); Knot.nx (knot_at s 0)]).
  destruct (assemble_legs_Ok s Hready diag1 super1 dims1)
    as (a & Ha & Had & Has & Ham & Hlow & Hlegs).
  { subst diag1. rewrite !length_insert. exact Hdiag0. }
  { subst super1. rewrite !length_insert. exact Hsuper0. }
  { reflexivity. }
  rewrite Ha. cbn [bind].
  destruct (fix_subdiagonal_Ok (asm_superdiagonal a) sub0) as (sub & Hsub & Hsl & Hst);
    [congruence |].
  rewrite Hsub. cbn [bind].
  rewrite Ham, Had, Z.eqb_refl. cbn [assert_ bind].
  assert (Hnc0 : Z.of_nat (length (g0 (problem s))) = nc0 (problem s)).
  { unfold nc0. symmetry. apply uint_small. lia. }
  destruct (Hlow 0%nat ltac:(lia)) as (Hd_0 & Hs_0 & Hm_0).
  destruct (Hlow 1%nat ltac:(lia)) as (Hd_1 & Hs_1 & Hm_1).
  assert (Hmk : length (blocks (BlkVec_make (asm_dims a)))
                = length (blk_dims (BlkVec_make (asm_dims a)))).
  { cbn. apply length_map. }
  rewrite (blk_set_Ok (BlkVec_make (asm_dims a)) 0 (nc0 (problem s)));
    [| lia | cbn [BlkVec_make blk_dims]; exact Hm_0 | exact Hnc0 | exact Hmk].
  cbn [bind].
  rewrite (blk_set_Ok _ 1 (Knot.nx (knot_at s 0)));
    [| lia | cbn [BlkVec_make blk_dims]; exact Hm_1
     | apply (first_dims_agree s Hready Hdims)
     | cbn [BlkVec_make blk_dims blocks]; rewrite length_insert, length_map;
       reflexivity].
  cbn [bind BlkVec_make blk_dims blocks].
  change (Z.to_nat 0) with 0%nat. change (Z.to_nat 1) with 1%nat.
  set (blocks1 := <[1%nat := pvec (vm (factor_at s 0))]>
                    (<[0%nat := g0 (problem s)]>
                       (map (fun n => vZero (Z.to_nat n)) (asm_dims a)))).
  destruct (assemble_rhs_Ok s Hready Hdims (mkBlkVec (asm_dims a) blocks1))
    as (rhs & Hrhs & Hrd & Hrl & Hrlow & Hrlegs).
  { exact Ham. }
  { subst blocks1. cbn [blocks]. rewrite !length_insert, length_map. exact Ham. }
  { intros i Hi. destruct (Hlegs i Hi) as (_ & _ & _ & _ & H5 & H6).
    split; assumption. }
  rewrite Hrhs. cbn [bind].
  eexists. split; [reflexivity |].
  cbn [set_condensed condensedKktSystem condensedKktRhs diagonal superdiagonal
         subdiagonal datas problem splitIdx numLegs].
  split; [exact Had |]. split; [exact Has |]. split; [congruence |].
  split; [apply default_lookup; rewrite (ready_datas s Hready); lia |].
  split; [exact (ready_reads s Hready) |].
  split; [rewrite Hd_0; subst diag1; rewrite list_lookup_insert_ne by lia;
          apply list_lookup_insert_eq; lia |].
  split; [rewrite Hs_0; subst super1; rewrite list_lookup_insert_ne by lia;
          apply list_lookup_insert_eq; lia |].
  split; [rewrite Hd_1; subst diag1; apply list_lookup_insert_eq;
          rewrite length_insert; lia |].
  split; [rewrite Hs_1; subst super1; apply list_lookup_insert_eq;
          rewrite length_insert; lia |].
  split; [intros i Hi; cbn [blk_scale_right blk_dims]; rewrite Hrd;
          exact (Hlegs i Hi) |].
  split; [exact Hst |].
  split; [| repeat split].
  exists rhs. split; [reflexivity |]. split; [exact Hrl |].
  split.
  { rewrite (Hrlow 0%nat) by lia. subst blocks1. cbn [blocks].
    rewrite list_lookup_insert_ne by lia.
    apply list_lookup_insert_eq. rewrite length_map. lia. }
  split.
  { rewrite (Hrlow 1%nat) by lia. subst blocks1. cbn [blocks].
    apply list_lookup_insert_eq. rewrite length_insert, length_map. lia. }
  exact Hrlegs.
Qed.

(** C3.  On a solver that is ready ([checkIndices()] holds), of at least two
    legs, and whose right-hand side vectors have the sizes of their segments,
    [assembleCondensedSystem(mudyn)]
    returns, and leaves a system of [2 * numLegs] diagonal blocks and
    [2 * numLegs - 1] super- and subdiagonal blocks with
    [diagonal[0] = -mudyn * Identity(nc0, nc0)], [superdiagonal[0] = G0],
    [diagonal[1] = datas[0].vm.Pmat], [superdiagonal[1] = datas[0].vm.Vxt],
    for each leg but the last the blocks [Vtt], [Pmat], [E] and [Vxt] of the
    spec, every subdiagonal block the transpose of the superdiagonal block of
    its index, and the right-hand side the interleaved vectors
    [(g0, p0, vt, p, ...)], each coefficient multiplied by [-1].  It writes
    nothing else.  ([split_at], [factor_at] and [knot_at] read [splitIdx],
    [datas] and [problem.stages]: inside these vectors, as the theorem
    says.) *)
Theorem assembleCondensedSystem_blocks (mudyn : Scalar)
  (s : ParallelRiccatiSolver Scalar) :
  solver_ready s -> 2 <= numLegs s -> rhs_dims_agree s ->
  exists s',
    assembleCondensedSystem mudyn s = Ok s' /\
    length (diagonal (condensedKktSystem s')) = Z.to_nat (2 * numLegs s) /\
    length (superdiagonal (condensedKktSystem s')) = Z.to_nat (2 * numLegs s - 1) /\
    length (subdiagonal (condensedKktSystem s')) = Z.to_nat (2 * numLegs s - 1) /\
    datas s !! 0%nat = Some (factor_at s 0) /\
    (forall i, 0 <= i < numLegs s ->
       splitIdx s !! Z.to_nat i = Some (split_at s i) /\
       splitIdx s !! Z.to_nat (i + 1) = Some (split_at s (i + 1)) /\
       datas s !! Z.to_nat (split_at s i) = Some (factor_at s (split_at s i)) /\
       stages (problem s) !! Z.to_nat (split_at s i)
       = Some (knot_at s (split_at s i)) /\
       stages (problem s) !! Z.to_nat (split_at s (i + 1) - 1)
       = Some (knot_at s (split_at s (i + 1) - 1))) /\
    diagonal (condensedKktSystem s') !! 0%nat
    = Some (scale (sopp mudyn)
              (Identity (Z.to_nat (nc0 (problem s))) (Z.to_nat (nc0 (problem s))))) /\
    superdiagonal (condensedKktSystem s') !! 0%nat = Some (G0 (problem s)) /\
    diagonal (condensedKktSystem s') !! 1%nat = Some (Pmat (vm (factor_at s 0))) /\
    superdiagonal (condensedKktSystem s') !! 1%nat
    = Some (Vxt (vm (factor_at s 0))) /\
    (forall i, 0 <= i < numLegs s - 1 ->
               leg_assembled s (diagonal (condensedKktSystem s'))
                 (superdiagonal (condensedKktSystem s'))
                 (blk_dims (condensedKktRhs s')) i) /\
    (forall i m, superdiagonal (condensedKktSystem s') !! i = Some m ->
                 subdiagonal (condensedKktSystem s') !! i = Some (transpose m)) /\
    blocks (condensedKktRhs s')
    = map (vscale_right (sopp sone)) (interleaved_rhs s) /\
    datas s' = datas s /\ problem s' = problem s /\
    splitIdx s' = splitIdx s /\ numLegs s' = numLegs s.
Proof.
  intros Hready HL Hdims.
  destruct (assembleCondensedSystem_Ok mudyn s Hready HL Hdims)
    as (s' & Hs' & Hd & Hsp & Hsb & Hf0 & Hreads & Hd0 & Hs0 & Hd1 & Hs1 & Hlegs
        & Hsub & (rhs & Hrhs & Hrl & Hr0 & Hr1 & Hrlegs) & Hframe).
  exists s'. repeat (split; [assumption |]). split; [| exact Hframe].
  rewrite Hrhs. cbn [blk_scale_right blocks]. f_equal.
  apply (list_eq_same_length _ _ (Z.to_nat (2 * numLegs s))).
  - unfold interleaved_rhs. cbn [length].
    rewrite length_flat_map_pair, length_seq. lia.
  - exact Hrl.
  - intros j x y Hj Hx Hy.
    assert (Hxy : blocks rhs !! j = interleaved_rhs s !! j); [| congruence].
    clear x y Hx Hy. unfold interleaved_rhs.
    destruct j as [|[|j]]; [exact Hr0 | exact Hr1 |].
    rewrite !lookup_cons.
    destruct (Nat.Even_or_Odd j) as [[k ->] | [k ->]].
    + destruct (lookup_flat_map_pair
                  (fun i : nat => vt (vm (factor_at s (split_at s (Z.of_nat i)))))
                  (fun i : nat =>
                     pvec (vm (factor_at s (split_at s (Z.of_nat i + 1)))))
                  (seq 0 (Z.to_nat (numLegs s - 1))) k) as [He _].
      rewrite He, lookup_seq_lt by lia. cbn [fmap option_fmap option_map].
      destruct (Hrlegs (Z.of_nat k) ltac:(lia)) as [H1 _].
      replace (S (S (2 * k))) with (Z.to_nat (2 * (Z.of_nat k + 1))) by lia.
      exact H1.
    + destruct (lookup_flat_map_pair
                  (fun i : nat => vt (vm (factor_at s (split_at s (Z.of_nat i)))))
                  (fun i : nat =>
                     pvec (vm (factor_at s (split_at s (Z.of_nat i + 1)))))
                  (seq 0 (Z.to_nat (numLegs s - 1))) k) as [_ Ho].
      rewrite Ho, lookup_seq_lt by lia. cbn [fmap option_fmap option_map].
      destruct (Hrlegs (Z.of_nat k) ltac:(lia)) as [_ H2].
      replace (S (S (2 * k + 1))) with (Z.to_nat (2 * (Z.of_nat k + 1) + 1))
        by lia.
      exact H2.
Qed.

End AssembleClaim.

Lemma ready_solver_ready : solver_ready ready_solver.
Proof. constructor; by_eval. Qed.

Lemma ready_solver_dims : rhs_dims_agree ready_solver.
Proof.
  split.
  - intros d0 k0 Hd Hk. vm_compute in Hd, Hk.
    injection Hd as <-. injection Hk as <-. reflexivity.
  - intros i i0 i1 d0 d1 k0 k1m Hi.
    change (numLegs ready_solver - 1) with 1 in Hi.
    assert (i = 0) by lia. subst i.
    intros H0 H1. vm_compute in H0, H1. injection H0 as <-. injection H1 as <-.
    intros Hd0 Hd1 Hk0 Hk1. vm_compute in Hd0, Hd1, Hk0, Hk1.
    injection Hd0 as <-. injection Hd1 as <-.
    injection Hk0 as <-. injection Hk1 as <-.
    split; reflexivity.
Qed.

(** C3 on [ready_solver]. *)
Lemma assembleCondensedSystem_blocks_witness :
  exists s',
    assembleCondensedSystem 3 ready_solver = Ok s' /\
    length (diagonal (condensedKktSystem s')) = 4%nat /\
    diagonal (condensedKktSystem s') !! 0%nat
    = Some (scale (sopp 3) (Identity 2 2)) /\
    superdiagonal (condensedKktSystem s') !! 0%nat
    = Some (G0 (problem ready_solver)) /\
    diagonal (condensedKktSystem s') !! 1%nat
    = Some (Pmat (vm (factor_at ready_solver 0))) /\
    superdiagonal (condensedKktSystem s') !! 1%nat
    = Some (Vxt (vm (factor_at ready_solver 0))) /\
    (forall i m, superdiagonal (condensedKktSystem s') !! i = Some m ->
                 subdiagonal (condensedKktSystem s') !! i = Some (transpose m)) /\
    blocks (condensedKktRhs s')
    = map (vscale_right (sopp sone)) (interleaved_rhs ready_solver).
Proof.
  destruct (assembleCondensedSystem_blocks 3 ready_solver ready_solver_ready
              ltac:(by_eval) ready_solver_dims)
    as (s' & Hs' & Hd & _ & _ & _ & _ & Hd0 & Hs0 & Hd1 & Hs1 & _ & Hsub & Hrhs
        & _).
  exists s'. repeat (split; [assumption |]). exact Hrhs.
Defined.

(** The system assembled on [ready_solver] with [mudyn = 3]: the diagonal
    [-3 I, P(0), Vtt(0), P(2)], the superdiagonal [G0, Vxt(0), E(2)], the
    subdiagonal of its transposes, and the right-hand side
    [-g0, -p(0), -vt(0), -p(2)]. *)
Example assembleCondensedSystem_example :
  (let* s := assembleCondensedSystem 3 ready_solver in
   Ok (map coeffs (diagonal (condensedKktSystem s)),
       map coeffs (superdiagonal (condensedKktSystem s)),
       map coeffs (subdiagonal (condensedKktSystem s)),
       blocks (condensedKktRhs s)))
  = Ok ([[[-3; 0]; [0; -3]]; [[1; 0]; [0; 1]]; [[-1; 0]; [0; -1]];
         [[3; 0]; [0; 3]]],
        [[[1; 0]; [0; 1]]; [[1; 2]; [3; 4]]; [[-1; 0]; [0; -1]]],
        [[[1; 0]; [0; 1]]; [[1; 3]; [2; 4]]; [[-1; 0]; [0; -1]]],
        [[1; 1]; [-1; -2]; [-10; -11]; [-3; -4]]).
Proof. vm_compute. reflexivity. Qed.

(** At doubles the first diagonal block has negative zeros off its diagonal:
    no law of a ring is assumed of the scalars. *)
Example first_diagonal_block_at_doubles :
  coeffs (scale (sopp 3%float) (Identity 2 2))
  = [[(-3)%float; (-0)%float]; [(-0)%float; (-3)%float]].
Proof. vm_compute. reflexivity. Qed.

(** ** [backward] *)

Section BackwardClaim.
Context {Scalar : Type} `{ScalarOps Scalar}.
Variable backwardImpl :
  list (Knot.LQRKnotTpl Scalar) -> Scalar -> Scalar ->
  list (StageFactor Scalar) -> bool * list (StageFactor Scalar).
Variable symmetric_block_tridiagonal_solve :
  condensed_system_t Scalar -> BlkVec Scalar ->
  bool * (condensed_system_t Scalar * BlkVec Scalar).

Lemma solver_ready_shape (s t : ParallelRiccatiSolver Scalar) :
  solver_ready s -> same_shape s t -> solver_ready t.
Proof.
  intros [H1 H2 H3 H4 H5 H6 H7 H8] (E1 & E2 & E3 & _ & _ & E6).
  constructor; rewrite ?E1, ?E2, ?E3, ?E6; try assumption.
  unfold checkIndices in *. rewrite E1, E2. exact H4.
Qed.

(** The loop of [backward] over the legs runs on a ready solver, when the
    kernel writes in place. *)
Lemma backward_legs_Ok (mudyn mueq : Scalar) (s : ParallelRiccatiSolver Scalar) :
  solver_ready s ->
  (forall stview a b dtview,
      length (snd (backwardImpl stview a b dtview)) = length dtview) ->
  exists st,
    for_loop 0 (numLegs s) (backward_leg backwardImpl mudyn mueq) (true, s)
    = Ok st /\
    same_shape s (snd st).
Proof.
  intros Hready Hlen.
  pose proof (ready_legs s Hready) as HL.
  pose proof (ready_nowrap s Hready) as Hw.
  destruct (for_loop_inv (backward_leg backwardImpl mudyn mueq)
              (fun _ st => same_shape s (snd st))
              0 (numLegs s) (true, s)) as (st & Hst & Hinv).
  - lia.
  - repeat split.
  - intros i [ret t] Hi (E1 & E2 & E3 & E4 & E5 & E6). cbn [snd] in *.
    pose proof (split_at_range s Hready i Hi) as [Hr0 Hr1].
    unfold backward_leg. cbn [fst snd].
    rewrite E2, E3.
    rewrite (at_split s Hready i) by lia.
    rewrite (uint_small (i + 1)) by lia.
    rewrite (at_split s Hready (i + 1)) by lia. cbn [bind].
    rewrite make_span_Ok by lia. cbn [bind].
    rewrite make_span_Ok by (rewrite ?E6, ?(ready_datas s Hready); lia).
    cbn [bind].
    eexists. split; [reflexivity |]. cbn [snd].
    repeat split; cbn; try assumption.
    rewrite length_write_span; [exact E6 |].
    rewrite Hlen, length_span by (rewrite ?E6, ?(ready_datas s Hready); lia).
    rewrite E6, (ready_datas s Hready). lia.
  - exists st. split; [exact Hst | exact Hinv].
Qed.

(** With one leg, [superdiagonal] has one block, and
    [superdiagonal[1] = datas[0].vm.Vxt] is outside it. *)
Lemma assembleCondensedSystem_single_leg (mudyn : Scalar)
  (s : ParallelRiccatiSolver Scalar) :
  numLegs s = 1 -> assembleCondensedSystem mudyn s = Fault OutOfRange.
Proof.
  intros HL. unfold assembleCondensedSystem. cbv zeta. rewrite HL.
  change (uint (2 * 1 - 1)) with 1. change (uint (2 * 1)) with 2.
  rewrite set_at_Ok by (rewrite length_resize_vec; lia). cbn [bind].
  rewrite set_at_Ok by (rewrite length_resize_vec; lia). cbn [bind].
  destruct (at_ (datas s) 0) as [d0 | e] eqn:Hd0.
  - cbn [bind].
    rewrite set_at_Ok by (rewrite length_insert, length_resize_vec; lia).
    cbn [bind].
    rewrite set_at_out_of_range; [reflexivity |].
    rewrite length_insert, length_resize_vec. lia.
  - apply at_fault in Hd0. subst e. reflexivity.
Qed.

Lemma backward_leg_fault (mudyn mueq : Scalar) i st e :
  backward_leg backwardImpl mudyn mueq i st = Fault e -> e = OutOfRange.
Proof.
  unfold backward_leg.
  destruct (at_ (splitIdx (snd st)) i) eqn:E1; cbn [bind];
    [| intros [= <-]; exact (at_fault _ _ _ E1)].
  destruct (at_ (splitIdx (snd st)) (uint (i + 1))) eqn:E2; cbn [bind];
    [| intros [= <-]; exact (at_fault _ _ _ E2)].
  destruct (make_span_from_indices (stages (problem (snd st))) a a0) eqn:E3;
    cbn [bind]; [| intros [= <-]; exact (make_span_fault _ _ _ _ E3)].
  destruct (make_span_from_indices (datas (snd st)) a a0) eqn:E4;
    cbn [bind]; [| intros [= <-]; exact (make_span_fault _ _ _ _ E4)].
  discriminate.
Qed.

Lemma backward_leg_numLegs (mudyn mueq : Scalar) i st st' :
  backward_leg backwardImpl mudyn mueq i st = Ok st' ->
  numLegs (snd st') = numLegs (snd st).
Proof.
  unfold backward_leg. intros Hrun.
  apply bind_Ok in Hrun as (i0 & _ & Hrun).
  apply bind_Ok in Hrun as (i1 & _ & Hrun).
  apply bind_Ok in Hrun as (stv & _ & Hrun).
  apply bind_Ok in Hrun as (dtv & _ & Hrun).
  injection Hrun as <-. reflexivity.
Qed.

(** So [backward] on a solver of one leg is that fault, whether the leg runs
    or not. *)
Lemma backward_single_leg (mudyn mueq : Scalar)
  (s : ParallelRiccatiSolver Scalar) :
  numLegs s = 1 ->
  backward backwardImpl symmetric_block_tridiagonal_solve mudyn mueq s
  = Fault OutOfRange.
Proof.
  intros HL. unfold backward. rewrite HL.
  unfold for_loop. change (Z.to_nat (1 - 0)) with 1%nat. cbn [for_range].
  destruct (backward_leg backwardImpl mudyn mueq 0 (true, s)) as [st | e] eqn:Hleg.
  - cbn [bind]. rewrite assembleCondensedSystem_single_leg; [reflexivity |].
    rewrite (backward_leg_numLegs _ _ _ _ _ Hleg). exact HL.
  - apply backward_leg_fault in Hleg. subst e. reflexivity.
Qed.

(** C1.  Whatever the Riccati kernel and the block-tridiagonal solve are,
    what [backward(mudyn, mueq)] returns is [true]: the flag that the legs
    reduce to and the flag of the solve are dropped.  When the loop over the
    legs and the assembly of the condensed system run, [backward] returns
    (true), whatever those two flags are; and they run on a ready solver of
    at least two legs, when the kernel writes in place and leaves vectors of
    the sizes of the segments of the right-hand side. *)
Theorem backward_returns_true (mudyn mueq : Scalar)
  (s : ParallelRiccatiSolver Scalar) :
  (forall out,
      backward backwardImpl symmetric_block_tridiagonal_solve mudyn mueq s
      = Ok out ->
      fst out = true) /\
  (forall st s2,
      for_loop 0 (numLegs s) (backward_leg backwardImpl mudyn mueq) (true, s)
      = Ok st ->
      assembleCondensedSystem mudyn (snd st) = Ok s2 ->
      exists s',
        backward backwardImpl symmetric_block_tridiagonal_solve mudyn mueq s
        = Ok (true, s') /\
        s' = set_condensed
               (fst (snd (symmetric_block_tridiagonal_solve
                            (condensedKktSystem s2) (condensedKktRhs s2))))
               (snd (snd (symmetric_block_tridiagonal_solve
                            (condensedKktSystem s2) (condensedKktRhs s2))))
               s2) /\
  (solver_ready s -> 2 <= numLegs s ->
   (forall stview a b dtview,
       length (snd (backwardImpl stview a b dtview)) = length dtview) ->
   (forall st,
       for_loop 0 (numLegs s) (backward_leg backwardImpl mudyn mueq) (true, s)
       = Ok st ->
       rhs_dims_agree (snd st)) ->
   exists s',
     backward backwardImpl symmetric_block_tridiagonal_solve mudyn mueq s
     = Ok (true, s')).
Proof.
  split; [| split].
  - intros out Hrun. unfold backward in Hrun.
    apply bind_Ok in Hrun as (st & _ & Hrun).
    apply bind_Ok in Hrun as (s2 & _ & Hrun).
    injection Hrun as <-. reflexivity.
  - intros st s2 Hlegs Hasm. unfold backward.
    rewrite Hlegs. cbn [bind]. rewrite Hasm. cbn [bind].
    eexists. split; reflexivity.
  - intros Hready HL Hlen Hdims.
    destruct (backward_legs_Ok mudyn mueq s Hready Hlen) as (st & Hst & Hshape).
    pose proof (solver_ready_shape s (snd st) Hready Hshape) as Hready'.
    destruct (assembleCondensedSystem_Ok mudyn (snd st) Hready'
                ltac:(destruct Hshape as [-> _]; exact HL) (Hdims st Hst))
      as (s2 & Hs2 & _).
    unfold backward. rewrite Hst. cbn [bind]. rewrite Hs2. cbn [bind].
    eexists. reflexivity.
Qed.

End BackwardClaim.

(** C1 on [ready_solver], with a kernel that fails on both legs and a solve
    that reports failure. *)
Lemma backward_returns_true_witness :
  exists s',
    backward failing_backwardImpl failing_solve 3 5 ready_solver = Ok (true, s').
Proof.
  edestruct (proj1 (proj2 (backward_returns_true failing_backwardImpl
                               failing_solve 3 5 ready_solver)))
    as (s' & Hs' & _).
  - vm_compute. reflexivity.
  - vm_compute. reflexivity.
  - exists s'. exact Hs'.
Defined.

(** C1 as it is stated, for every leg count, fails on a solver of one leg.
    The constructor builds it (on two knots its split indices are [0, 2] and
    [checkIndices()] holds), but [backward] does not return on it, whatever
    the kernel and the solve are: [assembleCondensedSystem] resizes
    [superdiagonal] to [2 * numLegs - 1 = 1] block and then assigns
    [superdiagonal[1]], outside the vector. *)
Lemma backward_on_a_single_leg :
  exists s,
    ParallelRiccatiSolver_make (example_problem 2) 1 = Ok s /\
    numLegs s = 1 /\
    splitIdx s = [0; 2] /\
    checkIndices s = Ok true /\
    (forall backwardImpl symmetric_block_tridiagonal_solve mudyn mueq,
        backward backwardImpl symmetric_block_tridiagonal_solve mudyn mueq s
        = Fault OutOfRange) /\
    ~ (exists s',
          backward failing_backwardImpl failing_solve 3 5 s = Ok (true, s')).
Proof.
  assert (Hb : forall s : ParallelRiccatiSolver Z,
             numLegs s = 1 ->
             forall backwardImpl symmetric_block_tridiagonal_solve mudyn mueq,
               backward backwardImpl symmetric_block_tridiagonal_solve
                 mudyn mueq s
               = Fault OutOfRange).
  { intros s HL bI sv mudyn mueq. apply backward_single_leg. exact HL. }
  eexists. split; [vm_compute; reflexivity |].
  split; [reflexivity |]. split; [reflexivity |].
  split; [vm_compute; reflexivity |].
  split; [apply Hb; reflexivity |].
  intros (s' & Hs'). rewrite Hb in Hs' by reflexivity. discriminate.
Qed.

(** On that run the legs reduce to [false] and the solve reports [false]. *)
Example backward_drops_the_flags :
  (let* st := for_loop 0 (numLegs ready_solver)
                (backward_leg failing_backwardImpl 3 5) (true, ready_solver) in
   let* s2 := assembleCondensedSystem 3 (snd st) in
   let* out := backward failing_backwardImpl failing_solve 3 5 ready_solver in
   Ok (fst st,
       fst (failing_solve (condensedKktSystem s2) (condensedKktRhs s2)),
       fst out))
  = Ok (false, false, true).
Proof. vm_compute. reflexivity. Qed.

(** ** [forward] *)

Section ForwardClaim.
Context {Scalar : Type} `{ScalarOps Scalar}.
Variable forwardImpl :
  list (Knot.LQRKnotTpl Scalar) -> list (StageFactor Scalar) ->
  trajectories Scalar -> option (VectorXs Scalar) -> trajectories Scalar.
Variable s : ParallelRiccatiSolver Scalar.
Hypothesis Hready : solver_ready s.
Hypothesis Hsol :
  length (blocks (condensedKktRhs s)) = Z.to_nat (2 * numLegs s).

(** The first loop of [forward]: the condensed solution goes to the split
    points. *)
Lemma forward_distribute_Ok (tr : trajectories Scalar) :
  trajectories_sized s tr ->
  exists tr1,
    for_loop 0 (numLegs s) (forward_distribute s) tr = Ok tr1 /\
    trajectories_sized s tr1 /\
    us tr1 = us tr /\ vs tr1 = vs tr /\
    forall i, 0 <= i < numLegs s ->
      lbdas tr1 !! Z.to_nat (split_at s i)
      = blocks (condensedKktRhs s) !! Z.to_nat (2 * i) /\
      xs tr1 !! Z.to_nat (split_at s i)
      = blocks (condensedKktRhs s) !! Z.to_nat (2 * i + 1).
Proof.
  intros (Hx & Hu & Hv & Hl).
  pose proof (ready_legs s Hready) as HL.
  destruct (for_loop_inv (forward_distribute s)
    (fun j t =>
       trajectories_sized s t /\ us t = us tr /\ vs t = vs tr /\
       forall i, 0 <= i < j ->
         lbdas t !! Z.to_nat (split_at s i)
         = blocks (condensedKktRhs s) !! Z.to_nat (2 * i) /\
         xs t !! Z.to_nat (split_at s i)
         = blocks (condensedKktRhs s) !! Z.to_nat (2 * i + 1))
    0 (numLegs s) tr) as (tr1 & Htr1 & Hinv).
  - lia.
  - split; [repeat split; assumption |]. split; [reflexivity |].
    split; [reflexivity | intros; lia].
  - intros j t Hj ((Hx' & Hu' & Hv' & Hl') & Eu & Ev & Hdone).
    pose proof (split_at_range s Hready j Hj) as [Hr0 Hr1].
    destruct (lookup_lt_is_Some_2 (blocks (condensedKktRhs s)) (Z.to_nat (2 * j)))
      as [lam Hlam]; [lia |].
    destruct (lookup_lt_is_Some_2 (blocks (condensedKktRhs s))
                (Z.to_nat (2 * j + 1))) as [x Hxb]; [lia |].
    unfold forward_distribute, blk_at.
    rewrite (at_split s Hready j) by lia. cbn [bind].
    rewrite (proj2 (at_Ok _ (2 * j) lam)) by (split; [lia | exact Hlam]).
    cbn [bind]. rewrite set_at_Ok by lia. cbn [bind].
    rewrite (proj2 (at_Ok _ (2 * j + 1) x)) by (split; [lia | exact Hxb]).
    cbn [bind]. rewrite set_at_Ok by lia. cbn [bind].
    eexists. split; [reflexivity |]. cbn [xs us vs lbdas].
    split; [unfold trajectories_sized; cbn [xs us vs lbdas];
            rewrite !length_insert; repeat split; assumption |].
    split; [exact Eu |]. split; [exact Ev |].
    intros i Hi. destruct (Z.eq_dec i j) as [-> | Hne].
    + rewrite !list_lookup_insert_eq by lia. rewrite Hlam, Hxb. split; reflexivity.
    + assert (split_at s i < split_at s j).
      { pose proof (split_at_mono s Hready i j ltac:(lia) ltac:(lia)). lia. }
      pose proof (split_at_range s Hready i ltac:(lia)) as [Hq0 Hq1].
      rewrite !list_lookup_insert_ne by lia. apply Hdone. lia.
  - exists tr1. split; [exact Htr1 | exact Hinv].
Qed.

Hypothesis Hinplace : writes_in_place forwardImpl.


End ForwardClaim.

Section ForwardTheorem.
Context {Scalar : Type} `{ScalarOps Scalar}.


End ForwardTheorem.

Lemma solved_solver_ready : solver_ready solved_solver.
Proof. constructor; by_eval. Qed.

Lemma recording_forwardImpl_in_place : writes_in_place recording_forwardImpl.
Proof.
  intros stview dsview tr theta. unfold recording_forwardImpl. cbn [xs us vs lbdas].
  rewrite length_map. repeat split.
Qed.


(** [forward] on [solved_solver]: [lbdas] and [xs] get the condensed solution
    at the split points 0 and 2; the first leg runs with the parameter
    [lambda_2 = [5, 6]] and the last leg with none. *)
Example forward_example :
  (let* tr := forward recording_forwardImpl solved_solver zero_trajectories in
   Ok (xs tr, us tr, lbdas tr))
  = Ok ([[3; 4]; [0; 0]; [7; 8]; [0; 0]],
        [[5; 6]; [5; 6]; []; []],
        [[1; 2]; [0; 0]; [5; 6]; [0; 0]]).
Proof. vm_compute. reflexivity. Qed.

(** ** The warm start ([checkTrajectoryAndAssign]) *)

Section WarmStart.
Context {Scalar : Type} `{ScalarOps Scalar}.
Context {CostAbstract ConstraintStack : Type}.

#[local] Abbreviation TrajOpt :=
  (@TrajOptProblemTpl Scalar CostAbstract ConstraintStack).

Lemma back_Ok {A} (v : list A) : v <> [] -> exists x, last v = Some x /\ back v = Ok x.
Proof.
  intros Hv. unfold back. destruct (last v) as [x |] eqn:Hl.
  - exists x. split; reflexivity.
  - apply last_None in Hl. contradiction.
Qed.

(** Filling a vector of [n] entries from a list of [n] values. *)
Lemma fill_loop_Ok {A B} (g : A -> B) (src : list A) (dst : list B) :
  (length src <= length dst)%nat ->
  exists out,
    for_loop 0 (Z.of_nat (length src))
      (fun i v => let* a := at_ src i in set_at v i (g a)) dst = Ok out /\
    length out = length dst /\
    (forall j a, src !! j = Some a -> out !! j = Some (g a)) /\
    (forall j, (length src <= j)%nat -> out !! j = dst !! j).
Proof.
  intros Hlen.
  destruct (for_loop_inv
    (fun i v => let* a := at_ src i in set_at v i (g a))
    (fun i out =>
       length out = length dst /\
       (forall j a, Z.of_nat j < i -> src !! j = Some a -> out !! j = Some (g a)) /\
       (forall j, i <= Z.of_nat j -> out !! j = dst !! j))
    0 (Z.of_nat (length src)) dst) as (out & Hout & Hl & Hdone & Hrest).
  - lia.
  - split; [reflexivity |]. split; [intros; lia | reflexivity].
  - intros i v Hi (Hl & Hdone & Hrest).
    destruct (lookup_lt_is_Some_2 src (Z.to_nat i)) as [a Ha]; [lia |].
    rewrite (proj2 (at_Ok src i a)) by (split; [lia | exact Ha]). cbn [bind].
    rewrite set_at_Ok by lia.
    eexists. split; [reflexivity |]. split; [rewrite length_insert; exact Hl |].
    split.
    + intros j a' Hj Ha'. destruct (Nat.eq_dec j (Z.to_nat i)) as [-> | Hne].
      * rewrite Ha in Ha'. injection Ha' as <-. apply list_lookup_insert_eq. lia.
      * rewrite list_lookup_insert_ne by congruence. apply Hdone; [lia | exact Ha'].
    + intros j Hj. rewrite list_lookup_insert_ne by lia. apply Hrest. lia.
  - exists out. split; [exact Hout |]. split; [exact Hl |]. split.
    + intros j a Ha. apply Hdone; [| exact Ha]. apply lookup_lt_Some in Ha. lia.
    + intros j Hj. apply Hrest. lia.
Qed.

Lemma us_default_init_Ok (p : TrajOpt) (us0 : list (VectorXs Scalar)) :
  us_default_init p us0 = Ok (neutral_controls p).
Proof.
  unfold us_default_init, numSteps. cbv zeta.
  destruct (fill_loop_Ok (fun sm => neutral (uspace sm)) (stages_ p)
              (resize_vec (Z.of_nat (length (stages_ p))) [] us0))
    as (out & Hout & Hl & Hdone & _).
  { rewrite length_resize_vec. lia. }
  rewrite Hout. f_equal.
  rewrite length_resize_vec, Nat2Z.id in Hl.
  apply (list_eq_same_length _ _ (length (stages_ p))).
  - unfold neutral_controls. apply length_map.
  - exact Hl.
  - intros j x y Hj Hx Hy. unfold neutral_controls in Hy.
    rewrite list_lookup_fmap in Hy.
    destruct (stages_ p !! j) as [sm |] eqn:Hsm; [| discriminate].
    rewrite (Hdone j sm Hsm) in Hx. cbn in Hy. congruence.
Qed.

Lemma xs_default_init_Ok (p : TrajOpt) (xs0 : list (VectorXs Scalar)) :
  stages_ p <> [] -> xs_default_init p xs0 = Ok (neutral_states p).
Proof.
  intros Hne. unfold xs_default_init, numSteps. cbv zeta.
  destruct (fill_loop_Ok (fun sm => neutral (xspace sm)) (stages_ p)
              (resize_vec (Z.of_nat (length (stages_ p)) + 1) [] xs0))
    as (out & Hout & Hl & Hdone & _).
  { rewrite length_resize_vec. lia. }
  rewrite Hout. cbn [bind].
  destruct (back_Ok (stages_ p) Hne) as (sm & Hlast & Hback).
  rewrite Hback. cbn [bind].
  rewrite length_resize_vec in Hl.
  rewrite set_at_Ok by lia. f_equal.
  unfold neutral_states. rewrite Hlast.
  apply (list_eq_same_length _ _ (S (length (stages_ p)))).
  - rewrite length_app, length_map. cbn. lia.
  - rewrite length_insert. lia.
  - intros j x y Hj Hx Hy.
    destruct (Nat.eq_dec j (length (stages_ p))) as [-> | Hjn].
    + rewrite Nat2Z.id in Hx. rewrite list_lookup_insert_eq in Hx by lia.
      rewrite lookup_app_r in Hy by (rewrite length_map; lia).
      rewrite length_map, Nat.sub_diag in Hy. cbn in Hy. congruence.
    + rewrite Nat2Z.id in Hx. rewrite list_lookup_insert_ne in Hx by congruence.
      rewrite lookup_app_l in Hy by (rewrite length_map; lia).
      rewrite list_lookup_fmap in Hy.
      destruct (stages_ p !! j) as [sm' |] eqn:Hsm; [| discriminate].
      rewrite (Hdone j sm' Hsm) in Hx. cbn in Hy. congruence.
Qed.

Lemma neutral_states_spec (p : TrajOpt) :
  stages_ p <> [] ->
  Z.of_nat (length (neutral_states p)) = numSteps p + 1 /\
  (forall i sm, stages_ p !! i = Some sm ->
                neutral_states p !! i = Some (neutral (xspace sm))) /\
  exists sm, last (stages_ p) = Some sm /\
             neutral_states p !! length (stages_ p)
             = Some (neutral (xspace_next sm)).
Proof.
  intros Hne. destruct (back_Ok (stages_ p) Hne) as (sm & Hlast & _).
  unfold neutral_states, numSteps. rewrite Hlast. split; [| split].
  - rewrite length_app, length_map. cbn. lia.
  - intros i sm' Hsm. rewrite lookup_app_l
      by (rewrite length_map; apply lookup_lt_Some in Hsm; exact Hsm).
    rewrite list_lookup_fmap, Hsm. reflexivity.
  - exists sm. split; [reflexivity |].
    rewrite lookup_app_r by (rewrite length_map; lia).
    rewrite length_map, Nat.sub_diag. reflexivity.
Qed.

Lemma neutral_controls_spec (p : TrajOpt) :
  Z.of_nat (length (neutral_controls p)) = numSteps p /\
  forall i sm, stages_ p !! i = Some sm ->
               neutral_controls p !! i = Some (neutral (uspace sm)).
Proof.
  unfold neutral_controls, numSteps. split.
  - rewrite length_map. reflexivity.
  - intros i sm Hsm. rewrite list_lookup_fmap, Hsm. reflexivity.
Qed.


End WarmStart.



(** ** The initial state of a problem ([getInitState], [setInitState]) *)

Section InitState.
Context {Scalar : Type} `{ScalarOps Scalar}.
Context {CostAbstract ConstraintStack : Type}.

#[local] Abbreviation TrajOpt :=
  (@TrajOptProblemTpl Scalar CostAbstract ConstraintStack).

(** C10.  On a problem whose pointer to the state error residual is null or
    valid, [getInitState()] and [setInitState(x0)] raise a runtime error if
    and only if [initCondIsStateError()] is false; otherwise [getInitState]
    returns the target of the residual, and [setInitState] overwrites that
    target and nothing else: the stages, the terminal cost, the terminal
    constraints, the neutral control and the pointer are as they were, and
    [getInitState] then returns [x0]. *)
Theorem init_state_access (p : TrajOpt) :
  init_state_error_valid p ->
  ((exists msg, getInitState p = Fault (RuntimeError msg))
   <-> initCondIsStateError p = false) /\
  (forall x0,
      (exists msg, setInitState x0 p = Fault (RuntimeError msg))
      <-> initCondIsStateError p = false) /\
  (initCondIsStateError p = true ->
   exists r,
     init_constraint_ p = IsStateError r /\
     getInitState p = Ok (target_ r) /\
     forall x0,
       exists p',
         setInitState x0 p = Ok p' /\
         init_constraint_ p'
         = IsStateError (mkStateError x0 (residual_space r)) /\
         stages_ p' = stages_ p /\
         term_cost_ p' = term_cost_ p /\
         term_cstrs_ p' = term_cstrs_ p /\
         unone_ p' = unone_ p /\
         init_state_error_ p' = init_state_error_ p /\
         getInitState p' = Ok x0).
Proof.
  intros Hvalid. unfold init_state_error_valid in Hvalid.
  unfold getInitState, setInitState, initCondIsStateError, deref_init_state_error.
  destruct (init_state_error_ p) eqn:Hptr; cbn [negb bind ALIGATOR_RUNTIME_ERROR].
  - split; [| split].
    + split; [reflexivity | intros _; eexists; reflexivity].
    + intros x0. split; [reflexivity | intros _; eexists; reflexivity].
    + discriminate.
  - destruct (Hvalid eq_refl) as [r Hr]. rewrite Hr. cbn [bind].
    split; [| split].
    + split; [intros [msg Hmsg]; discriminate | discriminate].
    + intros x0. split; [intros [msg Hmsg]; discriminate | discriminate].
    + intros _. exists r. split; [reflexivity |]. split; [reflexivity |].
      intros x0. eexists. split; [reflexivity |].
      cbn [init_constraint_ stages_ term_cost_ term_cstrs_ unone_
             init_state_error_ target_].
      repeat (split; [reflexivity |]). reflexivity.
Qed.

End InitState.

(** C10 on the two-stage problem, whose initial condition is a state error
    of target [[1, -1]]. *)
Lemma init_state_access_witness :
  exists r,
    init_constraint_ example_trajopt = IsStateError r /\
    getInitState example_trajopt = Ok (target_ r) /\
    forall x0,
      exists p',
        setInitState x0 example_trajopt = Ok p' /\
        init_constraint_ p' = IsStateError (mkStateError x0 (residual_space r)) /\
        stages_ p' = stages_ example_trajopt /\
        term_cost_ p' = term_cost_ example_trajopt /\
        term_cstrs_ p' = term_cstrs_ example_trajopt /\
        unone_ p' = unone_ example_trajopt /\
        init_state_error_ p' = init_state_error_ example_trajopt /\
        getInitState p' = Ok x0.
Proof.
  apply (proj2 (proj2 (init_state_access example_trajopt
                         ltac:(intros _; eexists; reflexivity)))).
  reflexivity.
Defined.

Example init_state_examples :
  getInitState example_trajopt = Ok [1; -1] /\
  (let* p := setInitState [4; 5] example_trajopt in getInitState p) = Ok [4; 5] /\
  getInitState example_trajopt_other
  = Fault (RuntimeError "Initial condition is not a StateErrorResidual.") /\
  setInitState [4; 5] example_trajopt_other
  = Fault (RuntimeError "Initial condition is not a StateErrorResidual.").
Proof. repeat split. Qed.

(** ** The binding of [ProxScaler] *)

Section ScalerBinding.
Context {Scalar : Type} `{ScalarOps Scalar}.
Variable member_setWeight : Scalar -> Z -> ProxScaler Scalar -> result (ProxScaler Scalar).
Variable member_setWeights :
  VectorXs Scalar -> ProxScaler Scalar -> result (ProxScaler Scalar).

(** On a vector of the wrong size the lambda bound to ["setWeights"] sets the
    Python error indicator and goes on to call the member on that vector:
    the call ends as the member ends. *)
Lemma py_setWeights_wrong_size (w : VectorXs Scalar) (st : py_state Scalar) :
  size (scaler st) <> Z.of_nat (length w) ->
  py_setWeights member_setWeights w st
  = let* s := member_setWeights w (scaler st) in
    Ok (mkPy s (Some ("ValueError"%string, "Input has wrong dimension."%string))).
Proof.
  intros Hsize. unfold py_setWeights.
  replace (size (scaler st) =? Z.of_nat (length w)) with false
    by (symmetry; apply Z.eqb_neq; exact Hsize).
  reflexivity.
Qed.

(** The lambda bound to ["set_weight"] raises on an index out of bounds,
    before the member is called. *)
Lemma py_set_weight_out_of_bounds (v : Scalar) (j : Z) (st : py_state Scalar) :
  size (scaler st) <= j ->
  py_set_weight member_setWeight v j st
  = Fault (PythonError "IndexError" "Index out of bounds.").
Proof.
  intros Hj. unfold py_set_weight.
  replace (j >=? size (scaler st)) with true
    by (symmetry; apply Z.geb_le; exact Hj).
  reflexivity.
Qed.

End ScalerBinding.

(** C8 does not hold of the code: on a scaler of two blocks, [setWeights]
    with three weights returns, the error indicator set, and the scaler holds
    the three weights; [set_weight] with the index 2 raises. *)
Theorem setWeights_wrong_size_is_not_rejected :
  py_setWeights store_weights [5; 5; 5] example_scaler
  = Ok (mkPy (mkScaler [5; 5; 5])
          (Some ("ValueError"%string, "Input has wrong dimension."%string))) /\
  py_set_weight store_weight 7 2 example_scaler
  = Fault (PythonError "IndexError" "Index out of bounds.").
Proof. split; reflexivity. Qed.
(** * Further properties *)

(** ** Vectors, lists and quotients *)

(** A list given two entries at a time. *)
Lemma list_is_pairs {B} (l : list B) (f g : nat -> B) (n : nat) :
  length l = (2 * n)%nat ->
  (forall i, (i < n)%nat ->
             l !! (2 * i)%nat = Some (f i) /\ l !! (2 * i + 1)%nat = Some (g i)) ->
  l = flat_map (fun i => [f i; g i]) (seq 0 n).
Proof.
  intros Hlen Hl.
  apply (list_eq_same_length _ _ (2 * n)%nat).
  - rewrite length_flat_map_pair, length_seq. reflexivity.
  - exact Hlen.
  - intros j x y Hj Hx Hy.
    assert (Hxy : l !! j = flat_map (fun i => [f i; g i]) (seq 0 n) !! j);
      [| congruence].
    clear x y Hx Hy.
    destruct (Nat.Even_or_Odd j) as [[k ->] | [k ->]].
    + destruct (lookup_flat_map_pair f g (seq 0 n) k) as [He _].
      rewrite He, lookup_seq_lt by lia. apply Hl. lia.
    + destruct (lookup_flat_map_pair f g (seq 0 n) k) as [_ Ho].
      rewrite Ho, lookup_seq_lt by lia. apply Hl. lia.
Qed.

Lemma list_is_one_then_pairs {B} (l : list B) (x0 : B) (f g : nat -> B) (n : nat) :
  length l = S (2 * n) ->
  l !! 0%nat = Some x0 ->
  (forall i, (i < n)%nat ->
             l !! S (2 * i) = Some (f i) /\ l !! S (2 * i + 1) = Some (g i)) ->
  l = x0 :: flat_map (fun i => [f i; g i]) (seq 0 n).
Proof.
  intros Hlen H0 Hl. destruct l as [|y0 l]; [discriminate |].
  injection H0 as ->. f_equal.
  apply list_is_pairs; [cbn in Hlen; lia | exact Hl].
Qed.

Lemma list_is_two_then_pairs {B} (l : list B) (x0 x1 : B) (f g : nat -> B)
  (n : nat) :
  length l = S (S (2 * n)) ->
  l !! 0%nat = Some x0 -> l !! 1%nat = Some x1 ->
  (forall i, (i < n)%nat ->
             l !! S (S (2 * i)) = Some (f i) /\
             l !! S (S (2 * i + 1)) = Some (g i)) ->
  l = x0 :: x1 :: flat_map (fun i => [f i; g i]) (seq 0 n).
Proof.
  intros Hlen H0 H1 Hl. destruct l as [|y0 [|y1 l]]; [discriminate.. |].
  injection H0 as ->. injection H1 as ->. do 2 f_equal.
  apply list_is_pairs; [cbn in Hlen; lia | exact Hl].
Qed.

Lemma split_quotient_balanced M L i :
  0 < L -> 0 <= M -> 0 <= i ->
  M / L <= (i + 1) * M / L - i * M / L <= M / L + 1.
Proof.
  intros HL HM Hi.
  pose proof (Z.div_mod (i * M) L ltac:(lia)) as E1.
  pose proof (Z.div_mod M L ltac:(lia)) as E2.
  pose proof (Z.div_mod ((i + 1) * M) L ltac:(lia)) as E3.
  pose proof (Z.mod_pos_bound (i * M) L HL) as B1.
  pose proof (Z.mod_pos_bound M L HL) as B2.
  pose proof (Z.mod_pos_bound ((i + 1) * M) L HL) as B3.
  nia.
Qed.

Lemma split_quotient_exact M L i :
  0 < L -> M mod L = 0 -> (i + 1) * M / L - i * M / L = M / L.
Proof.
  intros HL Hm.
  apply Z.mod_divide in Hm; [| lia]. destruct Hm as [q ->].
  rewrite !Z.mul_assoc, !Z.div_mul by lia. lia.
Qed.

(** ** The constructor and its legs *)

Section SplitMore.
Context {Scalar : Type} `{ScalarOps Scalar}.

(** X1.  The constructor cuts the horizon into legs of nearly equal length.
    On a problem of [M = N + 1] knots cut into [num_legs] legs, with a knot
    for each leg and no wrap-around, the constructor returns and every leg
    [[splitIdx[i], splitIdx[i + 1])] has [M / num_legs] or [M / num_legs + 1]
    knots; all legs have [M / num_legs] knots when [num_legs] divides [M]. *)
Theorem legs_are_balanced (pb : LQRProblemTpl Scalar) (num_legs : Z) :
  1 <= num_legs <= Z.of_nat (length (stages pb)) ->
  Z.of_nat (length (stages pb)) < uint_modulus ->
  (num_legs - 1) * Z.of_nat (length (stages pb)) < uint_modulus ->
  exists s,
    ParallelRiccatiSolver_make pb num_legs = Ok s /\
    forall i, 0 <= i < num_legs ->
      exists a b,
        splitIdx s !! Z.to_nat i = Some a /\
        splitIdx s !! Z.to_nat (i + 1) = Some b /\
        Z.of_nat (length (stages pb)) / num_legs <= b - a
        <= Z.of_nat (length (stages pb)) / num_legs + 1 /\
        (Z.of_nat (length (stages pb)) mod num_legs = 0 ->
         b - a = Z.of_nat (length (stages pb)) / num_legs).
Proof.
  intros HL HM Hw.
  destruct (ParallelRiccatiSolver_make_Ok pb num_legs HL HM Hw)
    as (s & Hs & _ & _ & Hall & _).
  exists s. split; [exact Hs |].
  intros i Hi. eexists _, _.
  split; [apply Hall; lia |]. split; [apply Hall; lia |].
  split.
  - apply split_quotient_balanced; lia.
  - intros Hm. apply split_quotient_exact; [lia | exact Hm].
Qed.

(** X2.  The constructor needs a knot for each leg.  On a problem of
    [M >= 1] knots: with [num_legs = 0] no leg is built, and the assertion
    [datas.size() == N + 1] fails; with [num_legs > M] the first leg is empty
    ([splitIdx[1] = M / num_legs = 0]), and [buildLeg] reads
    [problem.stages[end - 1]] at [end = 0], outside the vector.  So whenever
    the constructor returns, [1 <= num_legs <= M]. *)
Theorem constructor_needs_a_knot_for_each_leg
  (pb : LQRProblemTpl Scalar) (num_legs : Z) :
  1 <= Z.of_nat (length (stages pb)) < uint_modulus ->
  0 <= num_legs -> num_legs + 1 < uint_modulus ->
  (num_legs = 0 -> ParallelRiccatiSolver_make pb num_legs = Fault AssertionFailed) /\
  (Z.of_nat (length (stages pb)) < num_legs ->
   ParallelRiccatiSolver_make pb num_legs = Fault OutOfRange) /\
  (forall s, ParallelRiccatiSolver_make pb num_legs = Ok s ->
             1 <= num_legs <= Z.of_nat (length (stages pb))).
Proof.
  intros HM HL HLw.
  set (M := Z.of_nat (length (stages pb))) in *.
  assert (HN : uint (horizon pb) = M - 1).
  { unfold horizon. fold M. apply uint_small. lia. }
  assert (H0 : num_legs = 0 ->
               ParallelRiccatiSolver_make pb num_legs = Fault AssertionFailed).
  { intros ->. unfold ParallelRiccatiSolver_make. cbv zeta. rewrite HN.
    unfold make_splitIdx, buildLegs, for_loop.
    change (Z.to_nat (0 - 0)) with 0%nat.
    change (Z.to_nat (uint (0 + 1))) with 1%nat. cbn [replicate for_range bind].
    replace (M - 1 + 1) with M by lia.
    rewrite set_at_Ok by (cbn; lia). cbn [bind datas length].
    rewrite (uint_small M) by lia.
    replace (Z.of_nat 0 =? M) with false by (symmetry; apply Z.eqb_neq; lia).
    reflexivity. }
  assert (H1 : M < num_legs ->
               ParallelRiccatiSolver_make pb num_legs = Fault OutOfRange).
  { intros Hlt. unfold ParallelRiccatiSolver_make. cbv zeta. rewrite HN.
    destruct (make_splitIdx_Ok (M - 1) num_legs HL HLw)
      as (idx & Hidx & Hlen & Hval & _).
    rewrite Hidx. cbn [bind]. unfold buildLegs, for_loop.
    destruct (Z.to_nat (num_legs - 0)) as [|n] eqn:En; [lia |].
    cbn [for_range splitIdx].
    rewrite (proj2 (at_Ok idx 0 (uint (0 * uint (M - 1 + 1)) / num_legs)))
      by (split; [lia | apply (Hval 0); lia]).
    cbn [bind]. change (uint (0 + 1)) with 1.
    rewrite (proj2 (at_Ok idx 1 (uint (1 * uint (M - 1 + 1)) / num_legs)))
      by (split; [lia | apply (Hval 1); lia]).
    cbn [bind].
    replace (M - 1 + 1) with M by lia. rewrite (uint_small M) by lia.
    rewrite Z.mul_0_l, Z.mul_1_l, (uint_small M) by lia.
    change (uint 0) with 0. rewrite Z.div_0_l by lia.
    rewrite (Z.div_small M num_legs) by lia.
    rewrite (uint_small (num_legs - 1)) by lia.
    replace (0 =? num_legs - 1) with false by (symmetry; apply Z.eqb_neq; lia).
    unfold buildLeg, for_loop.
    change (Z.to_nat (0 - 0)) with 0%nat. cbn [for_range bind negb problem].
    rewrite at_out_of_range; [reflexivity |].
    fold M. assert (Hu : uint (0 - 1) = uint_modulus - 1) by reflexivity.
    rewrite Hu. lia. }
  split; [exact H0 |]. split; [exact H1 |].
  intros s Hs.
  destruct (Z.eq_dec num_legs 0) as [E | E]; [rewrite (H0 E) in Hs; discriminate |].
  destruct (Z_lt_le_dec M num_legs) as [Hlt | Hle];
    [rewrite (H1 Hlt) in Hs; discriminate | lia].
Qed.

End SplitMore.

Section Tiling.
Context {Scalar : Type} `{ScalarOps Scalar}.
Variable s : ParallelRiccatiSolver Scalar.
Hypothesis Hready : solver_ready s.

(** The leg of a knot. *)
Lemma leg_of_knot t :
  0 <= t < Z.of_nat (length (stages (problem s))) ->
  exists i, 0 <= i < numLegs s /\ split_at s i <= t < split_at s (i + 1).
Proof.
  intros Ht.
  assert (Hn : forall n : nat,
             Z.of_nat n <= numLegs s -> t < split_at s (Z.of_nat n) ->
             exists i, 0 <= i < Z.of_nat n /\ split_at s i <= t < split_at s (i + 1)).
  { induction n as [|n IH]; intros Hle Hlt.
    - change (Z.of_nat 0) with 0 in Hlt. rewrite (split_at_first s Hready) in Hlt. lia.
    - destruct (Z_lt_le_dec t (split_at s (Z.of_nat n))) as [Hl | Hg].
      + destruct (IH ltac:(lia) Hl) as (i & Hi & Hr). exists i. split; [lia | exact Hr].
      + exists (Z.of_nat n). split; [lia |].
        replace (Z.of_nat n + 1) with (Z.of_nat (S n)) by lia. lia. }
  pose proof (ready_legs s Hready) as HL.
  destruct (Hn (Z.to_nat (numLegs s))) as (i & Hi & Hr).
  - lia.
  - rewrite Z2Nat.id by lia. rewrite (split_at_last s Hready). lia.
  - exists i. split; [lia | exact Hr].
Qed.

Lemma leg_of_knot_unique t i j :
  0 <= i < numLegs s -> 0 <= j < numLegs s ->
  split_at s i <= t < split_at s (i + 1) ->
  split_at s j <= t < split_at s (j + 1) -> i = j.
Proof.
  intros Hi Hj Hti Htj.
  destruct (Z_lt_le_dec i j) as [Hlt | Hge].
  - pose proof (split_at_mono s Hready (i + 1) j ltac:(lia) ltac:(lia)). lia.
  - destruct (Z.eq_dec i j) as [E | E]; [exact E |].
    pose proof (split_at_mono s Hready (j + 1) i ltac:(lia) ltac:(lia)). lia.
Qed.

(** The views of the first [n] legs of a vector, one after the other, are its
    first [splitIdx[n]] entries. *)
Lemma concat_leg_views {A} (v : list A) (n : nat) :
  Z.of_nat n <= numLegs s ->
  concat (map (fun i : nat =>
                 take (Z.to_nat (split_at s (Z.of_nat i + 1) - split_at s (Z.of_nat i)))
                   (drop (Z.to_nat (split_at s (Z.of_nat i))) v))
            (seq 0 n))
  = take (Z.to_nat (split_at s (Z.of_nat n))) v.
Proof.
  induction n as [|n IH]; intros Hn.
  - change (Z.of_nat 0) with 0. rewrite (split_at_first s Hready). reflexivity.
  - rewrite seq_S, map_app, concat_app, IH by lia. cbn [map concat Nat.add].
    rewrite app_nil_r, take_take_drop. f_equal.
    pose proof (split_at_range s Hready (Z.of_nat n) ltac:(lia)) as [Hr _].
    replace (Z.of_nat (S n)) with (Z.of_nat n + 1) by lia. lia.
Qed.

End Tiling.

Section TilingClaim.
Context {Scalar : Type} `{ScalarOps Scalar}.

(** X3.  The legs of a ready solver tile the horizon.  Every knot index [t]
    lies in the range [[splitIdx[i], splitIdx[i + 1])] of exactly one leg
    [i]; and for a vector [v] with an entry for each knot, the views
    [make_span_from_indices(v, splitIdx[i], splitIdx[i + 1])] that [backward]
    and [forward] take exist for every leg and, put one after the other, are
    [v]. *)
Theorem legs_tile_the_horizon {A : Type} (s : ParallelRiccatiSolver Scalar)
  (v : list A) :
  solver_ready s -> length v = length (stages (problem s)) ->
  (forall t, 0 <= t < Z.of_nat (length v) ->
     exists i a b,
       0 <= i < numLegs s /\
       splitIdx s !! Z.to_nat i = Some a /\
       splitIdx s !! Z.to_nat (i + 1) = Some b /\
       a <= t < b /\
       forall i' a' b',
         0 <= i' < numLegs s ->
         splitIdx s !! Z.to_nat i' = Some a' ->
         splitIdx s !! Z.to_nat (i' + 1) = Some b' ->
         a' <= t < b' -> i' = i) /\
  exists views,
    length views = Z.to_nat (numLegs s) /\
    (forall i, 0 <= i < numLegs s ->
       exists a b view,
         splitIdx s !! Z.to_nat i = Some a /\
         splitIdx s !! Z.to_nat (i + 1) = Some b /\
         make_span_from_indices v a b = Ok view /\
         views !! Z.to_nat i = Some view) /\
    concat views = v.
Proof.
  intros Hready Hlen.
  pose proof (ready_legs s Hready) as HL.
  split.
  - intros t Ht. rewrite Hlen in Ht.
    destruct (leg_of_knot s Hready t Ht) as (i & Hi & Hr).
    exists i, (split_at s i), (split_at s (i + 1)).
    split; [exact Hi |].
    split; [apply (split_at_lookup s Hready); lia |].
    split; [apply (split_at_lookup s Hready); lia |].
    split; [exact Hr |].
    intros i' a' b' Hi' Ha' Hb' Ht'.
    rewrite (split_at_lookup s Hready i') in Ha' by lia.
    rewrite (split_at_lookup s Hready (i' + 1)) in Hb' by lia.
    injection Ha' as <-. injection Hb' as <-.
    apply (leg_of_knot_unique s Hready t); assumption.
  - exists (map (fun i : nat =>
                   take (Z.to_nat (split_at s (Z.of_nat i + 1) - split_at s (Z.of_nat i)))
                     (drop (Z.to_nat (split_at s (Z.of_nat i))) v))
              (seq 0 (Z.to_nat (numLegs s)))).
    split; [| split].
    + rewrite length_map, length_seq. reflexivity.
    + intros i Hi.
      pose proof (split_at_range s Hready i Hi) as [Hr0 Hr1].
      exists (split_at s i), (split_at s (i + 1)). eexists.
      split; [apply (split_at_lookup s Hready); lia |].
      split; [apply (split_at_lookup s Hready); lia |].
      split; [apply make_span_Ok; lia |].
      rewrite list_lookup_fmap, lookup_seq_lt by lia. cbn.
      rewrite Z2Nat.id by lia. reflexivity.
    + rewrite (concat_leg_views s Hready v) by lia.
      rewrite Z2Nat.id by lia. rewrite (split_at_last s Hready).
      apply take_ge. lia.
Qed.

End TilingClaim.

Section BuildLegMore.
Context {Scalar : Type} `{ScalarOps Scalar}.

#[local] Abbreviation Solver := (ParallelRiccatiSolver Scalar).

(** The stage factor of a knot: [StageFactor(knot.nx, knot.nu, knot.nc,
    knot.nth)]. *)
#[local] Abbreviation factor_of k :=
  (StageFactor_make (Knot.nx k) (Knot.nu k) (Knot.nc k) (Knot.nth k)).

(** The loop of [buildLeg], started with a stage factor for each knot before
    [start]: it appends the stage factor of each knot of the leg. *)
Lemma buildLeg_loop_datas (last_leg : bool) (s : Solver) start end_ :
  0 <= start <= end_ -> end_ <= Z.of_nat (length (stages (problem s))) ->
  Z.of_nat (length (datas s)) = start ->
  exists s',
    for_loop start end_ (buildLeg_step last_leg) s = Ok s' /\
    (forall j f, datas s !! j = Some f -> datas s' !! j = Some f) /\
    forall j k', start <= Z.of_nat j < end_ ->
                 stages (problem s') !! j = Some k' ->
                 datas s' !! j = Some (factor_of k').
Proof.
  intros Hse Hend Hdat.
  destruct (for_loop_inv (buildLeg_step last_leg)
              (fun t s' =>
                 length (stages (problem s')) = length (stages (problem s)) /\
                 Z.of_nat (length (datas s')) = t /\
                 (forall j f, datas s !! j = Some f -> datas s' !! j = Some f) /\
                 forall j k', start <= Z.of_nat j < t ->
                              stages (problem s') !! j = Some k' ->
                              datas s' !! j = Some (factor_of k'))
              start end_ s) as (s' & Hs' & _ & _ & Hpre & Hnew).
  - lia.
  - split; [reflexivity |]. split; [exact Hdat |]. split; [auto |]. intros; lia.
  - intros t u Ht (Hlen & Hd & Hpre & Hnew).
    destruct (lookup_lt_is_Some_2 (stages (problem u)) (Z.to_nat t)) as [k Hk]; [lia |].
    unfold buildLeg_step.
    rewrite (proj2 (at_Ok _ t k)) by (split; [lia | exact Hk]). cbn [bind].
    set (k' := if last_leg then k else Knot.addParameterization (Knot.nx k) k).
    match goal with
    | |- context [bind (if negb last_leg then ?a else ?b) _] =>
        assert (Hk' : (if negb last_leg then a else b) = Ok k')
    end.
    { subst k'. destruct last_leg; [reflexivity |]. cbn. rewrite Z.eqb_refl. reflexivity. }
    rewrite Hk'. cbn [bind]. rewrite set_at_Ok by lia. cbn [bind].
    eexists. split; [reflexivity |]. cbn.
    split; [rewrite length_insert; exact Hlen |].
    split; [rewrite length_app; cbn; lia |].
    split.
    + intros j f Hf. apply lookup_app_l_Some. apply Hpre. exact Hf.
    + intros j k0 Hj Hk0. destruct (Nat.eq_dec j (Z.to_nat t)) as [-> | Hne].
      * rewrite list_lookup_insert_eq in Hk0 by lia. injection Hk0 as <-.
        rewrite lookup_app_r by lia.
        replace (Z.to_nat t - length (datas u))%nat with 0%nat by lia. reflexivity.
      * rewrite list_lookup_insert_ne in Hk0 by lia.
        apply lookup_app_l_Some. apply Hnew; [lia | exact Hk0].
  - exists s'. split; [exact Hs' |]. split; [exact Hpre | exact Hnew].
Qed.

(** [buildLeg], started with a stage factor for each knot before [start]. *)
Lemma buildLeg_datas (last_leg : bool) (s : Solver) start end_ :
  0 <= start <= end_ -> end_ <= Z.of_nat (length (stages (problem s))) ->
  (last_leg = false -> start < end_) -> end_ <= uint_modulus ->
  Z.of_nat (length (datas s)) = start ->
  exists s',
    buildLeg start end_ last_leg s = Ok s' /\
    (forall j f, datas s !! j = Some f -> datas s' !! j = Some f) /\
    forall j k', start <= Z.of_nat j < end_ ->
                 stages (problem s') !! j = Some k' ->
                 datas s' !! j = Some (factor_of k').
Proof.
  intros Hse Hend Hne Hw Hdat.
  destruct (buildLeg_loop_datas last_leg s start end_ Hse Hend Hdat)
    as (s1 & Hs1 & Hpre & Hnew).
  destruct (buildLeg_loop_Ok last_leg s start end_ Hse Hend)
    as (s1' & Hs1' & _ & Hlen & _).
  rewrite Hs1 in Hs1'. injection Hs1' as <-.
  unfold buildLeg. rewrite Hs1. cbn [bind]. destruct last_leg; cbn [negb].
  - exists s1. split; [reflexivity |]. split; [exact Hpre | exact Hnew].
  - specialize (Hne eq_refl).
    rewrite (uint_small (end_ - 1)) by lia.
    destruct (lookup_lt_is_Some_2 (stages (problem s1)) (Z.to_nat (end_ - 1)))
      as [k Hk]; [lia |].
    rewrite (proj2 (at_Ok _ (end_ - 1) k)) by (split; [lia | exact Hk]).
    cbn [bind]. rewrite set_at_Ok by lia. cbn [bind].
    eexists. split; [reflexivity |]. cbn.
    split; [exact Hpre |].
    intros j k0 Hj Hk0. destruct (Nat.eq_dec j (Z.to_nat (end_ - 1))) as [-> | Hj'].
    + rewrite list_lookup_insert_eq in Hk0 by lia. injection Hk0 as <-.
      cbn. apply (Hnew _ k); [lia | exact Hk].
    + rewrite list_lookup_insert_ne in Hk0 by lia. apply Hnew; [lia | exact Hk0].
Qed.

(** Monotonicity of strictly increasing split indices. *)
Lemma split_indices_mono (idx : list Z) (L : Z) i j a b :
  strictly_increasing idx L -> (Z.to_nat L < length idx)%nat ->
  0 <= i <= j -> j <= L ->
  idx !! Z.to_nat i = Some a -> idx !! Z.to_nat j = Some b ->
  a + (j - i) <= b.
Proof.
  intros Hinc Hlen Hij HjL Ha Hb.
  pose proof (strictly_increasing_le idx L Hinc Hlen (Z.to_nat (j - i)) i a b) as Hle.
  rewrite Z2Nat.id in Hle by lia. replace (i + (j - i)) with j in Hle by lia.
  apply Hle; [lia | lia | exact Ha | exact Hb].
Qed.

(** The loop of the constructor over the legs: the stage factors it builds,
    the knots it parameterizes and the knots it leaves. *)
Lemma buildLegs_exact (s : Solver) (L M c : Z) :
  1 <= L -> L + 1 < uint_modulus -> M <= uint_modulus ->
  length (splitIdx s) = Z.to_nat (L + 1) ->
  splitIdx s !! 0%nat = Some 0 ->
  splitIdx s !! Z.to_nat L = Some M ->
  strictly_increasing (splitIdx s) L ->
  M = Z.of_nat (length (stages (problem s))) ->
  datas s = [] ->
  splitIdx s !! Z.to_nat (L - 1) = Some c ->
  exists s',
    buildLegs L s = Ok s' /\
    (forall j k', stages (problem s') !! j = Some k' ->
                  datas s' !! j = Some (factor_of k')) /\
    (forall j k', Z.of_nat j < c -> stages (problem s') !! j = Some k' ->
                  Knot.nth k' = Knot.nx k') /\
    (forall j, c <= Z.of_nat j ->
               stages (problem s') !! j = stages (problem s) !! j).
Proof.
  intros HL HLw HM Hlen H0 HLast Hinc HMlen Hdat Hc.
  set (idx := splitIdx s) in *.
  assert (Hlen' : (Z.to_nat L < length idx)%nat) by lia.
  destruct (for_loop_inv
    (fun i s =>
       let* i0 := at_ (splitIdx s) i in
       let* i1 := at_ (splitIdx s) (uint (i + 1)) in
       buildLeg i0 i1 (i =? uint (L - 1)) s)
    (fun i s' =>
       same_frame s s' /\
       length (stages (problem s')) = length (stages (problem s)) /\
       exists a, idx !! Z.to_nat i = Some a /\
         Z.of_nat (length (datas s')) = a /\
         (forall j k', Z.of_nat j < a -> stages (problem s') !! j = Some k' ->
                       datas s' !! j = Some (factor_of k')) /\
         (forall j k', Z.of_nat j < a -> Z.of_nat j < c ->
                       stages (problem s') !! j = Some k' ->
                       Knot.nth k' = Knot.nx k') /\
         (forall j, a <= Z.of_nat j \/ c <= Z.of_nat j ->
                    stages (problem s') !! j = stages (problem s) !! j))
    0 L s) as (s' & Hs' & Hfr & Hst & a & Ha & Hda & HD & HP & HU).
  - lia.
  - split; [apply same_frame_refl |]. split; [reflexivity |].
    exists 0. split; [exact H0 |]. split; [rewrite Hdat; reflexivity |].
    split; [intros; lia |]. split; [intros; lia |]. reflexivity.
  - intros i t Hi (Hfr & Hst & a & Ha & Hda & HD & HP & HU).
    pose proof Hfr as (Hf1 & Hf2 & _).
    destruct (lookup_lt_is_Some_2 idx (Z.to_nat (i + 1))) as [b Hb]; [lia |].
    assert (Hab : a < b) by (apply (Hinc i); [lia | exact Ha | exact Hb]).
    pose proof (split_indices_mono idx L (i + 1) L b M Hinc Hlen'
                  ltac:(lia) ltac:(lia) Hb HLast) as HbM.
    pose proof (split_indices_mono idx L 0 i 0 a Hinc Hlen'
                  ltac:(lia) ltac:(lia) H0 Ha) as Ha0.
    rewrite Hf2. fold idx.
    rewrite (proj2 (at_Ok idx i a)) by (split; [lia | exact Ha]).
    rewrite (uint_small (i + 1)) by lia.
    rewrite (proj2 (at_Ok idx (i + 1) b)) by (split; [lia | exact Hb]).
    cbn [bind]. rewrite (uint_small (L - 1)) by lia.
    destruct (buildLeg_Ok (i =? L - 1) t a b) as (t' & Ht' & Hfr' & Hst' & Hda' & Hk');
      [lia | lia | intros _; lia | lia |].
    destruct (buildLeg_datas (i =? L - 1) t a b) as (t2 & Ht2 & Hpre & Hnew);
      [lia | lia | intros _; lia | lia | exact Hda |].
    rewrite Ht' in Ht2. injection Ht2 as <-.
    (* a knot outside the leg is as it was *)
    assert (Hout : forall j, Z.of_nat j < a \/ b <= Z.of_nat j ->
                             stages (problem t') !! j = stages (problem t) !! j).
    { intros j Hj. destruct (stages (problem t) !! j) as [k|] eqn:Hk.
      - rewrite (Hk' _ _ Hk). rewrite leg_knot_outside by lia. reflexivity.
      - apply lookup_ge_None. apply lookup_ge_None in Hk. lia. }
    exists t'. split; [exact Ht' |].
    split; [apply (same_frame_trans _ t); [exact Hfr | exact Hfr'] |].
    split; [congruence |].
    exists b. split; [exact Hb |]. split; [lia |].
    split; [| split].
    + intros j k' Hj Hk. destruct (Z_lt_le_dec (Z.of_nat j) a) as [Hlt | Hge].
      * rewrite Hout in Hk by lia. apply Hpre. apply HD; [exact Hlt | exact Hk].
      * apply Hnew; [lia | exact Hk].
    + intros j k' Hj Hjc Hk. destruct (Z_lt_le_dec (Z.of_nat j) a) as [Hlt | Hge].
      * rewrite Hout in Hk by lia. apply (HP j); [exact Hlt | exact Hjc | exact Hk].
      * assert (HiL : i < L - 1).
        { destruct (Z_lt_le_dec i (L - 1)) as [? | ?]; [assumption |].
          assert (i = L - 1) by lia. subst i. rewrite Hc in Ha. injection Ha as <-. lia. }
        destruct (lookup_lt_is_Some_2 (stages (problem t)) j) as [k Hk0]; [lia |].
        rewrite (Hk' _ _ Hk0) in Hk. injection Hk as <-.
        replace (i =? L - 1) with false by (symmetry; apply Z.eqb_neq; lia).
        unfold leg_knot.
        replace (a <=? Z.of_nat j) with true by (symmetry; apply Z.leb_le; lia).
        replace (Z.of_nat j <? b) with true by (symmetry; apply Z.ltb_lt; lia).
        cbn [andb]. destruct (Z.of_nat j =? b - 1); reflexivity.
    + intros j Hj. destruct (Z_lt_le_dec (Z.of_nat j) b) as [Hlt | Hge].
      * destruct Hj as [Hj | Hj]; [lia |].
        destruct (Z_lt_le_dec (Z.of_nat j) a) as [Hlt' | Hge'].
        -- rewrite Hout by lia. apply HU. right. exact Hj.
        -- assert (HiL : i = L - 1).
           { destruct (Z.eq_dec i (L - 1)) as [? | ?]; [assumption |].
             pose proof (split_indices_mono idx L (i + 1) (L - 1) b c Hinc Hlen'
                           ltac:(lia) ltac:(lia) Hb Hc). lia. }
           rewrite <- HU by (right; exact Hj).
           destruct (stages (problem t) !! j) as [k|] eqn:Hk.
           ++ rewrite (Hk' _ _ Hk). unfold leg_knot.
              replace (i =? L - 1) with true by (symmetry; apply Z.eqb_eq; lia).
              reflexivity.
           ++ apply lookup_ge_None. apply lookup_ge_None in Hk. lia.
      * rewrite Hout by lia. apply HU. destruct Hj as [Hj | Hj]; [left; lia | right; exact Hj].
  - exists s'. split; [exact Hs' |].
    rewrite HLast in Ha. injection Ha as <-.
    split; [| split].
    + intros j k' Hk. apply HD; [| exact Hk].
      apply lookup_lt_Some in Hk. lia.
    + intros j k' Hj Hk. apply (HP j); [| exact Hj | exact Hk].
      apply lookup_lt_Some in Hk. lia.
    + intros j Hj. apply HU. right. exact Hj.
Qed.

End BuildLegMore.

Section ConstructorMore.
Context {Scalar : Type} `{ScalarOps Scalar}.

(** Whenever the constructor returns: the stage factors it has built, the
    knots it has parameterized and the knots it has left. *)
Lemma ParallelRiccatiSolver_make_exact (pb : LQRProblemTpl Scalar) (L : Z)
  (s : ParallelRiccatiSolver Scalar) :
  1 <= L -> L + 1 < uint_modulus ->
  Z.of_nat (length (stages pb)) < uint_modulus ->
  ParallelRiccatiSolver_make pb L = Ok s ->
  exists c,
    splitIdx s !! Z.to_nat (L - 1) = Some c /\
    (forall j k', stages (problem s) !! j = Some k' ->
                  datas s !! j
                  = Some (StageFactor_make (Knot.nx k') (Knot.nu k')
                            (Knot.nc k') (Knot.nth k'))) /\
    (forall j k', Z.of_nat j < c -> stages (problem s) !! j = Some k' ->
                  Knot.nth k' = Knot.nx k') /\
    (forall j, c <= Z.of_nat j -> stages (problem s) !! j = stages pb !! j) /\
    G0 (problem s) = G0 pb /\ g0 (problem s) = g0 pb.
Proof.
  intros HL HLw HM Hrun.
  destruct (ParallelRiccatiSolver_make_inv pb L s HL HLw HM Hrun)
    as (HnL & Hlen & H0 & Hlast & Hinc & _ & _ & _ & Hst & _).
  unfold ParallelRiccatiSolver_make in Hrun. cbv zeta in Hrun.
  apply bind_Ok in Hrun as (idx & Hidx & Hrun).
  apply bind_Ok in Hrun as (s1 & Hlegs & Hrun).
  apply bind_Ok in Hrun as (u1 & _ & Hrun).
  apply bind_Ok in Hrun as (ok & _ & Hrun).
  apply bind_Ok in Hrun as (u2 & _ & Hrun).
  injection Hrun as <-.
  set (s0 := mkSolver [] L idx (mkCondensed [] [] []) BlkVec_empty pb) in *.
  destruct (buildLegs_same_frame s0 s1 L Hlegs)
    as [(_ & Hf2 & _ & _ & Hf5 & Hf6) _].
  cbn in Hf2, Hf5, Hf6. rewrite Hf2 in *.
  destruct (lookup_lt_is_Some_2 idx (Z.to_nat (L - 1))) as [c Hc]; [lia |].
  destruct (buildLegs_exact s0 L (Z.of_nat (length (stages pb))) c HL HLw
              ltac:(lia) Hlen H0 Hlast Hinc eq_refl eq_refl Hc)
    as (s1' & Hs1' & HD & HP & HU).
  rewrite Hlegs in Hs1'. injection Hs1' as <-.
  exists c. split; [exact Hc |]. split; [exact HD |]. split; [exact HP |].
  split; [exact HU |]. split; assumption.
Qed.

(** X4.  The constructor builds one stage factor for each knot, in the
    order of the knots: [datas[j]] is [StageFactor(nx, nu, nc, nth)] of the
    dimensions of knot [j] as the constructor leaves that knot. *)
Theorem constructor_builds_a_factor_for_each_knot
  (pb : LQRProblemTpl Scalar) (num_legs : Z) :
  1 <= num_legs <= Z.of_nat (length (stages pb)) ->
  Z.of_nat (length (stages pb)) < uint_modulus ->
  (num_legs - 1) * Z.of_nat (length (stages pb)) < uint_modulus ->
  exists s,
    ParallelRiccatiSolver_make pb num_legs = Ok s /\
    length (stages (problem s)) = length (stages pb) /\
    length (datas s) = length (stages pb) /\
    forall j k', stages (problem s) !! j = Some k' ->
                 datas s !! j
                 = Some (StageFactor_make (Knot.nx k') (Knot.nu k')
                           (Knot.nc k') (Knot.nth k')).
Proof.
  intros HL HM Hw.
  destruct (ParallelRiccatiSolver_make_Ok pb num_legs HL HM Hw)
    as (s & Hs & _ & _ & _ & _ & _ & Hst & Hda & _).
  assert (HLw : num_legs + 1 < uint_modulus).
  { destruct (Z.eq_dec num_legs 1) as [-> | ?]; [reflexivity |].
    destruct (Z.eq_dec num_legs 2) as [-> | ?]; [reflexivity | nia]. }
  destruct (ParallelRiccatiSolver_make_exact pb num_legs s ltac:(lia) HLw HM Hs)
    as (c & _ & HD & _).
  exists s. split; [exact Hs |]. split; [exact Hst |]. split; [lia | exact HD].
Qed.

(** X5.  The constructor writes to the caller's problem in the legs before
    the final one only: every knot from [splitIdx[num_legs - 1]] on is as it
    was, every knot before it has [nth = nx], and [G0] and [g0] are as they
    were.  With one leg the problem is left as it was. *)
Theorem constructor_leaves_the_final_leg
  (pb : LQRProblemTpl Scalar) (num_legs : Z) :
  1 <= num_legs <= Z.of_nat (length (stages pb)) ->
  Z.of_nat (length (stages pb)) < uint_modulus ->
  (num_legs - 1) * Z.of_nat (length (stages pb)) < uint_modulus ->
  exists s c,
    ParallelRiccatiSolver_make pb num_legs = Ok s /\
    splitIdx s !! Z.to_nat (num_legs - 1) = Some c /\
    (forall j, c <= Z.of_nat j -> stages (problem s) !! j = stages pb !! j) /\
    (forall j k', Z.of_nat j < c -> stages (problem s) !! j = Some k' ->
                  Knot.nth k' = Knot.nx k') /\
    G0 (problem s) = G0 pb /\ g0 (problem s) = g0 pb /\
    (num_legs = 1 -> problem s = pb).
Proof.
  intros HL HM Hw.
  destruct (ParallelRiccatiSolver_make_Ok pb num_legs HL HM Hw)
    as (s & Hs & _ & _ & Hall & _).
  assert (HLw : num_legs + 1 < uint_modulus).
  { destruct (Z.eq_dec num_legs 1) as [-> | ?]; [reflexivity |].
    destruct (Z.eq_dec num_legs 2) as [-> | ?]; [reflexivity | nia]. }
  destruct (ParallelRiccatiSolver_make_exact pb num_legs s ltac:(lia) HLw HM Hs)
    as (c & Hc & _ & HP & HU & HG & Hg).
  exists s, c. split; [exact Hs |]. split; [exact Hc |]. split; [exact HU |].
  split; [exact HP |]. split; [exact HG |]. split; [exact Hg |].
  intros ->. pose proof (Hall 0 ltac:(lia)) as Hc0.
  change (Z.to_nat (1 - 1)) with (Z.to_nat 0) in Hc.
  rewrite Hc0 in Hc. injection Hc as <-.
  rewrite Z.mul_0_l, Z.div_0_l in HU by lia.
  assert (Hst : stages (problem s) = stages pb).
  { apply list_eq. intros j. apply HU. lia. }
  destruct (problem s) as [st G g], pb as [st' G' g']. cbn in *. congruence.
Qed.

End ConstructorMore.

(** X1 on eight knots and three legs: every leg has two or three knots. *)
Lemma legs_are_balanced_witness :
  exists s,
    ParallelRiccatiSolver_make (example_problem 8) 3 = Ok s /\
    forall i, 0 <= i < 3 ->
      exists a b,
        splitIdx s !! Z.to_nat i = Some a /\
        splitIdx s !! Z.to_nat (i + 1) = Some b /\
        2 <= b - a <= 3.
Proof.
  destruct (legs_are_balanced (example_problem 8) 3) as (s & Hs & Hlegs);
    [by_eval.. |].
  exists s. split; [exact Hs |]. intros i Hi.
  destruct (Hlegs i Hi) as (a & b & Ha & Hb & Hab & _).
  exists a, b. split; [exact Ha |]. split; [exact Hb |].
  change (Z.of_nat (length (stages (example_problem 8))) / 3) with 2 in Hab. lia.
Defined.

(** X2 on two knots: no leg, and three legs. *)
Lemma constructor_needs_a_knot_for_each_leg_witness :
  ParallelRiccatiSolver_make (example_problem 2) 0 = Fault AssertionFailed /\
  ParallelRiccatiSolver_make (example_problem 2) 3 = Fault OutOfRange.
Proof.
  split.
  - apply (constructor_needs_a_knot_for_each_leg (example_problem 2) 0); by_eval.
  - apply (constructor_needs_a_knot_for_each_leg (example_problem 2) 3); by_eval.
Defined.

(** X3 on [ready_solver] (four knots, two legs) and a vector of four
    numbers. *)
Lemma legs_tile_the_horizon_witness :
  exists views : list (list nat),
    length views = 2%nat /\ concat views = [10; 20; 30; 40]%nat.
Proof.
  destruct (legs_tile_the_horizon ready_solver [10; 20; 30; 40]%nat
              ready_solver_ready eq_refl) as [_ (views & Hl & _ & Hc)].
  exists views. split; [exact Hl | exact Hc].
Defined.

(** The two views of that vector. *)
Example leg_views_example :
  (let* v0 := make_span_from_indices [10; 20; 30; 40]%nat
                (split_at ready_solver 0) (split_at ready_solver 1) in
   let* v1 := make_span_from_indices [10; 20; 30; 40]%nat
                (split_at ready_solver 1) (split_at ready_solver 2) in
   Ok (v0, v1))
  = Ok ([10; 20]%nat, [30; 40]%nat).
Proof. vm_compute. reflexivity. Qed.

(** X4 on eight knots and three legs. *)
Lemma constructor_builds_a_factor_for_each_knot_witness :
  exists s,
    ParallelRiccatiSolver_make (example_problem 8) 3 = Ok s /\
    length (datas s) = 8%nat.
Proof.
  destruct (constructor_builds_a_factor_for_each_knot (example_problem 8) 3)
    as (s & Hs & _ & Hd & _); [by_eval.. |].
  exists s. split; [exact Hs | exact Hd].
Defined.

(** The parameter dimension [nth] of the eight stage factors, and of the
    eight knots: [nx = 2] in the first two legs, [0] in the final leg. *)
Example constructor_factors_example :
  (let* s := ParallelRiccatiSolver_make (example_problem 8) 3 in
   Ok (splitIdx s, map sf_nth (datas s), map Knot.nth (stages (problem s))))
  = Ok ([0; 2; 5; 8], [2; 2; 2; 2; 2; 0; 0; 0], [2; 2; 2; 2; 2; 0; 0; 0]).
Proof. vm_compute. reflexivity. Qed.

(** X5 on four knots and one leg: the problem is left as it was. *)
Lemma constructor_leaves_the_final_leg_witness :
  exists s,
    ParallelRiccatiSolver_make (example_problem 4) 1 = Ok s /\
    problem s = example_problem 4.
Proof.
  destruct (constructor_leaves_the_final_leg (example_problem 4) 1)
    as (s & c & Hs & _ & _ & _ & _ & _ & H1); [by_eval.. |].
  exists s. split; [exact Hs | exact (H1 eq_refl)].
Defined.

Section EmptyLeg.
Context {Scalar : Type} `{ScalarOps Scalar}.

(** X19.  [buildLeg] on an empty leg ([end <= start]): the loop builds no
    stage factor.  As a final leg, [buildLeg] leaves the solver as it is.  As
    a leg that is not final it still sets the parameter of
    [problem.stages[end - 1]], a knot before the leg, to [Gx = A^T],
    [Gu = B^T], [gamma = f], and writes nothing else ([nth] is as it was:
    there is no [addParameterization]); at [end = 0] it reads
    [problem.stages[end - 1]] outside the vector. *)
Theorem buildLeg_on_an_empty_leg (s : ParallelRiccatiSolver Scalar)
  (start end_ : Z) :
  end_ <= start ->
  buildLeg start end_ true s = Ok s /\
  (0 < end_ <= Z.of_nat (length (stages (problem s))) -> end_ <= uint_modulus ->
   exists k,
     stages (problem s) !! Z.to_nat (end_ - 1) = Some k /\
     buildLeg start end_ false s
     = Ok (set_problem_stages
             (<[Z.to_nat (end_ - 1) :=
                  Knot.set_parameter (transpose (Knot.A k)) (transpose (Knot.B k))
                    (Knot.f k) k]> (stages (problem s)))
             s)) /\
  (end_ = 0 -> Z.of_nat (length (stages (problem s))) < uint_modulus ->
   buildLeg start end_ false s = Fault OutOfRange).
Proof.
  intros Hle.
  assert (Hloop : forall last_leg,
             for_loop start end_ (buildLeg_step last_leg) s = Ok s).
  { intros last_leg. unfold for_loop.
    replace (Z.to_nat (end_ - start)) with 0%nat by lia. reflexivity. }
  split; [| split].
  - unfold buildLeg. rewrite Hloop. reflexivity.
  - intros Hend Hw.
    destruct (lookup_lt_is_Some_2 (stages (problem s)) (Z.to_nat (end_ - 1)))
      as [k Hk]; [lia |].
    exists k. split; [exact Hk |].
    unfold buildLeg. rewrite Hloop. cbn [bind negb].
    rewrite (uint_small (end_ - 1)) by lia.
    rewrite (proj2 (at_Ok _ (end_ - 1) k)) by (split; [lia | exact Hk]).
    cbn [bind]. rewrite set_at_Ok by lia. reflexivity.
  - intros -> Hlen. unfold buildLeg. rewrite Hloop. cbn [bind negb].
    rewrite at_out_of_range; [reflexivity |].
    assert (Hu : uint (0 - 1) = uint_modulus - 1) by reflexivity.
    rewrite Hu. lia.
Qed.

End EmptyLeg.

(** X19 on the empty leg [[4, 4)] of [example_solver]: knot 3 gets
    [Gx = A^T] and [gamma = f], and keeps [nth = 0]; no stage factor is
    built. *)
Lemma buildLeg_on_an_empty_leg_witness :
  buildLeg 4 4 true example_solver = Ok example_solver /\
  (let* s := buildLeg 4 4 false example_solver in
   let* k := at_ (stages (problem s)) 3 in
   Ok (coeffs (Knot.Gx k), Knot.gamma k, Knot.nth k, length (datas s)))
  = Ok ([[1; 3]; [2; 4]], [7; 8], 0, 0%nat).
Proof.
  destruct (buildLeg_on_an_empty_leg example_solver 4 4 ltac:(lia))
    as (H1 & H2 & _).
  split; [exact H1 |].
  destruct (H2 ltac:(by_eval) ltac:(by_eval)) as (k & Hk & Hrun).
  rewrite Hrun. vm_compute in Hk. injection Hk as <-. vm_compute. reflexivity.
Defined.

(** ** The condensed system *)

Section SingleLeg.
Context {Scalar : Type} `{ScalarOps Scalar}.
Variable backwardImpl :
  list (Knot.LQRKnotTpl Scalar) -> Scalar -> Scalar ->
  list (StageFactor Scalar) -> bool * list (StageFactor Scalar).
Variable symmetric_block_tridiagonal_solve :
  condensed_system_t Scalar -> BlkVec Scalar ->
  bool * (condensed_system_t Scalar * BlkVec Scalar).

(** X6.  A solver of one leg can be constructed (its split indices are
    [0, N + 1]), but its [backward] cannot run: [assembleCondensedSystem]
    resizes [superdiagonal] to [2 * numLegs - 1 = 1] block and then assigns
    [superdiagonal[1]], outside the vector (here the fault [OutOfRange]),
    whatever the kernel and the solve are. *)
Theorem single_leg_solver_cannot_run_backward (pb : LQRProblemTpl Scalar) :
  1 <= Z.of_nat (length (stages pb)) < uint_modulus ->
  exists s,
    ParallelRiccatiSolver_make pb 1 = Ok s /\
    numLegs s = 1 /\
    splitIdx s = [0; Z.of_nat (length (stages pb))] /\
    (forall mudyn, assembleCondensedSystem mudyn s = Fault OutOfRange) /\
    (forall mudyn mueq,
        backward backwardImpl symmetric_block_tridiagonal_solve mudyn mueq s
        = Fault OutOfRange).
Proof.
  intros HM.
  destruct (ParallelRiccatiSolver_make_Ok pb 1 ltac:(lia) ltac:(lia)
              ltac:(rewrite Z.sub_diag, Z.mul_0_l; reflexivity))
    as (s & Hs & HnL & Hlen & Hall & _).
  exists s. split; [exact Hs |]. split; [exact HnL |].
  split.
  { pose proof (Hall 0 ltac:(lia)) as H0. pose proof (Hall 1 ltac:(lia)) as H1.
    rewrite Z.mul_0_l, Z.div_0_l in H0 by lia.
    rewrite Z.mul_1_l, Z.div_1_r in H1.
    change (Z.to_nat 0) with 0%nat in H0. change (Z.to_nat 1) with 1%nat in H1.
    change (Z.to_nat (1 + 1)) with 2%nat in Hlen.
    destruct (splitIdx s) as [|a [|b [|c l]]]; try discriminate.
    cbn in H0, H1. congruence. }
  split; [intros mudyn; apply assembleCondensedSystem_single_leg; exact HnL |].
  intros mudyn mueq. unfold backward. rewrite HnL.
  unfold for_loop. change (Z.to_nat (1 - 0)) with 1%nat. cbn [for_range].
  destruct (backward_leg backwardImpl mudyn mueq 0 (true, s)) as [st | e] eqn:Hleg.
  - cbn [bind]. rewrite assembleCondensedSystem_single_leg; [reflexivity |].
    rewrite (backward_leg_numLegs _ _ _ _ _ _ Hleg). exact HnL.
  - apply backward_leg_fault in Hleg. subst e. reflexivity.
Qed.

End SingleLeg.

Section AssembleMore.
Context {Scalar : Type} `{ScalarOps Scalar}.

Lemma blk_set_dims (v v' : BlkVec Scalar) i x :
  blk_set v i x = Ok v' -> blk_dims v' = blk_dims v.
Proof.
  unfold blk_set. intros Hrun.
  apply bind_Ok in Hrun as (n & _ & Hrun).
  apply bind_Ok in Hrun as (u & _ & Hrun).
  apply bind_Ok in Hrun as (b & _ & Hrun).
  injection Hrun as <-. reflexivity.
Qed.

(** A leg of the first loop appends two dimensions, and resizes nothing. *)
Lemma assemble_leg_dims (s : ParallelRiccatiSolver Scalar) i a a' :
  assemble_leg s i a = Ok a' ->
  length (asm_diagonal a') = length (asm_diagonal a) /\
  exists x y, asm_dims a' = asm_dims a ++ [x; y].
Proof.
  unfold assemble_leg. cbv zeta. intros Hrun.
  apply bind_Ok in Hrun as (i0 & _ & Hrun).
  apply bind_Ok in Hrun as (i1 & _ & Hrun).
  apply bind_Ok in Hrun as (d0 & _ & Hrun).
  apply bind_Ok in Hrun as (diag & Hdiag & Hrun).
  apply bind_Ok in Hrun as (k0 & _ & Hrun).
  apply bind_Ok in Hrun as (k1m & _ & Hrun).
  apply bind_Ok in Hrun as (d1 & _ & Hrun).
  apply bind_Ok in Hrun as (diag' & Hdiag' & Hrun).
  apply bind_Ok in Hrun as (k1 & _ & Hrun).
  apply bind_Ok in Hrun as (super & _ & Hrun).
  apply bind_Ok in Hrun as (super' & _ & Hrun).
  injection Hrun as <-. cbn.
  apply set_at_inv in Hdiag as [_ ->]. apply set_at_inv in Hdiag' as [_ ->].
  split; [rewrite !length_insert; reflexivity |]. eauto.
Qed.

(** Whenever [assembleCondensedSystem] returns, the right-hand side has a
    segment for each diagonal block, the first two of the dimensions [nc0]
    and [nx] of the first knot. *)
Lemma assembleCondensedSystem_rhs_dims (mudyn : Scalar)
  (s s' : ParallelRiccatiSolver Scalar) :
  assembleCondensedSystem mudyn s = Ok s' ->
  exists k0 l,
    stages (problem s) !! 0%nat = Some k0 /\
    blk_dims (condensedKktRhs s') = nc0 (problem s) :: Knot.nx k0 :: l /\
    length (blk_dims (condensedKktRhs s'))
    = length (diagonal (condensedKktSystem s')).
Proof.
  unfold assembleCondensedSystem. cbv zeta. intros Hrun.
  apply bind_Ok in Hrun as (diag0 & _ & Hrun).
  apply bind_Ok in Hrun as (super0 & _ & Hrun).
  apply bind_Ok in Hrun as (d0 & _ & Hrun).
  apply bind_Ok in Hrun as (diag1 & _ & Hrun).
  apply bind_Ok in Hrun as (super1 & _ & Hrun).
  apply bind_Ok in Hrun as (k0 & Hk0 & Hrun).
  apply bind_Ok in Hrun as (a & Ha & Hrun).
  apply bind_Ok in Hrun as (sub & _ & Hrun).
  apply bind_Ok in Hrun as (u & Hassert & Hrun).
  apply bind_Ok in Hrun as (rhs0 & Hrhs0 & Hrun).
  apply bind_Ok in Hrun as (d0' & _ & Hrun).
  apply bind_Ok in Hrun as (rhs1 & Hrhs1 & Hrun).
  apply bind_Ok in Hrun as (rhs & Hrhs & Hrun).
  injection Hrun as <-. cbn.
  apply at_Ok in Hk0 as [_ Hk0]. change (Z.to_nat 0) with 0%nat in Hk0.
  assert (Hdims : exists l, asm_dims a = [nc0 (problem s); Knot.nx k0] ++ l).
  { unfold for_loop in Ha.
    apply (for_range_preserves (assemble_leg s)
             (fun a => exists l, asm_dims a = [nc0 (problem s); Knot.nx k0] ++ l))
      in Ha; [exact Ha | | exists []; reflexivity].
    intros j t t' Ht [l Hl]. apply assemble_leg_dims in Ht as [_ (x & y & Ht)].
    exists (l ++ [x; y]). rewrite Ht, Hl, app_assoc. reflexivity. }
  assert (Hrd : blk_dims rhs = asm_dims a).
  { unfold for_loop in Hrhs.
    apply (for_range_preserves (assemble_rhs_leg s)
             (fun r => blk_dims r = asm_dims a)) in Hrhs; [exact Hrhs | |].
    - intros j t t' Ht Hd. unfold assemble_rhs_leg in Ht. cbv zeta in Ht.
      apply bind_Ok in Ht as (i0 & _ & Ht).
      apply bind_Ok in Ht as (i1 & _ & Ht).
      apply bind_Ok in Ht as (e0 & _ & Ht).
      apply bind_Ok in Ht as (r1 & Hr1 & Ht).
      apply bind_Ok in Ht as (e1 & _ & Ht).
      apply blk_set_dims in Hr1. apply blk_set_dims in Ht. congruence.
    - apply blk_set_dims in Hrhs0. apply blk_set_dims in Hrhs1.
      rewrite Hrhs1, Hrhs0. reflexivity. }
  destruct Hdims as [l Hl].
  exists k0, l. split; [exact Hk0 |]. rewrite Hrd. split; [exact Hl |].
  unfold assert_ in Hassert.
  destruct (Z.of_nat (length (asm_dims a)) =? Z.of_nat (length (asm_diagonal a)))
    eqn:E; [| discriminate].
  apply Z.eqb_eq in E. lia.
Qed.

Lemma solver_ready_set_condensed (sys : condensed_system_t Scalar)
  (rhs : BlkVec Scalar) (s : ParallelRiccatiSolver Scalar) :
  solver_ready s -> solver_ready (set_condensed sys rhs s).
Proof. intros [H1 H2 H3 H4 H5 H6 H7 H8]. constructor; assumption. Qed.

(** [assembleCondensedSystem] computes the blocks of [assembled]. *)
Lemma assembleCondensedSystem_assembled (mudyn : Scalar)
  (s : ParallelRiccatiSolver Scalar) :
  solver_ready s -> 2 <= numLegs s -> rhs_dims_agree s ->
  assembleCondensedSystem mudyn s = Ok (assembled mudyn s).
Proof.
  intros Hready HL Hagree.
  destruct (assembleCondensedSystem_Ok mudyn s Hready HL Hagree)
    as (s' & Hs' & Hd & Hsp & Hsb & Hf0 & Hreads & Hd0 & Hs0 & Hd1 & Hs1 & Hlegs
        & Hsub & (rhs & Hrhs & Hrl & Hr0 & Hr1 & Hrlegs) & Hdat & Hpb & Hidx & HnL).
  destruct (assembleCondensedSystem_rhs_dims mudyn s s' Hs')
    as (k0 & l & Hk0 & Hdims & Hdlen).
  rewrite Hs'. f_equal.
  set (n := Z.to_nat (numLegs s - 1)).
  assert (Hi : forall i : nat, (i < n)%nat -> 0 <= Z.of_nat i < numLegs s - 1)
    by (intros; lia).
  assert (Ediag : diagonal (condensedKktSystem s') = assembled_diagonal mudyn s).
  { apply list_is_two_then_pairs; [lia | exact Hd0 | exact Hd1 |].
    intros i Hin. destruct (Hlegs _ (Hi i Hin)) as (H1 & H2 & _).
    replace (Z.to_nat (2 * (Z.of_nat i + 1))) with (S (S (2 * i))) in H1 by lia.
    replace (Z.to_nat (2 * (Z.of_nat i + 1) + 1)) with (S (S (2 * i + 1))) in H2
      by lia.
    split; assumption. }
  assert (Esuper : superdiagonal (condensedKktSystem s') = assembled_superdiagonal s).
  { apply list_is_one_then_pairs; [lia | exact Hs0 |].
    intros i Hin. destruct (Hlegs _ (Hi i Hin)) as (_ & _ & H3 & _).
    replace (Z.to_nat (2 * (Z.of_nat i + 1))) with (S (2 * i + 1)) in H3 by lia.
    split; [| exact H3].
    destruct i as [|i].
    - change (Z.of_nat 0) with 0. rewrite (split_at_first s Hready). exact Hs1.
    - destruct (Hlegs (Z.of_nat i) ltac:(lia)) as (_ & _ & _ & H4 & _).
      specialize (H4 ltac:(lia)).
      replace (Z.to_nat (2 * (Z.of_nat i + 1) + 1)) with (S (2 * S i)) in H4 by lia.
      replace (Z.of_nat (S i)) with (Z.of_nat i + 1) by lia. exact H4. }
  assert (Esub : subdiagonal (condensedKktSystem s')
                 = map transpose (assembled_superdiagonal s)).
  { rewrite <- Esuper.
    apply (list_eq_same_length _ _ (Z.to_nat (2 * numLegs s - 1)));
      [rewrite length_map; exact Hsp | exact Hsb |].
    intros j x y Hj Hx Hy. rewrite list_lookup_fmap in Hy.
    destruct (superdiagonal (condensedKktSystem s') !! j) as [m|] eqn:Hm;
      [| discriminate].
    rewrite (Hsub _ _ Hm) in Hx. cbn in Hy. congruence. }
  assert (Edims : blk_dims (condensedKktRhs s') = assembled_dims s).
  { apply list_is_two_then_pairs.
    - rewrite Hdlen, Hd. lia.
    - rewrite Hdims. unfold nc0. reflexivity.
    - rewrite Hdims. unfold knot_at. change (Z.to_nat 0) with 0%nat.
      rewrite Hk0. reflexivity.
    - intros i Hin. destruct (Hlegs _ (Hi i Hin)) as (_ & _ & _ & _ & H5 & H6).
      replace (Z.to_nat (2 * (Z.of_nat i + 1))) with (S (S (2 * i))) in H5 by lia.
      replace (Z.to_nat (2 * (Z.of_nat i + 1) + 1)) with (S (S (2 * i + 1))) in H6
        by lia.
      split; assumption. }
  assert (Eblocks : blocks (condensedKktRhs s')
                    = map (vscale_right (sopp sone)) (interleaved_rhs s)).
  { rewrite Hrhs. cbn [blk_scale_right blocks]. f_equal.
    apply list_is_two_then_pairs; [lia | exact Hr0 | exact Hr1 |].
    intros i Hin. destruct (Hrlegs _ (Hi i Hin)) as (H1 & H2).
    replace (Z.to_nat (2 * (Z.of_nat i + 1))) with (S (S (2 * i))) in H1 by lia.
    replace (Z.to_nat (2 * (Z.of_nat i + 1) + 1)) with (S (S (2 * i + 1))) in H2
      by lia.
    split; assumption. }
  destruct s' as [dat nl idx [sub diag super] [dims blks] pb].
  cbn [datas numLegs splitIdx condensedKktSystem condensedKktRhs problem
         subdiagonal diagonal superdiagonal blk_dims blocks]
    in Hdat, Hpb, Hidx, HnL, Ediag, Esuper, Esub, Edims, Eblocks.
  unfold assembled, set_condensed. congruence.
Qed.

End AssembleMore.

Section AssembleMoreClaims.
Context {Scalar : Type} `{ScalarOps Scalar}.

(** X7.  [assembleCondensedSystem] overwrites every block.  On a ready
    solver of at least two legs whose right-hand side vectors have the sizes
    of their segments it returns the solver [assembled], whose condensed
    system is read off the stage factors, the knots and the initial
    constraint only: the result does not depend on what [condensedKktSystem]
    and [condensedKktRhs] held before, and assembling again changes
    nothing. *)
Theorem assembleCondensedSystem_overwrites_every_block (mudyn : Scalar)
  (s : ParallelRiccatiSolver Scalar) :
  solver_ready s -> 2 <= numLegs s -> rhs_dims_agree s ->
  assembleCondensedSystem mudyn s = Ok (assembled mudyn s) /\
  (forall (sys : condensed_system_t Scalar) (rhs : BlkVec Scalar),
      assembleCondensedSystem mudyn (set_condensed sys rhs s)
      = Ok (assembled mudyn s)) /\
  assembleCondensedSystem mudyn (assembled mudyn s) = Ok (assembled mudyn s).
Proof.
  intros Hready HL Hagree.
  assert (Hany : forall sys rhs,
             assembleCondensedSystem mudyn (set_condensed sys rhs s)
             = Ok (assembled mudyn s)).
  { intros sys rhs.
    apply (assembleCondensedSystem_assembled mudyn (set_condensed sys rhs s)
             (solver_ready_set_condensed sys rhs s Hready) HL Hagree). }
  split; [apply assembleCondensedSystem_assembled; assumption |].
  split; [exact Hany |]. apply Hany.
Qed.

End AssembleMoreClaims.

(** X6 on four knots. *)
Lemma single_leg_solver_cannot_run_backward_witness :
  exists s,
    ParallelRiccatiSolver_make (example_problem 4) 1 = Ok s /\
    splitIdx s = [0; 4] /\
    backward failing_backwardImpl failing_solve 3 5 s = Fault OutOfRange.
Proof.
  destruct (single_leg_solver_cannot_run_backward failing_backwardImpl
              failing_solve (example_problem 4))
    as (s & Hs & _ & Hidx & _ & Hb); [by_eval |].
  exists s. split; [exact Hs |]. split; [exact Hidx | apply Hb].
Defined.

(** X7 on [ready_solver]. *)
Lemma assembleCondensedSystem_overwrites_every_block_witness :
  assembleCondensedSystem 3 ready_solver = Ok (assembled 3 ready_solver) /\
  assembleCondensedSystem 3 (assembled 3 ready_solver)
  = Ok (assembled 3 ready_solver).
Proof.
  destruct (assembleCondensedSystem_overwrites_every_block 3 ready_solver
              ready_solver_ready ltac:(by_eval) ready_solver_dims)
    as (H1 & _ & H3).
  split; [exact H1 | exact H3].
Defined.

(** Assembling over a condensed system of five stale blocks on each
    diagonal and a stale right-hand side gives the system of
    [assembleCondensedSystem_example]. *)
Example assembleCondensedSystem_over_stale_blocks :
  (let stale := replicate 5 (Identity 1 1) in
   let* s := assembleCondensedSystem 3
               (set_condensed (mkCondensed stale stale stale)
                  (mkBlkVec [1; 1] [[9]; [9]]) ready_solver) in
   Ok (map coeffs (diagonal (condensedKktSystem s)),
       map coeffs (superdiagonal (condensedKktSystem s)),
       blk_dims (condensedKktRhs s), blocks (condensedKktRhs s)))
  = Ok ([[[-3; 0]; [0; -3]]; [[1; 0]; [0; 1]]; [[-1; 0]; [0; -1]];
         [[3; 0]; [0; 3]]],
        [[[1; 0]; [0; 1]]; [[1; 2]; [3; 4]]; [[-1; 0]; [0; -1]]],
        [2; 2; 2; 2],
        [[1; 1]; [-1; -2]; [-10; -11]; [-3; -4]]).
Proof. vm_compute. reflexivity. Qed.

(** ** The legs of [backward] and [forward] *)

Section LegViews.
Context {Scalar : Type} `{ScalarOps Scalar}.
Variable s : ParallelRiccatiSolver Scalar.
Hypothesis Hready : solver_ready s.

(** The view of a leg shows the entries of the leg, and no other. *)
Lemma leg_view_ext {A} (v1 v2 : list A) i :
  0 <= i < numLegs s ->
  (forall j : nat, split_at s i <= Z.of_nat j < split_at s (i + 1) ->
                   v1 !! j = v2 !! j) ->
  leg_view s v1 i = leg_view s v2 i.
Proof.
  intros Hi Hv. pose proof (split_at_range s Hready i Hi) as [Hr0 Hr1].
  unfold leg_view. apply list_eq. intros j.
  rewrite !lookup_take, !lookup_drop.
  destruct (decide (j < Z.to_nat (split_at s (i + 1) - split_at s i))%nat);
    [| reflexivity].
  apply Hv. lia.
Qed.

Lemma make_span_leg_view {A} (v : list A) i :
  0 <= i < numLegs s -> length v = length (stages (problem s)) ->
  make_span_from_indices v (split_at s i) (split_at s (i + 1))
  = Ok (leg_view s v i).
Proof.
  intros Hi Hlen. pose proof (split_at_range s Hready i Hi) as [Hr0 Hr1].
  apply make_span_Ok; lia.
Qed.

Lemma length_leg_view {A} (v : list A) i :
  0 <= i < numLegs s -> length v = length (stages (problem s)) ->
  length (leg_view s v i) = Z.to_nat (split_at s (i + 1) - split_at s i).
Proof.
  intros Hi Hlen. pose proof (split_at_range s Hready i Hi) as [Hr0 Hr1].
  apply length_span; lia.
Qed.

(** What was written through the view of a leg is what the view shows. *)
Lemma leg_view_write_span {A} (v out : list A) i :
  0 <= i < numLegs s -> length v = length (stages (problem s)) ->
  length out = Z.to_nat (split_at s (i + 1) - split_at s i) ->
  leg_view s (write_span v (split_at s i) out) i = out.
Proof.
  intros Hi Hlen Hout. pose proof (split_at_range s Hready i Hi) as [Hr0 Hr1].
  unfold leg_view, write_span.
  rewrite drop_app_length' by (rewrite length_take; lia).
  apply take_app_length'. lia.
Qed.

Lemma lookup_write_span_lt {A} (v view : list A) i0 (j : nat) :
  (Z.to_nat i0 <= length v)%nat -> (j < Z.to_nat i0)%nat ->
  write_span v i0 view !! j = v !! j.
Proof.
  intros Hl Hj. unfold write_span.
  rewrite lookup_app_l by (rewrite length_take; lia).
  apply lookup_take_lt. exact Hj.
Qed.

End LegViews.

Section BackwardMore.
Context {Scalar : Type} `{ScalarOps Scalar}.
Variable backwardImpl :
  list (Knot.LQRKnotTpl Scalar) -> Scalar -> Scalar ->
  list (StageFactor Scalar) -> bool * list (StageFactor Scalar).

(** X8.  The legs of [backward] are independent.  On a ready solver and
    with a kernel that writes in place, the loop over the legs returns; the
    stage factors it leaves in the view of each leg are those that
    [backwardImpl] computes from the knots of that leg and the stage factors
    that the leg had before the loop, whatever the other legs did; the flag
    that the loop reduces to is true exactly when the flag of every leg is;
    and the loop writes nothing but [datas]. *)
Theorem backward_legs_are_independent (mudyn mueq : Scalar)
  (s : ParallelRiccatiSolver Scalar) :
  solver_ready s ->
  (forall stview a b dtview,
      length (snd (backwardImpl stview a b dtview)) = length dtview) ->
  exists st,
    for_loop 0 (numLegs s) (backward_leg backwardImpl mudyn mueq) (true, s)
    = Ok st /\
    (forall i, 0 <= i < numLegs s ->
       exists a b,
         splitIdx s !! Z.to_nat i = Some a /\
         splitIdx s !! Z.to_nat (i + 1) = Some b /\
         make_span_from_indices (stages (problem s)) a b
         = Ok (leg_view s (stages (problem s)) i) /\
         make_span_from_indices (datas s) a b = Ok (leg_view s (datas s) i) /\
         make_span_from_indices (datas (snd st)) a b
         = Ok (snd (backwardImpl (leg_view s (stages (problem s)) i) mudyn mueq
                      (leg_view s (datas s) i)))) /\
    (fst st = true <->
     forall i, 0 <= i < numLegs s ->
       fst (backwardImpl (leg_view s (stages (problem s)) i) mudyn mueq
              (leg_view s (datas s) i)) = true) /\
    numLegs (snd st) = numLegs s /\ splitIdx (snd st) = splitIdx s /\
    problem (snd st) = problem s /\
    condensedKktSystem (snd st) = condensedKktSystem s /\
    condensedKktRhs (snd st) = condensedKktRhs s.
Proof.
  intros Hready Hlen.
  pose proof (ready_legs s Hready) as HL.
  pose proof (ready_nowrap s Hready) as Hw.
  pose proof (ready_datas s Hready) as Hdat.
  set (flag i := fst (backwardImpl (leg_view s (stages (problem s)) i) mudyn mueq
                        (leg_view s (datas s) i))).
  set (out i := snd (backwardImpl (leg_view s (stages (problem s)) i) mudyn mueq
                       (leg_view s (datas s) i))).
  destruct (for_loop_inv (backward_leg backwardImpl mudyn mueq)
              (fun i st =>
                 same_shape s (snd st) /\
                 (forall i', 0 <= i' < i -> leg_view s (datas (snd st)) i' = out i') /\
                 (forall j : nat, split_at s i <= Z.of_nat j ->
                                  datas (snd st) !! j = datas s !! j) /\
                 (fst st = true <-> forall i', 0 <= i' < i -> flag i' = true))
              0 (numLegs s) (true, s)) as (st & Hst & Hsh & Hout & _ & Hflag).
  - lia.
  - split; [repeat split |]. split; [intros; lia |]. split; [reflexivity |].
    split; [intros; lia | reflexivity].
  - intros i [ret t] Hi (Hsh & Hout & Hrest & Hflag). cbn [fst snd] in *.
    pose proof Hsh as (E1 & E2 & E3 & E4 & E5 & E6).
    pose proof (split_at_range s Hready i Hi) as [Hr0 Hr1].
    assert (Hdt : leg_view s (datas t) i = leg_view s (datas s) i).
    { apply (leg_view_ext s Hready); [exact Hi |]. intros j Hj. apply Hrest. lia. }
    unfold backward_leg. cbn [fst snd].
    rewrite E2, E3.
    rewrite (at_split s Hready i) by lia.
    rewrite (uint_small (i + 1)) by lia.
    rewrite (at_split s Hready (i + 1)) by lia. cbn [bind].
    rewrite (make_span_leg_view s Hready) by (lia || reflexivity). cbn [bind].
    rewrite (make_span_leg_view s Hready) by (lia || congruence). cbn [bind].
    rewrite Hdt. fold (flag i) (out i).
    assert (Holen : length (out i) = Z.to_nat (split_at s (i + 1) - split_at s i)).
    { subst out. cbn beta. rewrite Hlen. apply (length_leg_view s Hready); [lia | exact Hdat]. }
    eexists. split; [reflexivity |]. cbn [fst snd set_datas datas].
    split.
    { repeat split; cbn; try assumption.
      rewrite length_write_span; [exact E6 | lia]. }
    split.
    { intros i' Hi'. destruct (Z.eq_dec i' i) as [-> | Hne].
      - apply (leg_view_write_span s Hready); [lia | congruence | exact Holen].
      - rewrite <- (Hout i') by lia.
        apply (leg_view_ext s Hready); [lia |]. intros j Hj.
        pose proof (split_at_mono s Hready (i' + 1) i ltac:(lia) ltac:(lia)).
        apply lookup_write_span_lt; lia. }
    split.
    { intros j Hj. rewrite lookup_write_span_ge by lia. apply Hrest. lia. }
    rewrite andb_true_iff, Hflag. split.
    + intros [Hall Hf] i' Hi'. destruct (Z.eq_dec i' i) as [-> | Hne];
        [exact Hf | apply Hall; lia].
    + intros Hall. split; [intros i' Hi'; apply Hall; lia | apply Hall; lia].
  - exists st. split; [exact Hst |].
    pose proof Hsh as (E1 & E2 & E3 & E4 & E5 & E6).
    split; [| split; [exact Hflag | repeat split; assumption]].
    intros i Hi.
    exists (split_at s i), (split_at s (i + 1)).
    split; [apply (split_at_lookup s Hready); lia |].
    split; [apply (split_at_lookup s Hready); lia |].
    split; [apply (make_span_leg_view s Hready); [exact Hi | reflexivity] |].
    split; [apply (make_span_leg_view s Hready); [exact Hi | exact Hdat] |].
    rewrite (make_span_leg_view s Hready) by (lia || congruence).
    f_equal. apply Hout. exact Hi.
Qed.

End BackwardMore.

Section LegSteps.
Context {Scalar : Type} `{ScalarOps Scalar}.
Variable s : ParallelRiccatiSolver Scalar.
Hypothesis Hready : solver_ready s.

(** A vector through the loop over the legs: the legs before [i] have been
    written, the entries from [splitIdx[i]] on are as they were.  Writing
    leg [i] through its view keeps this. *)
Lemma leg_written_step {A} (v0 v o : list A) (O : Z -> list A) i :
  0 <= i < numLegs s ->
  length v = length (stages (problem s)) ->
  length o = Z.to_nat (split_at s (i + 1) - split_at s i) ->
  (forall i', 0 <= i' < i -> leg_view s v i' = O i') ->
  (forall j : nat, split_at s i <= Z.of_nat j -> v !! j = v0 !! j) ->
  O i = o ->
  length (write_span v (split_at s i) o) = length (stages (problem s)) /\
  (forall i', 0 <= i' < i + 1 ->
              leg_view s (write_span v (split_at s i) o) i' = O i') /\
  (forall j : nat, split_at s (i + 1) <= Z.of_nat j ->
                   write_span v (split_at s i) o !! j = v0 !! j).
Proof.
  intros Hi Hlen Ho Hdone Hrest HO.
  pose proof (split_at_range s Hready i Hi) as [Hr0 Hr1].
  split; [rewrite length_write_span; [exact Hlen | lia] |].
  split.
  - intros i' Hi'. destruct (Z.eq_dec i' i) as [-> | Hne].
    + rewrite HO. apply (leg_view_write_span s Hready); [lia | exact Hlen | exact Ho].
    + rewrite <- (Hdone i') by lia.
      apply (leg_view_ext s Hready); [lia |]. intros j Hj.
      pose proof (split_at_mono s Hready (i' + 1) i ltac:(lia) ltac:(lia)).
      apply lookup_write_span_lt; lia.
  - intros j Hj. rewrite lookup_write_span_ge by lia. apply Hrest. lia.
Qed.

End LegSteps.

Section ForwardMore.
Context {Scalar : Type} `{ScalarOps Scalar}.
Variable forwardImpl :
  list (Knot.LQRKnotTpl Scalar) -> list (StageFactor Scalar) ->
  trajectories Scalar -> option (VectorXs Scalar) -> trajectories Scalar.
Variable s : ParallelRiccatiSolver Scalar.
Hypothesis Hready : solver_ready s.
Hypothesis Hsol :
  length (blocks (condensedKktRhs s)) = Z.to_nat (2 * numLegs s).

(** The parameter that leg [i] reads in [lbdas], when the entries of [lbdas]
    from [splitIdx[i + 1]] on are as the first loop left them. *)
Lemma forward_theta_condensed (tr1 t : trajectories Scalar) (i : Z) :
  0 <= i < numLegs s ->
  (forall i', 0 <= i' < numLegs s ->
     lbdas tr1 !! Z.to_nat (split_at s i')
     = blocks (condensedKktRhs s) !! Z.to_nat (2 * i')) ->
  length (lbdas t) = length (stages (problem s)) ->
  (forall j : nat, split_at s (i + 1) <= Z.of_nat j ->
                   lbdas t !! j = lbdas tr1 !! j) ->
  forward_theta s i t = Ok (condensed_theta s i).
Proof.
  intros Hi Hdist Hl Hrest.
  pose proof (ready_legs s Hready) as HL.
  pose proof (ready_nowrap s Hready) as Hw.
  unfold forward_theta, condensed_theta.
  rewrite (uint_small (numLegs s - 1)) by lia.
  destruct (i =? numLegs s - 1) eqn:E; [reflexivity |].
  apply Z.eqb_neq in E.
  pose proof (split_at_range s Hready (i + 1) ltac:(lia)) as [Hq0 Hq1].
  rewrite (uint_small (i + 1)) by lia.
  rewrite (at_split s Hready (i + 1)) by lia. cbn [bind].
  destruct (lookup_lt_is_Some_2 (blocks (condensedKktRhs s))
              (Z.to_nat (2 * (i + 1)))) as [lam Hlam]; [lia |].
  rewrite Hlam.
  rewrite (proj2 (at_Ok (lbdas t) (split_at s (i + 1)) lam)); [reflexivity |].
  split; [lia |]. rewrite Hrest by lia.
  rewrite Hdist by lia. exact Hlam.
Qed.

(** The first loop of [forward] writes at the split points only. *)
Lemma forward_distribute_frame (tr : trajectories Scalar) :
  trajectories_sized s tr ->
  exists tr1,
    for_loop 0 (numLegs s) (forward_distribute s) tr = Ok tr1 /\
    forall j : nat,
      (forall i, 0 <= i < numLegs s -> Z.of_nat j <> split_at s i) ->
      xs tr1 !! j = xs tr !! j /\ lbdas tr1 !! j = lbdas tr !! j.
Proof.
  intros (Hx & Hu & Hv & Hl).
  pose proof (ready_legs s Hready) as HL.
  destruct (for_loop_inv (forward_distribute s)
    (fun i t =>
       trajectories_sized s t /\
       forall j : nat,
         (forall i', 0 <= i' < i -> Z.of_nat j <> split_at s i') ->
         xs t !! j = xs tr !! j /\ lbdas t !! j = lbdas tr !! j)
    0 (numLegs s) tr) as (tr1 & Htr1 & _ & Hinv).
  - lia.
  - split; [repeat split; assumption |]. intros; split; reflexivity.
  - intros i t Hi ((Hx' & Hu' & Hv' & Hl') & Hframe).
    pose proof (split_at_range s Hready i Hi) as [Hr0 Hr1].
    destruct (lookup_lt_is_Some_2 (blocks (condensedKktRhs s)) (Z.to_nat (2 * i)))
      as [lam Hlam]; [lia |].
    destruct (lookup_lt_is_Some_2 (blocks (condensedKktRhs s))
                (Z.to_nat (2 * i + 1))) as [x Hxb]; [lia |].
    unfold forward_distribute, blk_at.
    rewrite (at_split s Hready i) by lia. cbn [bind].
    rewrite (proj2 (at_Ok _ (2 * i) lam)) by (split; [lia | exact Hlam]).
    cbn [bind]. rewrite set_at_Ok by lia. cbn [bind].
    rewrite (proj2 (at_Ok _ (2 * i + 1) x)) by (split; [lia | exact Hxb]).
    cbn [bind]. rewrite set_at_Ok by lia. cbn [bind].
    eexists. split; [reflexivity |]. cbn [xs us vs lbdas].
    split; [unfold trajectories_sized; cbn [xs us vs lbdas];
            rewrite !length_insert; repeat split; assumption |].
    intros j Hj.
    assert (Z.of_nat j <> split_at s i) by (apply Hj; lia).
    rewrite !list_lookup_insert_ne by lia. apply Hframe.
    intros i' Hi'. apply Hj. lia.
  - exists tr1. split; [exact Htr1 | exact Hinv].
Qed.

Hypothesis Hinplace : writes_in_place forwardImpl.

(** The second loop of [forward], from the trajectories [tr1] that the first
    loop leaves: every leg is the forward pass on its views of [tr1]. *)
Lemma forward_legs_Ok (tr1 : trajectories Scalar) :
  trajectories_sized s tr1 ->
  (forall i', 0 <= i' < numLegs s ->
     lbdas tr1 !! Z.to_nat (split_at s i')
     = blocks (condensedKktRhs s) !! Z.to_nat (2 * i')) ->
  exists tr2,
    for_loop 0 (numLegs s) (forward_leg forwardImpl s) tr1 = Ok tr2 /\
    trajectories_sized s tr2 /\
    forall i, 0 <= i < numLegs s ->
      leg_view s (xs tr2) i = xs (leg_forward forwardImpl s i tr1) /\
      leg_view s (us tr2) i = us (leg_forward forwardImpl s i tr1) /\
      leg_view s (vs tr2) i = vs (leg_forward forwardImpl s i tr1) /\
      leg_view s (lbdas tr2) i = lbdas (leg_forward forwardImpl s i tr1).
Proof.
  intros (Hx & Hu & Hv & Hl) Hdist.
  pose proof (ready_legs s Hready) as HL.
  pose proof (ready_nowrap s Hready) as Hw.
  pose proof (ready_datas s Hready) as Hd.
  set (O := fun i => leg_forward forwardImpl s i tr1).
  destruct (for_loop_inv (forward_leg forwardImpl s)
    (fun i t =>
       trajectories_sized s t /\
       (forall i', 0 <= i' < i ->
          leg_view s (xs t) i' = xs (O i') /\ leg_view s (us t) i' = us (O i') /\
          leg_view s (vs t) i' = vs (O i') /\
          leg_view s (lbdas t) i' = lbdas (O i')) /\
       (forall j : nat, split_at s i <= Z.of_nat j ->
          xs t !! j = xs tr1 !! j /\ us t !! j = us tr1 !! j /\
          vs t !! j = vs tr1 !! j /\ lbdas t !! j = lbdas tr1 !! j))
    0 (numLegs s) tr1) as (tr2 & Htr2 & Hsz & Hdone & _).
  - lia.
  - split; [repeat split; assumption |]. split; [intros; lia |].
    intros; repeat split.
  - intros i t Hi ((Hx' & Hu' & Hv' & Hl') & Hdone & Hrest).
    pose proof (split_at_range s Hready i Hi) as [Hr0 Hr1].
    assert (Ex : leg_view s (xs t) i = leg_view s (xs tr1) i)
      by (apply (leg_view_ext s Hready); [exact Hi |]; intros j Hj; apply Hrest; lia).
    assert (Eu : leg_view s (us t) i = leg_view s (us tr1) i)
      by (apply (leg_view_ext s Hready); [exact Hi |]; intros j Hj; apply Hrest; lia).
    assert (Ev : leg_view s (vs t) i = leg_view s (vs tr1) i)
      by (apply (leg_view_ext s Hready); [exact Hi |]; intros j Hj; apply Hrest; lia).
    assert (El : leg_view s (lbdas t) i = leg_view s (lbdas tr1) i)
      by (apply (leg_view_ext s Hready); [exact Hi |]; intros j Hj; apply Hrest; lia).
    unfold forward_leg.
    rewrite (at_split s Hready i) by lia.
    rewrite (uint_small (i + 1)) by lia.
    rewrite (at_split s Hready (i + 1)) by lia. cbn [bind].
    rewrite !(make_span_leg_view s Hready) by (lia || reflexivity || assumption).
    cbn [bind].
    rewrite (forward_theta_condensed tr1 t i Hi Hdist Hl')
      by (intros j Hj; apply Hrest; lia).
    cbn [bind]. rewrite Ex, Eu, Ev, El. fold (leg_forward forwardImpl s i tr1).
    fold (O i).
    destruct (Hinplace (leg_view s (stages (problem s)) i) (leg_view s (datas s) i)
                (mkTraj (leg_view s (xs tr1) i) (leg_view s (us tr1) i)
                   (leg_view s (vs tr1) i) (leg_view s (lbdas tr1) i))
                (condensed_theta s i)) as (Lx & Lu & Lv & Ll).
    fold (leg_forward forwardImpl s i tr1) in Lx, Lu, Lv, Ll.
    fold (O i) in Lx, Lu, Lv, Ll. cbn [xs us vs lbdas] in Lx, Lu, Lv, Ll.
    rewrite (length_leg_view s Hready) in Lx, Lu, Lv, Ll by (lia || assumption).
    destruct (leg_written_step s Hready (xs tr1) (xs t) (xs (O i))
                (fun i => xs (O i)) i Hi Hx' Lx
                ltac:(intros i' Hi'; apply Hdone; exact Hi')
                ltac:(intros j Hj; apply Hrest; exact Hj) eq_refl)
      as (Sx1 & Sx2 & Sx3).
    destruct (leg_written_step s Hready (us tr1) (us t) (us (O i))
                (fun i => us (O i)) i Hi Hu' Lu
                ltac:(intros i' Hi'; apply Hdone; exact Hi')
                ltac:(intros j Hj; apply Hrest; exact Hj) eq_refl)
      as (Su1 & Su2 & Su3).
    destruct (leg_written_step s Hready (vs tr1) (vs t) (vs (O i))
                (fun i => vs (O i)) i Hi Hv' Lv
                ltac:(intros i' Hi'; apply Hdone; exact Hi')
                ltac:(intros j Hj; apply Hrest; exact Hj) eq_refl)
      as (Sv1 & Sv2 & Sv3).
    destruct (leg_written_step s Hready (lbdas tr1) (lbdas t) (lbdas (O i))
                (fun i => lbdas (O i)) i Hi Hl' Ll
                ltac:(intros i' Hi'; apply Hdone; exact Hi')
                ltac:(intros j Hj; apply Hrest; exact Hj) eq_refl)
      as (Sl1 & Sl2 & Sl3).
    eexists. split; [reflexivity |]. cbn [xs us vs lbdas].
    split; [repeat split; assumption |].
    split; [intros i' Hi'; auto |]. intros j Hj; auto.
  - exists tr2. split; [exact Htr2 |]. split; [exact Hsz | exact Hdone].
Qed.

End ForwardMore.

Section ForwardMoreClaims.
Context {Scalar : Type} `{ScalarOps Scalar}.

(** X9.  The legs of [forward] are independent, once the condensed
    solution is distributed.  [forward] returns trajectories of the sizes it
    was given and, in the view of each leg [i], they are what [forwardImpl]
    computes from the views of leg [i] of the trajectories [tr1] that the
    first loop leaves, with the parameter of the leg ([leg_forward]).  The
    last part says what [leg_view s v i] is: the view
    [make_span_from_indices(v, splitIdx[i], splitIdx[i + 1])]. *)
Theorem forward_legs_are_independent
  (forwardImpl :
     list (Knot.LQRKnotTpl Scalar) -> list (StageFactor Scalar) ->
     trajectories Scalar -> option (VectorXs Scalar) -> trajectories Scalar)
  (s : ParallelRiccatiSolver Scalar) (tr : trajectories Scalar) :
  solver_ready s ->
  length (blocks (condensedKktRhs s)) = Z.to_nat (2 * numLegs s) ->
  writes_in_place forwardImpl ->
  trajectories_sized s tr ->
  exists tr1 tr2,
    for_loop 0 (numLegs s) (forward_distribute s) tr = Ok tr1 /\
    forward forwardImpl s tr = Ok tr2 /\
    trajectories_sized s tr2 /\
    (forall i, 0 <= i < numLegs s ->
       exists a b,
         splitIdx s !! Z.to_nat i = Some a /\
         splitIdx s !! Z.to_nat (i + 1) = Some b /\
         make_span_from_indices (xs tr2) a b
         = Ok (xs (leg_forward forwardImpl s i tr1)) /\
         make_span_from_indices (us tr2) a b
         = Ok (us (leg_forward forwardImpl s i tr1)) /\
         make_span_from_indices (vs tr2) a b
         = Ok (vs (leg_forward forwardImpl s i tr1)) /\
         make_span_from_indices (lbdas tr2) a b
         = Ok (lbdas (leg_forward forwardImpl s i tr1))) /\
    (forall (A : Type) (v : list A) i,
        0 <= i < numLegs s -> length v = length (stages (problem s)) ->
        exists a b,
          splitIdx s !! Z.to_nat i = Some a /\
          splitIdx s !! Z.to_nat (i + 1) = Some b /\
          make_span_from_indices v a b = Ok (leg_view s v i)).
Proof.
  intros Hready Hsol Hinplace Hsized.
  destruct (forward_distribute_Ok s Hready Hsol tr Hsized)
    as (tr1 & Htr1 & Hsized1 & _ & _ & Hdist).
  destruct (forward_legs_Ok forwardImpl s Hready Hsol Hinplace tr1 Hsized1)
    as (tr2 & Htr2 & Hsized2 & Hlegs).
  { intros i Hi. apply Hdist. exact Hi. }
  exists tr1, tr2. split; [exact Htr1 |].
  split; [unfold forward; rewrite Htr1; exact Htr2 |].
  split; [exact Hsized2 |].
  destruct Hsized2 as (Hx & Hu & Hv & Hl).
  split.
  - intros i Hi. destruct (Hlegs i Hi) as (Ex & Eu & Ev & El).
    exists (split_at s i), (split_at s (i + 1)).
    split; [apply (split_at_lookup s Hready); lia |].
    split; [apply (split_at_lookup s Hready); lia |].
    rewrite <- Ex, <- Eu, <- Ev, <- El.
    repeat split; apply (make_span_leg_view s Hready); assumption.
  - intros A v i Hi Hlen.
    exists (split_at s i), (split_at s (i + 1)).
    split; [apply (split_at_lookup s Hready); lia |].
    split; [apply (split_at_lookup s Hready); lia |].
    apply (make_span_leg_view s Hready); assumption.
Qed.

(** X10.  The first loop of [forward] writes at the split points only: the
    sizes are as they were, [us] and [vs] are as they were, and so are
    [xs[j]] and [lbdas[j]] at every [j] that is no split index [splitIdx[i]],
    [i < numLegs]. *)
Theorem forward_distributes_to_the_split_points_only
  (s : ParallelRiccatiSolver Scalar) (tr : trajectories Scalar) :
  solver_ready s ->
  length (blocks (condensedKktRhs s)) = Z.to_nat (2 * numLegs s) ->
  trajectories_sized s tr ->
  exists tr1,
    for_loop 0 (numLegs s) (forward_distribute s) tr = Ok tr1 /\
    trajectories_sized s tr1 /\
    us tr1 = us tr /\ vs tr1 = vs tr /\
    forall j : nat,
      (forall i a, 0 <= i < numLegs s -> splitIdx s !! Z.to_nat i = Some a ->
                   Z.of_nat j <> a) ->
      xs tr1 !! j = xs tr !! j /\ lbdas tr1 !! j = lbdas tr !! j.
Proof.
  intros Hready Hsol Hsized.
  destruct (forward_distribute_Ok s Hready Hsol tr Hsized)
    as (tr1 & Htr1 & Hsized1 & Eu & Ev & _).
  destruct (forward_distribute_frame s Hready Hsol tr Hsized)
    as (tr1' & Htr1' & Hframe).
  rewrite Htr1 in Htr1'. injection Htr1' as <-.
  exists tr1. split; [exact Htr1 |]. split; [exact Hsized1 |].
  split; [exact Eu |]. split; [exact Ev |].
  intros j Hj. apply Hframe. intros i Hi.
  apply (Hj i); [exact Hi |]. apply (split_at_lookup s Hready). lia.
Qed.

End ForwardMoreClaims.

Section BackwardForward.
Context {Scalar : Type} `{ScalarOps Scalar}.
Variable backwardImpl :
  list (Knot.LQRKnotTpl Scalar) -> Scalar -> Scalar ->
  list (StageFactor Scalar) -> bool * list (StageFactor Scalar).
Variable symmetric_block_tridiagonal_solve :
  condensed_system_t Scalar -> BlkVec Scalar ->
  bool * (condensed_system_t Scalar * BlkVec Scalar).
Variable forwardImpl :
  list (Knot.LQRKnotTpl Scalar) -> list (StageFactor Scalar) ->
  trajectories Scalar -> option (VectorXs Scalar) -> trajectories Scalar.

(** Readiness is a property of the legs, the problem and the number of
    stage factors. *)
Lemma solver_ready_frame (s t : ParallelRiccatiSolver Scalar) :
  numLegs t = numLegs s -> splitIdx t = splitIdx s -> problem t = problem s ->
  length (datas t) = length (datas s) ->
  solver_ready s -> solver_ready t.
Proof.
  intros E1 E2 E3 E6 [H1 H2 H3 H4 H5 H6 H7 H8].
  constructor; rewrite ?E1, ?E2, ?E3, ?E6; try assumption.
  unfold checkIndices in *. rewrite E1, E2. exact H4.
Qed.

(** X11.  [backward] prepares [forward].  On a ready solver of at least two
    legs, with kernels that write in place, stage factors that give
    right-hand side vectors of the sizes of their segments, and a
    block-tridiagonal solve that keeps the segments of the right-hand side,
    [backward] returns (true) and leaves a solver with the same legs and
    problem and as many stage factors, on which [checkIndices()] holds and
    which holds a condensed solution of [2 * numLegs] segments; and
    [forward] on that solver returns, with trajectories of the sizes it was
    given. *)
Theorem backward_prepares_forward (mudyn mueq : Scalar)
  (s : ParallelRiccatiSolver Scalar) (tr : trajectories Scalar) :
  solver_ready s -> 2 <= numLegs s ->
  (forall stview a b dtview,
      length (snd (backwardImpl stview a b dtview)) = length dtview) ->
  (forall st,
      for_loop 0 (numLegs s) (backward_leg backwardImpl mudyn mueq) (true, s)
      = Ok st ->
      rhs_dims_agree (snd st)) ->
  (forall sys rhs,
      length (blocks (snd (snd (symmetric_block_tridiagonal_solve sys rhs))))
      = length (blocks rhs)) ->
  writes_in_place forwardImpl ->
  trajectories_sized s tr ->
  exists s' tr2,
    backward backwardImpl symmetric_block_tridiagonal_solve mudyn mueq s
    = Ok (true, s') /\
    numLegs s' = numLegs s /\ splitIdx s' = splitIdx s /\
    problem s' = problem s /\ length (datas s') = length (datas s) /\
    checkIndices s' = Ok true /\
    length (blocks (condensedKktRhs s')) = Z.to_nat (2 * numLegs s') /\
    forward forwardImpl s' tr = Ok tr2 /\
    trajectories_sized s' tr2.
Proof.
  intros Hready HL Hlen Hdims Hsolve Hinplace Hsized.
  destruct (backward_legs_Ok backwardImpl mudyn mueq s Hready Hlen)
    as (st & Hst & Hshape).
  pose proof (solver_ready_shape s (snd st) Hready Hshape) as Hready1.
  pose proof Hshape as (E1 & E2 & E3 & _ & _ & E6).
  destruct (assembleCondensedSystem_Ok mudyn (snd st) Hready1
              ltac:(rewrite E1; exact HL) (Hdims st Hst))
    as (s2 & Hs2 & _ & _ & _ & _ & _ & _ & _ & _ & _ & _ & _
        & (rhs & Hrhs & Hrl & _) & F1 & F2 & F3 & F4).
  set (solved := symmetric_block_tridiagonal_solve (condensedKktSystem s2)
                   (condensedKktRhs s2)).
  set (s' := set_condensed (fst (snd solved)) (snd (snd solved)) s2).
  assert (Hready' : solver_ready s').
  { apply (solver_ready_frame s); try assumption; subst s'; cbn; congruence. }
  assert (Hsol : length (blocks (condensedKktRhs s')) = Z.to_nat (2 * numLegs s')).
  { subst s' solved. cbn [set_condensed condensedKktRhs numLegs].
    rewrite Hsolve, Hrhs. cbn [blk_scale_right blocks]. rewrite length_map, Hrl.
    rewrite F4. reflexivity. }
  assert (Hsized' : trajectories_sized s' tr).
  { unfold trajectories_sized in *. subst s'. cbn [set_condensed problem].
    rewrite F2, E3. exact Hsized. }
  destruct (forward_distribute_Ok s' Hready' Hsol tr Hsized')
    as (tr1 & Htr1 & Hsized1 & _ & _ & Hdist).
  destruct (forward_legs_Ok forwardImpl s' Hready' Hsol Hinplace tr1 Hsized1)
    as (tr2 & Htr2 & Hsized2 & _).
  { intros i Hi. apply Hdist. exact Hi. }
  exists s', tr2.
  split.
  { unfold backward. rewrite Hst. cbn [bind]. rewrite Hs2. cbn [bind]. reflexivity. }
  split; [subst s'; cbn; congruence |].
  split; [subst s'; cbn; congruence |].
  split; [subst s'; cbn; congruence |].
  split; [subst s'; cbn; congruence |].
  split; [exact (ready_checkIndices s' Hready') |].
  split; [exact Hsol |].
  split; [unfold forward; rewrite Htr1; exact Htr2 | exact Hsized2].
Qed.

End BackwardForward.

Lemma counting_backwardImpl_in_place stview a b dtview :
  length (snd (counting_backwardImpl stview a b dtview)) = length dtview.
Proof. apply length_map. Qed.

(** X8 on [ready_solver], with a kernel that counts the knots of its leg. *)
Lemma backward_legs_are_independent_witness :
  exists st,
    for_loop 0 (numLegs ready_solver) (backward_leg counting_backwardImpl 3 5)
      (true, ready_solver) = Ok st /\
    fst st = true /\ problem (snd st) = problem ready_solver.
Proof.
  destruct (backward_legs_are_independent counting_backwardImpl 3 5 ready_solver
              ready_solver_ready counting_backwardImpl_in_place)
    as (st & Hst & _ & Hflag & _ & _ & Hp & _).
  exists st. split; [exact Hst |]. split; [| exact Hp].
  apply Hflag. intros i Hi.
  change (numLegs ready_solver) with 2 in Hi.
  assert (Hc : i = 0 \/ i = 1) by lia.
  destruct Hc as [-> | ->]; vm_compute; reflexivity.
Defined.

(** On that run every stage factor holds the two knots of its leg. *)
Example backward_legs_example :
  (let* st := for_loop 0 (numLegs ready_solver)
                (backward_leg counting_backwardImpl 3 5) (true, ready_solver) in
   Ok (fst st, map kff (datas (snd st))))
  = Ok (true, [[2; 3]; [2; 3]; [2; 3]; [2; 3]]).
Proof. vm_compute. reflexivity. Qed.

(** X9 on [solved_solver], from zero trajectories. *)
Lemma forward_legs_are_independent_witness :
  exists tr1 tr2,
    for_loop 0 (numLegs solved_solver) (forward_distribute solved_solver)
      zero_trajectories = Ok tr1 /\
    forward recording_forwardImpl solved_solver zero_trajectories = Ok tr2 /\
    trajectories_sized solved_solver tr2.
Proof.
  destruct (forward_legs_are_independent recording_forwardImpl solved_solver
              zero_trajectories solved_solver_ready ltac:(reflexivity)
              recording_forwardImpl_in_place ltac:(repeat split))
    as (tr1 & tr2 & H1 & H2 & H3 & _).
  exists tr1, tr2. split; [exact H1 |]. split; [exact H2 | exact H3].
Defined.

(** X10 on [solved_solver], from zero trajectories. *)
Lemma forward_distributes_to_the_split_points_only_witness :
  exists tr1,
    for_loop 0 (numLegs solved_solver) (forward_distribute solved_solver)
      zero_trajectories = Ok tr1 /\
    us tr1 = us zero_trajectories /\ vs tr1 = vs zero_trajectories.
Proof.
  destruct (forward_distributes_to_the_split_points_only solved_solver
              zero_trajectories solved_solver_ready ltac:(reflexivity)
              ltac:(repeat split))
    as (tr1 & H1 & _ & H2 & H3 & _).
  exists tr1. split; [exact H1 |]. split; [exact H2 | exact H3].
Defined.

(** The first loop on [solved_solver]: the split points are 0 and 2. *)
Example forward_distribute_example :
  (let* tr1 := for_loop 0 (numLegs solved_solver)
                 (forward_distribute solved_solver) zero_trajectories in
   Ok (xs tr1, lbdas tr1))
  = Ok ([[3; 4]; [0; 0]; [7; 8]; [0; 0]], [[1; 2]; [0; 0]; [5; 6]; [0; 0]]).
Proof. vm_compute. reflexivity. Qed.

Lemma failing_legs_dims st :
  for_loop 0 (numLegs ready_solver) (backward_leg failing_backwardImpl 3 5)
    (true, ready_solver) = Ok st ->
  rhs_dims_agree (snd st).
Proof.
  intros Hst.
  assert (E : st = (false, ready_solver)).
  { vm_compute in Hst. injection Hst as <-. vm_compute. reflexivity. }
  rewrite E. exact ready_solver_dims.
Qed.

(** X11 on [ready_solver], with a kernel and a solve that write nothing. *)
Lemma backward_prepares_forward_witness :
  exists s' tr2,
    backward failing_backwardImpl failing_solve 3 5 ready_solver = Ok (true, s') /\
    forward recording_forwardImpl s' zero_trajectories = Ok tr2.
Proof.
  destruct (backward_prepares_forward failing_backwardImpl failing_solve
              recording_forwardImpl 3 5 ready_solver zero_trajectories
              ready_solver_ready ltac:(by_eval) (fun _ _ _ _ => eq_refl)
              failing_legs_dims (fun _ _ => eq_refl)
              recording_forwardImpl_in_place ltac:(repeat split))
    as (s' & tr2 & H1 & _ & _ & _ & _ & _ & _ & H2 & _).
  exists s', tr2. split; [exact H1 | exact H2].
Defined.

(** ** The front door and the bindings *)

Section DefaultInit.
Context {Scalar : Type} `{ScalarOps Scalar}.
Context {CostAbstract ConstraintStack : Type}.

#[local] Abbreviation TrajOpt :=
  (@TrajOptProblemTpl Scalar CostAbstract ConstraintStack).

Lemma xs_default_init_without_stage (p : TrajOpt) (xs0 : list (VectorXs Scalar)) :
  stages_ p = [] -> xs_default_init p xs0 = Fault OutOfRange.
Proof.
  intros E. unfold xs_default_init, numSteps. rewrite E. reflexivity.
Qed.

(** X12.  [us_default_init] and [xs_default_init] overwrite their output.
    [us_default_init] always returns, with the neutral element of the control
    space of each stage.  [xs_default_init] returns on a problem with a
    stage, with the neutral element of the state space of each stage and then
    of the next state space of the last stage; on a problem without stages it
    reads [stages_.back()] of an empty vector.  Neither result depends on
    what the output vector held, and a second call changes nothing. *)
Theorem default_init_overwrites (p : TrajOpt)
  (xs0 us0 : list (VectorXs Scalar)) :
  (exists us,
      us_default_init p us0 = Ok us /\
      Z.of_nat (length us) = numSteps p /\
      (forall i sm, stages_ p !! i = Some sm ->
                    us !! i = Some (neutral (uspace sm))) /\
      us_default_init p us = Ok us) /\
  (stages_ p = [] -> xs_default_init p xs0 = Fault OutOfRange) /\
  (stages_ p <> [] ->
   exists xs,
     xs_default_init p xs0 = Ok xs /\
     Z.of_nat (length xs) = numSteps p + 1 /\
     (forall i sm, stages_ p !! i = Some sm ->
                   xs !! i = Some (neutral (xspace sm))) /\
     (exists sm, last (stages_ p) = Some sm /\
                 xs !! length (stages_ p) = Some (neutral (xspace_next sm))) /\
     xs_default_init p xs = Ok xs) /\
  (forall xs0' us0',
      xs_default_init p xs0' = xs_default_init p xs0 /\
      us_default_init p us0' = us_default_init p us0).
Proof.
  split; [| split; [| split]].
  - exists (neutral_controls p). split; [apply us_default_init_Ok |].
    destruct (neutral_controls_spec p) as [Hl Hv].
    split; [exact Hl |]. split; [exact Hv | apply us_default_init_Ok].
  - apply xs_default_init_without_stage.
  - intros Hne. exists (neutral_states p).
    split; [apply xs_default_init_Ok; exact Hne |].
    destruct (neutral_states_spec p Hne) as (Hl & Hv & Hlast).
    split; [exact Hl |]. split; [exact Hv |]. split; [exact Hlast |].
    apply xs_default_init_Ok. exact Hne.
  - intros xs0' us0'. split; [| rewrite !us_default_init_Ok; reflexivity].
    destruct (stages_ p) as [|sm l] eqn:E.
    + rewrite !xs_default_init_without_stage by exact E. reflexivity.
    + rewrite !xs_default_init_Ok by (rewrite E; discriminate). reflexivity.
Qed.

(** X14.  [setInitState] composes as an assignment.  Setting [x0] and then
    [x1] is setting [x1] (also when both raise); setting the state that
    [getInitState] returns leaves the problem as it is; and whenever
    [setInitState(x0)] returns, the initial condition is still a state error
    residual, [getInitState] returns [x0], and the stages, the terminal cost,
    the terminal constraints and the neutral control are as they were. *)
Theorem setInitState_last_write_wins (p : TrajOpt) (x0 x1 : VectorXs Scalar) :
  (let* p1 := setInitState x0 p in setInitState x1 p1) = setInitState x1 p /\
  (forall x, getInitState p = Ok x -> setInitState x p = Ok p) /\
  (forall p1, setInitState x0 p = Ok p1 ->
              initCondIsStateError p1 = true /\
              init_state_error_valid p1 /\
              getInitState p1 = Ok x0 /\
              stages_ p1 = stages_ p /\ term_cost_ p1 = term_cost_ p /\
              term_cstrs_ p1 = term_cstrs_ p /\ unone_ p1 = unone_ p).
Proof.
  destruct p as [ic st tc tcs un ptr].
  unfold setInitState, getInitState, initCondIsStateError, deref_init_state_error,
    init_state_error_valid.
  cbn [init_state_error_ init_constraint_ stages_ term_cost_ term_cstrs_ unone_].
  destruct ptr; cbn [negb bind ALIGATOR_RUNTIME_ERROR].
  - split; [reflexivity |]. split; intros; discriminate.
  - destruct ic as [r | n]; cbn [bind].
    + split; [reflexivity |]. split.
      * intros x [= <-]. destruct r. reflexivity.
      * intros p1 [= <-]. cbn. repeat split. intros _. eauto.
    + split; [reflexivity |]. split; intros; discriminate.
Qed.


End DefaultInit.

Section IndexGuards.
Context {Scalar : Type} `{ScalarOps Scalar}.
Variable member_setWeight :
  Scalar -> Z -> ProxScaler Scalar -> result (ProxScaler Scalar).

(** X15.  The lambdas bound to [getConstraintScaler] and [set_weight] guard
    their index [j] (a [std::size_t]).  With [j >= size] they raise
    [IndexError] before anything is read or called.  With [j < size],
    [getConstraintScaler] returns [cstr_scalers[j]], which is inside the
    vector, and [set_weight] is the call [setWeight(v, j)] of the scaler, the
    error indicator left as it was. *)
Theorem bindings_guard_their_index (ws : Workspace Scalar)
  (st : py_state Scalar) (v : Scalar) (j : Z) :
  0 <= j ->
  (j < Z.of_nat (length (cstr_scalers ws)) ->
   exists sc, cstr_scalers ws !! Z.to_nat j = Some sc /\
              py_getConstraintScaler ws j = Ok sc) /\
  (Z.of_nat (length (cstr_scalers ws)) <= j ->
   py_getConstraintScaler ws j
   = Fault (PythonError "IndexError" "Index out of bounds.")) /\
  (j < size (scaler st) ->
   py_set_weight member_setWeight v j st
   = let* s := member_setWeight v j (scaler st) in Ok (mkPy s (pyerr st))) /\
  (size (scaler st) <= j ->
   py_set_weight member_setWeight v j st
   = Fault (PythonError "IndexError" "Index out of bounds.")).
Proof.
  intros Hj. split; [| split; [| split]].
  - intros Hlt. unfold py_getConstraintScaler.
    replace (j >=? Z.of_nat (length (cstr_scalers ws))) with false
      by (symmetry; rewrite Z.geb_leb; apply Z.leb_gt; lia).
    cbn [bind].
    destruct (lookup_lt_is_Some_2 (cstr_scalers ws) (Z.to_nat j)) as [sc Hsc];
      [lia |].
    exists sc. split; [exact Hsc |]. apply at_Ok. split; [lia | exact Hsc].
  - intros Hge. unfold py_getConstraintScaler.
    replace (j >=? Z.of_nat (length (cstr_scalers ws))) with true
      by (symmetry; apply Z.geb_le; lia).
    reflexivity.
  - intros Hlt. unfold py_set_weight.
    replace (j >=? size (scaler st)) with false
      by (symmetry; rewrite Z.geb_leb; apply Z.leb_gt; lia).
    reflexivity.
  - intros Hge. unfold py_set_weight.
    replace (j >=? size (scaler st)) with true
      by (symmetry; apply Z.geb_le; lia).
    reflexivity.
Qed.

End IndexGuards.

(** X12 on the two-stage problem, over an output vector that is not
    empty. *)
Lemma default_init_overwrites_witness :
  exists xs,
    xs_default_init example_trajopt [[9; 9]] = Ok xs /\
    Z.of_nat (length xs) = numSteps example_trajopt + 1 /\
    xs_default_init example_trajopt xs = Ok xs.
Proof.
  destruct (default_init_overwrites example_trajopt [[9; 9]] [])
    as (_ & _ & Hxs & _).
  destruct (Hxs ltac:(discriminate)) as (xs & H1 & H2 & _ & _ & H3).
  exists xs. split; [exact H1 |]. split; [exact H2 | exact H3].
Defined.

(** X14 on the two-stage problem, whose initial state is [[1, -1]]. *)
Lemma setInitState_last_write_wins_witness :
  (let* p1 := setInitState [4; 5] example_trajopt in setInitState [6; 7] p1)
  = setInitState [6; 7] example_trajopt /\
  setInitState [1; -1] example_trajopt = Ok example_trajopt.
Proof.
  destruct (setInitState_last_write_wins example_trajopt [4; 5] [6; 7])
    as (H1 & H2 & _).
  split; [exact H1 | apply H2; reflexivity].
Defined.


(** X15 on a workspace of two scalers: the second scaler, and an index out
    of bounds. *)
Lemma bindings_guard_their_index_witness :
  py_getConstraintScaler example_workspace 1 = Ok (mkScaler [2; 2; 2]) /\
  py_getConstraintScaler example_workspace 2
  = Fault (PythonError "IndexError" "Index out of bounds.").
Proof.
  split.
  - destruct (bindings_guard_their_index store_weight example_workspace
                example_scaler 7 1 ltac:(lia)) as (H1 & _).
    destruct (H1 ltac:(by_eval)) as (sc & Hsc & Hget).
    injection Hsc as <-. exact Hget.
  - apply (bindings_guard_their_index store_weight example_workspace
             example_scaler 7 2); [lia | by_eval].
Defined.

(** ** Linear composition *)

Section LinearCompositionMore.
Import LinearComposition.
Context {Scalar : Type} `{ScalarOps Scalar} `{ScalarAdd Scalar}.
Variable mat_vec : MatrixXs Scalar -> VectorXs Scalar -> VectorXs Scalar.
Variable mat_mat : MatrixXs Scalar -> MatrixXs Scalar -> MatrixXs Scalar.
Variable StageFunctionData_make :
  Z -> Z -> Z -> Z -> VectorXs Scalar * MatrixXs Scalar.

(** The constructor returns exactly when the dimensions chain. *)
Lemma linear_compose_Ok (f : FunType) (a : MatrixXs Scalar) (v : VectorXs Scalar)
  (c : linear_func_composition_impl) :
  linear_compose f a v = Ok c <->
  rows a = length v /\ Z.of_nat (cols a) = nr f /\
  c = mkComposition (ndx1 f) (nu f) (ndx2 f) (to_int (Z.of_nat (rows a))) f a v.
Proof.
  unfold linear_compose. cbv zeta.
  destruct (Z.of_nat (rows a) =? Z.of_nat (length v)) eqn:E1; cbn [negb bind].
  - apply Z.eqb_eq in E1.
    destruct (Z.of_nat (cols a) =? nr f) eqn:E2; cbn [negb bind].
    + apply Z.eqb_eq in E2. split.
      * intros [= <-]. split; [lia |]. split; [exact E2 | reflexivity].
      * intros (_ & _ & ->). reflexivity.
    + apply Z.eqb_neq in E2. split; [discriminate | intros (_ & E & _); contradiction].
  - apply Z.eqb_neq in E1. split; [discriminate | intros (E & _); lia].
Qed.

(** X16.  The constructor of the linear composition [x |-> A f(x) + b]
    checks the dimensions, the rows first: [A.rows() != b.rows()] is a
    runtime error; else [A.cols() != func.nr] is a runtime error; else the
    composition holds [func], [A] and [b], has the dimensions [ndx1], [nu],
    [ndx2] of [func], and [nr = (int)A.rows()], which is [A.rows()] when it
    fits in an [int].  The constructor without [b] takes
    [b = Zero(A.rows())], so that only the second check can fail. *)
Theorem linear_composition_checks_dimensions (f : FunType)
  (a : MatrixXs Scalar) (v : VectorXs Scalar) :
  (rows a <> length v ->
   linear_compose f a v
   = Fault (RuntimeError "Incompatible dimensions: A.rows() != b.rows()")) /\
  (rows a = length v -> Z.of_nat (cols a) <> nr f ->
   linear_compose f a v
   = Fault (RuntimeError "Incompatible dimensions: A.cols() != func.nr")) /\
  (rows a = length v -> Z.of_nat (cols a) = nr f ->
   exists c,
     linear_compose f a v = Ok c /\
     func c = f /\ A c = a /\ b c = v /\
     base_ndx1 c = ndx1 f /\ base_nu c = nu f /\ base_ndx2 c = ndx2 f /\
     base_nr c = to_int (Z.of_nat (rows a)) /\
     (Z.of_nat (rows a) < 2 ^ 31 -> base_nr c = Z.of_nat (rows a))) /\
  (Z.of_nat (cols a) <> nr f ->
   linear_compose_A f a
   = Fault (RuntimeError "Incompatible dimensions: A.cols() != func.nr")) /\
  (Z.of_nat (cols a) = nr f ->
   exists c, linear_compose_A f a = Ok c /\ b c = vZero (rows a) /\
             length (b c) = rows a).
Proof.
  assert (Hz : length (vZero (Scalar := Scalar) (rows a)) = rows a)
    by apply length_replicate.
  split; [| split; [| split; [| split]]].
  - intros Hne. unfold linear_compose. cbv zeta.
    replace (Z.of_nat (rows a) =? Z.of_nat (length v)) with false
      by (symmetry; apply Z.eqb_neq; lia).
    reflexivity.
  - intros He Hne. unfold linear_compose. cbv zeta.
    rewrite He, Z.eqb_refl. cbn [negb bind].
    replace (Z.of_nat (cols a) =? nr f) with false
      by (symmetry; apply Z.eqb_neq; exact Hne).
    reflexivity.
  - intros He Hc. eexists. split.
    + apply linear_compose_Ok. split; [exact He |]. split; [exact Hc | reflexivity].
    + cbn. repeat split. intros Hr. unfold to_int.
      rewrite Z.mod_small by lia. lia.
  - intros Hne. unfold linear_compose_A, linear_compose. cbv zeta.
    rewrite Hz, Z.eqb_refl. cbn [negb bind].
    replace (Z.of_nat (cols a) =? nr f) with false
      by (symmetry; apply Z.eqb_neq; exact Hne).
    reflexivity.
  - intros Hc. eexists. split.
    + apply linear_compose_Ok. split; [symmetry; exact Hz |].
      split; [exact Hc | reflexivity].
    + cbn. split; [reflexivity | exact Hz].
Qed.

(** X17.  The checks of the constructor make [evaluate] and
    [computeJacobians] of a composition safe.  For a composition that the
    constructor returned, an Eigen product of [A.rows()] coefficients, and a
    function [func] whose value and Jacobian have [func.nr] rows: the data
    that [createData] makes holds the data of [func]; on such data, when
    [func] evaluates, [evaluate] returns with the value [b + A * value] of
    [A.rows()] coefficients, and [computeJacobians] with the Jacobian
    [A * jac], the data of [func] holding what [func] computed: no assertion
    of Eigen fails.  A fault of [func] is the fault of the composition, and
    data that is not a [Data] is a fault of the cast. *)
Theorem linear_composition_evaluates (f : FunType) (a : MatrixXs Scalar)
  (v : VectorXs Scalar) (c : linear_func_composition_impl) :
  linear_compose f a v = Ok c ->
  (forall M w, length (mat_vec M w) = rows M) ->
  (forall x d d', evaluate f x d = Ok d' -> Z.of_nat (length (value_ d')) = nr f) ->
  (forall x d d', computeJacobians f x d = Ok d' ->
                  Z.of_nat (rows (jac_buffer_ d')) = nr f) ->
  (exists value jac,
      composition_createData StageFunctionData_make c
      = Data value jac (createData f)) /\
  (forall x value jac sub sub',
      evaluate f x sub = Ok sub' ->
      composition_evaluate mat_vec c x (Data value jac sub)
      = Ok (Data (zip_with sadd v (mat_vec a (value_ sub'))) jac sub') /\
      length (zip_with sadd v (mat_vec a (value_ sub'))) = rows a) /\
  (forall x value jac sub sub',
      computeJacobians f x sub = Ok sub' ->
      composition_computeJacobians mat_mat c x (Data value jac sub)
      = Ok (Data value (mat_mat a (jac_buffer_ sub')) sub')) /\
  (forall x value jac sub e,
      (evaluate f x sub = Fault e ->
       composition_evaluate mat_vec c x (Data value jac sub) = Fault e) /\
      (computeJacobians f x sub = Fault e ->
       composition_computeJacobians mat_mat c x (Data value jac sub) = Fault e)) /\
  (forall x value jac,
      composition_evaluate mat_vec c x (StageFunctionData value jac)
      = Fault InvalidPointer /\
      composition_computeJacobians mat_mat c x (StageFunctionData value jac)
      = Fault InvalidPointer).
Proof.
  intros Hc Hshape Hval Hjac.
  apply linear_compose_Ok in Hc as (Hrows & Hcols & ->).
  split; [eexists _, _; reflexivity |].
  split; [| split; [| split]].
  - intros x value jac sub sub' Hsub.
    pose proof (Hval _ _ _ Hsub) as Hn.
    unfold composition_evaluate. cbn [func A b]. rewrite Hsub. cbn [bind].
    replace (Z.of_nat (cols a) =? Z.of_nat (length (value_ sub'))) with true
      by (symmetry; apply Z.eqb_eq; lia).
    cbn [assert_ bind].
    replace (Z.of_nat (length v) =? Z.of_nat (length (mat_vec a (value_ sub'))))
      with true by (symmetry; apply Z.eqb_eq; rewrite Hshape; lia).
    cbn [assert_ bind]. split; [reflexivity |].
    rewrite length_zip_with, Hshape. lia.
  - intros x value jac sub sub' Hsub.
    pose proof (Hjac _ _ _ Hsub) as Hn.
    unfold composition_computeJacobians. cbn [func A b]. rewrite Hsub. cbn [bind].
    replace (Z.of_nat (cols a) =? Z.of_nat (rows (jac_buffer_ sub'))) with true
      by (symmetry; apply Z.eqb_eq; lia).
    reflexivity.
  - intros x value jac sub e. split; intros Hsub.
    + unfold composition_evaluate. cbn [func]. rewrite Hsub. reflexivity.
    + unfold composition_computeJacobians. cbn [func]. rewrite Hsub. reflexivity.
  - intros x value jac. split; reflexivity.
Qed.

(** X18.  A composition is again a function whose value and Jacobian have
    [nr] rows, when [A.rows()] fits in an [int]; so it can be composed
    again: [linear_compose] of it with [A2] and [b2] returns exactly when
    [A2.rows() = b2.rows()] and [A2.cols() = A.rows()]. *)
Theorem linear_composition_keeps_the_sizes (f : FunType) (a : MatrixXs Scalar)
  (v : VectorXs Scalar) (c : linear_func_composition_impl) :
  linear_compose f a v = Ok c ->
  Z.of_nat (rows a) < 2 ^ 31 ->
  (forall M w, length (mat_vec M w) = rows M) ->
  (forall M J, rows (mat_mat M J) = rows M) ->
  (forall x d d',
      evaluate (as_FunType mat_vec mat_mat StageFunctionData_make c) x d = Ok d' ->
      Z.of_nat (length (value_ d'))
      = nr (as_FunType mat_vec mat_mat StageFunctionData_make c)) /\
  (forall x d d',
      computeJacobians (as_FunType mat_vec mat_mat StageFunctionData_make c) x d
      = Ok d' ->
      Z.of_nat (rows (jac_buffer_ d'))
      = nr (as_FunType mat_vec mat_mat StageFunctionData_make c)) /\
  (forall (a2 : MatrixXs Scalar) (v2 : VectorXs Scalar),
      (exists c2,
          linear_compose (as_FunType mat_vec mat_mat StageFunctionData_make c)
            a2 v2 = Ok c2)
      <-> rows a2 = length v2 /\ cols a2 = rows a).
Proof.
  intros Hc Hsmall Hshape Hshape2.
  apply linear_compose_Ok in Hc as (Hrows & Hcols & ->).
  assert (Hnr : to_int (Z.of_nat (rows a)) = Z.of_nat (rows a)).
  { unfold to_int. rewrite Z.mod_small by lia. lia. }
  cbn [as_FunType nr evaluate computeJacobians base_nr]. rewrite Hnr.
  split; [| split].
  - intros x d d' Hrun. unfold composition_evaluate in Hrun.
    destruct d as [? ? | value jac sub]; [discriminate |]. cbn [func A b] in Hrun.
    apply bind_Ok in Hrun as (sub' & _ & Hrun).
    apply bind_Ok in Hrun as (u1 & _ & Hrun).
    apply bind_Ok in Hrun as (u2 & Hsum & Hrun).
    injection Hrun as <-. cbn [value_].
    unfold assert_ in Hsum.
    destruct (Z.of_nat (length v) =? Z.of_nat (length (mat_vec a (value_ sub'))))
      eqn:E; [| discriminate].
    apply Z.eqb_eq in E. rewrite Hshape in E.
    rewrite length_zip_with, Hshape.
    apply Nat2Z.inj in E. rewrite E, Nat.min_id. reflexivity.
  - intros x d d' Hrun. unfold composition_computeJacobians in Hrun.
    destruct d as [? ? | value jac sub]; [discriminate |]. cbn [func A b] in Hrun.
    apply bind_Ok in Hrun as (sub' & _ & Hrun).
    apply bind_Ok in Hrun as (u1 & _ & Hrun).
    injection Hrun as <-. cbn [jac_buffer_]. rewrite Hshape2. reflexivity.
  - intros a2 v2. split.
    + intros [c2 Hc2]. apply linear_compose_Ok in Hc2 as (H1 & H2 & _).
      cbn [as_FunType nr base_nr] in H2.
      split; [exact H1 |]. apply Nat2Z.inj. exact H2.
    + intros [H1 H2]. eexists. apply linear_compose_Ok.
      split; [exact H1 |]. split; [| reflexivity].
      cbn [as_FunType nr base_nr]. f_equal. exact H2.
Qed.

End LinearCompositionMore.

Lemma mat_vec_Z_rows (M : MatrixXs Z) (w : VectorXs Z) :
  length (mat_vec_Z M w) = rows M.
Proof. unfold mat_vec_Z. rewrite length_map, length_seq. reflexivity. Qed.

Lemma mat_mat_Z_rows (M J : MatrixXs Z) : rows (mat_mat_Z M J) = rows M.
Proof. reflexivity. Qed.

Lemma plane_projection_value x d d' :
  LinearComposition.evaluate plane_projection x d = Ok d' ->
  Z.of_nat (length (LinearComposition.value_ d'))
  = LinearComposition.nr plane_projection.
Proof. intros [= <-]. reflexivity. Qed.

Lemma plane_projection_jac x d d' :
  LinearComposition.computeJacobians plane_projection x d = Ok d' ->
  Z.of_nat (rows (LinearComposition.jac_buffer_ d'))
  = LinearComposition.nr plane_projection.
Proof. intros [= <-]. reflexivity. Qed.

Lemma example_composition_Ok :
  LinearComposition.linear_compose plane_projection example_A [10; 20; 30]
  = Ok example_composition.
Proof. reflexivity. Qed.

(** X16 on the projection of the plane, a matrix of three rows and two
    columns, and a vector of three coefficients. *)
Lemma linear_composition_checks_dimensions_witness :
  exists c,
    LinearComposition.linear_compose plane_projection example_A [10; 20; 30]
    = Ok c /\
    LinearComposition.base_nr c = 3.
Proof.
  destruct (linear_composition_checks_dimensions plane_projection example_A
              [10; 20; 30]) as (_ & _ & H3 & _).
  destruct (H3 eq_refl eq_refl)
    as (c & Hc & _ & _ & _ & _ & _ & _ & _ & Hnr).
  exists c. split; [exact Hc |]. apply Hnr. reflexivity.
Defined.

(** X17 on [x |-> example_A (x0, x1) + (10, 20, 30)], at [x = (1, 1)]. *)
Lemma linear_composition_evaluates_witness :
  LinearComposition.composition_evaluate mat_vec_Z example_composition [1; 1]
    (LinearComposition.composition_createData zero_data example_composition)
  = Ok (LinearComposition.Data [13; 27; 41] (Zero 3 4)
          (LinearComposition.StageFunctionData [1; 1] (Zero 2 2))).
Proof.
  destruct (linear_composition_evaluates mat_vec_Z mat_mat_Z zero_data
              plane_projection example_A [10; 20; 30] example_composition
              example_composition_Ok mat_vec_Z_rows plane_projection_value
              plane_projection_jac) as (_ & Hev & _).
  exact (proj1 (Hev [1; 1] (vZero 3) (Zero 3 4)
                  (LinearComposition.StageFunctionData [0; 0] (Zero 2 2))
                  (LinearComposition.StageFunctionData [1; 1] (Zero 2 2))
                  eq_refl)).
Defined.

(** X18: that composition, composed with the sum of its three outputs. *)
Lemma linear_composition_keeps_the_sizes_witness :
  exists c2,
    LinearComposition.linear_compose
      (LinearComposition.as_FunType mat_vec_Z mat_mat_Z zero_data
         example_composition)
      (mkMatrix 1 3 [[1; 1; 1]]) [0]
    = Ok c2.
Proof.
  destruct (linear_composition_keeps_the_sizes mat_vec_Z mat_mat_Z zero_data
              plane_projection example_A [10; 20; 30] example_composition
              example_composition_Ok ltac:(by_eval) mat_vec_Z_rows
              mat_mat_Z_rows) as (_ & _ & H3).
  apply H3. split; reflexivity.
Defined.

(** The sum of the three outputs at [x = (1, 1)]: [13 + 27 + 41 = 81]. *)
Example linear_composition_example :
  (let* c := LinearComposition.linear_compose plane_projection example_A
               [10; 20; 30] in
   let f := LinearComposition.as_FunType mat_vec_Z mat_mat_Z zero_data c in
   let* c2 := LinearComposition.linear_compose f (mkMatrix 1 3 [[1; 1; 1]]) [0] in
   let* d := LinearComposition.composition_evaluate mat_vec_Z c2 [1; 1]
               (LinearComposition.composition_createData zero_data c2) in
   Ok (LinearComposition.value_ d))
  = Ok [81].
Proof. vm_compute. reflexivity. Qed.

(** A matrix of two rows does not go with a vector [b] of three. *)
Example linear_composition_checks_example :
  LinearComposition.linear_compose plane_projection (Identity 2 2) [10; 20; 30]
  = Fault (RuntimeError "Incompatible dimensions: A.rows() != b.rows()") /\
  LinearComposition.linear_compose_A plane_projection (Identity 3 3)
  = Fault (RuntimeError "Incompatible dimensions: A.cols() != func.nr").
Proof. split; reflexivity. Qed.
